(** * VRIL-Storage: the drive browser's item store and mutation engine

    A shallow embedding of [Frontend/src/FileBrowser.tsx] and of the data
    shapes of [Frontend/src/api.tsx].  The React component keeps its state in
    hooks; here the hooks that matter are fields of one record ([Browser]) and
    every handler is a function from that record to the next one.

    Conventions of the embedding:
    - a JS [number] used as an id is a [Z]; [number | null] is [option Z];
    - a JS [Set<number>] is the list of its elements in insertion order
      ([IdSet]), which is also the order [forEach] and [Array.from] visit;
    - strings are [string]s of code units below 256, compared code unit by
      code unit as JS does;
    - the recursive closures that walk the folder tree take a fuel argument
      and return [None] when it runs out; the handlers give them
      [S (length folders)], which is shown to be always enough. *)

From Stdlib Require Import List ZArith Bool String Ascii Lia Sorted Permutation.
Import ListNotations.
Local Open Scope Z_scope.
Local Open Scope bool_scope.

(** ** JavaScript primitives *)

(** [a ?? b] *)
Definition nullish {A : Type} (a b : option A) : option A :=
  match a with
  | Some _ => a
  | None => b
  end.

(** [p === x] for [p : number | null] and [x : number] *)
Definition is_id (p : option Z) (x : Z) : bool :=
  match p with
  | Some q => q =? x
  | None => false
  end.

(** [p === q] for two values of type [number | null] *)
Definition same_ref (p q : option Z) : bool :=
  match p, q with
  | Some a, Some b => a =? b
  | None, None => true
  | _, _ => false
  end.

(** truthiness of a [number | null]: [null] and [0] are falsy *)
Definition truthy (p : option Z) : bool :=
  match p with
  | Some a => negb (a =? 0)
  | None => false
  end.

(** [arr.includes(x)] on an array of numbers *)
Definition includes (arr : list Z) (x : Z) : bool := existsb (Z.eqb x) arr.

(** [Set<number>]: elements in insertion order, without repetition. *)
Definition IdSet := list Z.

Definition has (s : IdSet) (x : Z) : bool := existsb (Z.eqb x) s.

Definition add (s : IdSet) (x : Z) : IdSet := if has s x then s else s ++ [x].

(** [xs.forEach(f)] where the callback may fail to return (fuel) and threads
    the captured mutable state [S]. *)
Fixpoint forEachM {A S : Type} (f : A -> S -> option S) (xs : list A) (s : S)
  : option S :=
  match xs with
  | [] => Some s
  | x :: xs' =>
      match f x s with
      | Some s' => forEachM f xs' s'
      | None => None
      end
  end.

(** ** Data model ([api.tsx]) *)

Module DriveFolder.
Record t := mk {
  id : Z;
  name : string;
  parentId : option Z;
  trashed : bool;
  originalParentId : option Z
}.
End DriveFolder.

Module DriveFile.
Record t := mk {
  id : Z;
  name : string;
  type : string;
  ownerId : Z;
  parentId : option Z;
  sizeBytes : Z;
  starred : bool;
  isShared : bool;
  trashed : bool;
  originalParentId : option Z;
  modifiedAt : string
}.
End DriveFile.

Record DriveState := mkState {
  rootFolderId : Z;
  folders : list DriveFolder.t;
  files : list DriveFile.t
}.

Inductive SortBy := SortName | SortModifiedAt.
Inductive SortDir := Asc | Desc.
Inductive DriveSection := MyDrive | Starred | Shared | Trash.

(** The hooks of the [FileBrowser] component that the handlers read or
    write. *)
Record Browser := mkBrowser {
  state : option DriveState;
  section : DriveSection;
  currentFolderId : option Z;
  sortBy : SortBy;
  sortDir : SortDir;
  search : string;
  selectedIds : list Z;
  newMenuOpen : bool;
  busy : bool
}.

(** [setState(...)], [setSelectedIds(...)], ... *)
Definition setState (s : option DriveState) (b : Browser) : Browser :=
  mkBrowser s (section b) (currentFolderId b) (sortBy b) (sortDir b)
            (search b) (selectedIds b) (newMenuOpen b) (busy b).

Definition setSection (x : DriveSection) (b : Browser) : Browser :=
  mkBrowser (state b) x (currentFolderId b) (sortBy b) (sortDir b)
            (search b) (selectedIds b) (newMenuOpen b) (busy b).

Definition setCurrentFolderId (x : option Z) (b : Browser) : Browser :=
  mkBrowser (state b) (section b) x (sortBy b) (sortDir b)
            (search b) (selectedIds b) (newMenuOpen b) (busy b).

Definition setSelectedIds (x : list Z) (b : Browser) : Browser :=
  mkBrowser (state b) (section b) (currentFolderId b) (sortBy b) (sortDir b)
            (search b) x (newMenuOpen b) (busy b).

Definition setNewMenuOpen (x : bool) (b : Browser) : Browser :=
  mkBrowser (state b) (section b) (currentFolderId b) (sortBy b) (sortDir b)
            (search b) (selectedIds b) x (busy b).

Definition setBusy (x : bool) (b : Browser) : Browser :=
  mkBrowser (state b) (section b) (currentFolderId b) (sortBy b) (sortDir b)
            (search b) (selectedIds b) (newMenuOpen b) x.

Definition setSortBy (x : SortBy) (b : Browser) : Browser :=
  mkBrowser (state b) (section b) (currentFolderId b) x (sortDir b)
            (search b) (selectedIds b) (newMenuOpen b) (busy b).

Definition setSortDir (x : SortDir) (b : Browser) : Browser :=
  mkBrowser (state b) (section b) (currentFolderId b) (sortBy b) x
            (search b) (selectedIds b) (newMenuOpen b) (busy b).

Definition sortBy_eqb (a b : SortBy) : bool :=
  match a, b with
  | SortName, SortName | SortModifiedAt, SortModifiedAt => true
  | _, _ => false
  end.

Definition toggleSort (field : SortBy) (b : Browser) : Browser :=
  if sortBy_eqb (sortBy b) field
  then setSortDir (match sortDir b with Asc => Desc | Desc => Asc end) b
  else setSortDir Asc (setSortBy field b).

(** [{ ...prev, folders: fs }] and [{ ...prev, files: fs }] *)
Definition withFolders (fs : list DriveFolder.t) (st : DriveState) : DriveState :=
  mkState (rootFolderId st) fs (files st).

Definition withFiles (fs : list DriveFile.t) (st : DriveState) : DriveState :=
  mkState (rootFolderId st) (folders st) fs.

(** ** Strings *)

(** [String.prototype.toLowerCase] on one code unit below 256: the ASCII
    capitals and the Latin-1 capitals (all of 192..222 but the
    multiplication sign 215) move up by 32. *)
Definition lower_unit (c : ascii) : ascii :=
  let n := nat_of_ascii c in
  if ((65 <=? n) && (n <=? 90))%nat then ascii_of_nat (n + 32)
  else if ((192 <=? n) && (n <=? 222) && negb (n =? 215))%nat
       then ascii_of_nat (n + 32)
       else c.

Fixpoint toLowerCase (s : string) : string :=
  match s with
  | EmptyString => EmptyString
  | String c s' => String (lower_unit c) (toLowerCase s')
  end.

(** white space as [trim] sees it, below 256 *)
Definition is_space (c : ascii) : bool :=
  let n := nat_of_ascii c in
  (((9 <=? n) && (n <=? 13)) || (n =? 32) || (n =? 160))%nat.

Definition is_empty (s : string) : bool :=
  match s with
  | EmptyString => true
  | String _ _ => false
  end.

Fixpoint trimStart (s : string) : string :=
  match s with
  | EmptyString => EmptyString
  | String c s' => if is_space c then trimStart s' else s
  end.

Fixpoint trimEnd (s : string) : string :=
  match s with
  | EmptyString => EmptyString
  | String c s' =>
      let r := trimEnd s' in
      if is_space c && is_empty r then EmptyString else String c r
  end.

Definition trim (s : string) : string := trimEnd (trimStart s).

(** [s.includes(q)] *)
Fixpoint str_includes (s q : string) : bool :=
  String.prefix q s ||
  match s with
  | EmptyString => false
  | String _ s' => str_includes s' q
  end.

(** [s.split(sep)] for a one-character separator *)
Fixpoint split (sep : ascii) (s : string) : list string :=
  match s with
  | EmptyString => [EmptyString]
  | String c s' =>
      if Ascii.eqb c sep then EmptyString :: split sep s'
      else match split sep s' with
           | seg :: rest => String c seg :: rest
           | [] => [String c EmptyString]
           end
  end.

(** [path.split("/").filter(Boolean)] *)
Definition pathSegments (path : string) : list string :=
  filter (fun seg => negb (is_empty seg)) (split "/"%char path).

(** [segments.join("/")] *)
Definition join (segments : list string) : string :=
  String.concat "/" segments.

(** [a < b] on numbers that may be NaN ([None]): false as soon as one side
    is NaN. *)
Definition num_lt (a b : option Z) : bool :=
  match a, b with
  | Some x, Some y => x <? y
  | _, _ => false
  end.

(** [arr.slice().sort(cmp)].  The sort of the language is stable; for a
    comparator that is a consistent ordering its result is the stable
    insertion sort below. *)
Fixpoint insertBy {A : Type} (cmp : A -> A -> Z) (x : A) (l : list A) : list A :=
  match l with
  | [] => [x]
  | y :: l' => if cmp x y <=? 0 then x :: l else y :: insertBy cmp x l'
  end.

Definition sortWith {A : Type} (cmp : A -> A -> Z) (l : list A) : list A :=
  fold_right (insertBy cmp) [] l.

(** A date parser to instantiate [new Date(s).getTime()] with in examples:
    it reads a string of decimal digits as epoch milliseconds and answers
    NaN on anything else. *)
Fixpoint digitsTime (acc : Z) (s : string) : option Z :=
  match s with
  | EmptyString => Some acc
  | String c s' =>
      let n := nat_of_ascii c in
      if ((48 <=? n) && (n <=? 57))%nat
      then digitsTime (10 * acc + Z.of_nat (n - 48)) s'
      else None
  end.

Definition simpleTime (s : string) : option Z :=
  if is_empty s then None else digitsTime 0 s.

Section View.

(** [new Date(s).getTime()]: epoch milliseconds, [None] standing for NaN. *)
Variable getTime : string -> option Z.

(** ** View projector *)

Definition foldersOf (b : Browser) : list DriveFolder.t :=
  match state b with
  | Some st => folders st
  | None => []
  end.

Definition filesOf (b : Browser) : list DriveFile.t :=
  match state b with
  | Some st => files st
  | None => []
  end.

Definition visibleFolders (b : Browser) : list DriveFolder.t :=
  match section b with
  | MyDrive =>
      filter (fun f => negb (DriveFolder.trashed f) &&
                       same_ref (DriveFolder.parentId f) (currentFolderId b))
             (foldersOf b)
  | Trash => filter (fun f => DriveFolder.trashed f) (foldersOf b)
  | _ => []
  end.

(** the comparator handed to [sort] in [visibleFiles] *)
Definition compareFiles (by_ : SortBy) (dir : SortDir) (a b : DriveFile.t) : Z :=
  match by_ with
  | SortName =>
      let aStr := toLowerCase (DriveFile.name a) in
      let bStr := toLowerCase (DriveFile.name b) in
      if String.ltb aStr bStr then match dir with Asc => -1 | Desc => 1 end
      else if String.ltb bStr aStr then match dir with Asc => 1 | Desc => -1 end
      else 0
  | SortModifiedAt =>
      let aDate := getTime (DriveFile.modifiedAt a) in
      let bDate := getTime (DriveFile.modifiedAt b) in
      if num_lt aDate bDate then match dir with Asc => -1 | Desc => 1 end
      else if num_lt bDate aDate then match dir with Asc => 1 | Desc => -1 end
      else 0
  end.

Definition sectionFiles (b : Browser) : list DriveFile.t :=
  match section b with
  | MyDrive =>
      filter (fun f => negb (DriveFile.trashed f) &&
                       same_ref (DriveFile.parentId f) (currentFolderId b))
             (filesOf b)
  | Starred =>
      filter (fun f => DriveFile.starred f && negb (DriveFile.trashed f))
             (filesOf b)
  | Shared =>
      filter (fun f => DriveFile.isShared f && negb (DriveFile.trashed f))
             (filesOf b)
  | Trash => filter (fun f => DriveFile.trashed f) (filesOf b)
  end.

Definition searchFiles (b : Browser) (items : list DriveFile.t) : list DriveFile.t :=
  if negb (is_empty (trim (search b))) then
    let q := toLowerCase (trim (search b)) in
    filter (fun item => str_includes (toLowerCase (DriveFile.name item)) q) items
  else items.

Definition visibleFiles (b : Browser) : list DriveFile.t :=
  sortWith (compareFiles (sortBy b) (sortDir b))
           (searchFiles b (sectionFiles b)).

(** What the grid and the table render: the cards (rows) of
    [visibleFolders], then those of [visibleFiles]. *)
Definition renderedItems (b : Browser) : list (DriveFolder.t + DriveFile.t) :=
  map inl (visibleFolders b) ++ map inr (visibleFiles b).

Definition hasTrash (b : Browser) : bool :=
  existsb DriveFolder.trashed (foldersOf b) ||
  existsb DriveFile.trashed (filesOf b).

(** ** Selection *)

Definition toggleSelect (id : Z) (b : Browser) : Browser :=
  setSelectedIds
    (if includes (selectedIds b) id
     then filter (fun x => negb (x =? id)) (selectedIds b)
     else selectedIds b ++ [id]) b.

Definition selectAll (b : Browser) : Browser :=
  setSelectedIds (map DriveFolder.id (visibleFolders b) ++
                  map DriveFile.id (visibleFiles b)) b.

Definition clearSelection (b : Browser) : Browser := setSelectedIds [] b.

End View.

(** ** Star and share toggles (the local, optimistic part) *)

Definition withStarred (v : bool) (f : DriveFile.t) : DriveFile.t :=
  DriveFile.mk (DriveFile.id f) (DriveFile.name f) (DriveFile.type f)
    (DriveFile.ownerId f) (DriveFile.parentId f) (DriveFile.sizeBytes f)
    v (DriveFile.isShared f) (DriveFile.trashed f)
    (DriveFile.originalParentId f) (DriveFile.modifiedAt f).

Definition withIsShared (v : bool) (f : DriveFile.t) : DriveFile.t :=
  DriveFile.mk (DriveFile.id f) (DriveFile.name f) (DriveFile.type f)
    (DriveFile.ownerId f) (DriveFile.parentId f) (DriveFile.sizeBytes f)
    (DriveFile.starred f) v (DriveFile.trashed f)
    (DriveFile.originalParentId f) (DriveFile.modifiedAt f).

Definition handleStarToggle (fileId : Z) (b : Browser) : Browser :=
  match find (fun f => DriveFile.id f =? fileId) (filesOf b) with
  | None => b
  | Some file =>
      let next := negb (DriveFile.starred file) in
      setState
        (match state b with
         | Some prev =>
             Some (withFiles
                     (map (fun f => if DriveFile.id f =? fileId
                                    then withStarred next f else f)
                          (files prev)) prev)
         | None => None
         end) b
  end.

Definition handleShareToggle (fileId : Z) (b : Browser) : Browser :=
  match find (fun f => DriveFile.id f =? fileId) (filesOf b) with
  | None => b
  | Some file =>
      let next := negb (DriveFile.isShared file) in
      setState
        (match state b with
         | Some prev =>
             Some (withFiles
                     (map (fun f => if DriveFile.id f =? fileId
                                    then withIsShared next f else f)
                          (files prev)) prev)
         | None => None
         end) b
  end.

(** ** Trash and restore

    Both handlers first compute two id sets, [folderIds] and [fileIds], with
    a recursive closure [collectChildren] over the captured [state], then
    patch every folder and file whose id is in its set.  The closure of
    [handleMoveToTrashSelected] looks at items that are not trashed, the one
    of [handleRestoreSelected] at items that are; [want] is the value of
    [trashed] the closure looks for, the rest of the two bodies is the
    same. *)

Definition folderChildOf (want : bool) (folderId : Z) (f : DriveFolder.t) : bool :=
  Bool.eqb (DriveFolder.trashed f) want && is_id (DriveFolder.parentId f) folderId.

Definition fileChildOf (want : bool) (folderId : Z) (f : DriveFile.t) : bool :=
  Bool.eqb (DriveFile.trashed f) want && is_id (DriveFile.parentId f) folderId.

(** the second loop of [collectChildren]: [state.files.forEach(...)] *)
Definition collectFiles (want : bool) (st : DriveState) (folderId : Z)
  (fileIds : IdSet) : IdSet :=
  fold_left (fun acc file =>
               if fileChildOf want folderId file
               then add acc (DriveFile.id file) else acc)
            (files st) fileIds.

(** the callback of [state.folders.forEach(...)] in [collectChildren];
    [recur] is the recursive call *)
Definition visitChild (want : bool)
  (recur : Z -> IdSet * IdSet -> option (IdSet * IdSet))
  (folderId : Z) (f : DriveFolder.t) (sets : IdSet * IdSet)
  : option (IdSet * IdSet) :=
  let '(folderIds, fileIds) := sets in
  if folderChildOf want folderId f then
    if has folderIds (DriveFolder.id f) then Some (folderIds, fileIds)
    else recur (DriveFolder.id f) (add folderIds (DriveFolder.id f), fileIds)
  else Some (folderIds, fileIds).

Fixpoint collectChildren (want : bool) (st : DriveState) (fuel : nat)
  (folderId : Z) (sets : IdSet * IdSet) : option (IdSet * IdSet) :=
  match fuel with
  | O => None
  | S fuel' =>
      match
        forEachM (visitChild want (collectChildren want st fuel') folderId)
                 (folders st) sets
      with
      | None => None
      | Some (folderIds, fileIds) =>
          Some (folderIds, collectFiles want st folderId fileIds)
      end
  end.

(** fuel that is always enough for a walk over [st] *)
Definition walkFuel (st : DriveState) : nat := S (List.length (folders st)).

(** [{ ...f, trashed: true, originalParentId: f.originalParentId ?? f.parentId }] *)
Definition trashFolder (f : DriveFolder.t) : DriveFolder.t :=
  DriveFolder.mk (DriveFolder.id f) (DriveFolder.name f) (DriveFolder.parentId f)
    true (nullish (DriveFolder.originalParentId f) (DriveFolder.parentId f)).

Definition trashFile (f : DriveFile.t) : DriveFile.t :=
  DriveFile.mk (DriveFile.id f) (DriveFile.name f) (DriveFile.type f)
    (DriveFile.ownerId f) (DriveFile.parentId f) (DriveFile.sizeBytes f)
    (DriveFile.starred f) (DriveFile.isShared f) true
    (nullish (DriveFile.originalParentId f) (DriveFile.parentId f))
    (DriveFile.modifiedAt f).

(** the two sets of [handleMoveToTrashSelected] *)
Definition trashSets (st : DriveState) (selected : list Z) : option (IdSet * IdSet) :=
  let folderIds :=
    fold_left (fun acc f =>
                 if negb (DriveFolder.trashed f) && includes selected (DriveFolder.id f)
                 then add acc (DriveFolder.id f) else acc)
              (folders st) [] in
  let fileIds :=
    fold_left (fun acc f =>
                 if negb (DriveFile.trashed f) && includes selected (DriveFile.id f)
                 then add acc (DriveFile.id f) else acc)
              (files st) [] in
  forEachM (collectChildren false st (walkFuel st)) folderIds (folderIds, fileIds).

Definition applyTrash (sets : IdSet * IdSet) (prev : DriveState) : DriveState :=
  let '(folderIds, fileIds) := sets in
  mkState (rootFolderId prev)
    (map (fun f => if has folderIds (DriveFolder.id f) then trashFolder f else f)
         (folders prev))
    (map (fun f => if has fileIds (DriveFile.id f) then trashFile f else f)
         (files prev)).

(** [confirm] is the answer of [window.confirm].  The handler runs to its
    end without yielding, so the [prev] of its [setState] is the [state] it
    read.  The remote updates are sent without waiting and never feed back
    into the local state. *)
Definition handleMoveToTrashSelected (confirm : bool) (b : Browser) : option Browser :=
  match state b with
  | None => Some b
  | Some st =>
      if (List.length (selectedIds b) =? 0)%nat then Some b
      else if negb confirm then Some b
      else
        match trashSets st (selectedIds b) with
        | None => None
        | Some (folderIds, fileIds) =>
            let b1 := setState (Some (applyTrash (folderIds, fileIds) st)) b in
            let b2 := setSelectedIds [] b1 in
            Some (if truthy (currentFolderId b) &&
                     match currentFolderId b with
                     | Some c => has folderIds c
                     | None => false
                     end
                  then setSection MyDrive
                         (setCurrentFolderId (Some (rootFolderId st)) b2)
                  else b2)
        end
  end.

(** the callback of the first [state.folders.forEach(...)] of
    [handleRestoreSelected] *)
Definition restoreRoot (st : DriveState) (selected : list Z)
  (f : DriveFolder.t) (sets : IdSet * IdSet) : option (IdSet * IdSet) :=
  let '(folderIds, fileIds) := sets in
  if DriveFolder.trashed f && includes selected (DriveFolder.id f)
  then collectChildren true st (walkFuel st) (DriveFolder.id f)
         (add folderIds (DriveFolder.id f), fileIds)
  else Some (folderIds, fileIds).

(** the two sets of [handleRestoreSelected] *)
Definition restoreSets (st : DriveState) (selected : list Z) : option (IdSet * IdSet) :=
  match forEachM (restoreRoot st selected) (folders st) ([], []) with
  | None => None
  | Some (folderIds, fileIds) =>
      Some (folderIds,
            fold_left (fun acc file =>
                         if DriveFile.trashed file && includes selected (DriveFile.id file)
                         then add acc (DriveFile.id file) else acc)
                      (files st) fileIds)
  end.

(** [{ ...f, trashed: false, parentId: f.originalParentId ?? f.parentId ??
    rootFolderId, originalParentId: null }] *)
Definition restoreFolder (root : Z) (f : DriveFolder.t) : DriveFolder.t :=
  DriveFolder.mk (DriveFolder.id f) (DriveFolder.name f)
    (nullish (nullish (DriveFolder.originalParentId f) (DriveFolder.parentId f))
             (Some root))
    false None.

Definition restoreFile (root : Z) (f : DriveFile.t) : DriveFile.t :=
  DriveFile.mk (DriveFile.id f) (DriveFile.name f) (DriveFile.type f)
    (DriveFile.ownerId f)
    (nullish (nullish (DriveFile.originalParentId f) (DriveFile.parentId f))
             (Some root))
    (DriveFile.sizeBytes f) (DriveFile.starred f) (DriveFile.isShared f)
    false None (DriveFile.modifiedAt f).

Definition applyRestore (root : Z) (sets : IdSet * IdSet) (prev : DriveState)
  : DriveState :=
  let '(folderIds, fileIds) := sets in
  mkState (rootFolderId prev)
    (map (fun f => if has folderIds (DriveFolder.id f) then restoreFolder root f else f)
         (folders prev))
    (map (fun f => if has fileIds (DriveFile.id f) then restoreFile root f else f)
         (files prev)).

Definition handleRestoreSelected (b : Browser) : option Browser :=
  match state b with
  | None => Some b
  | Some st =>
      if (List.length (selectedIds b) =? 0)%nat then Some b
      else
        match restoreSets st (selectedIds b) with
        | None => None
        | Some sets =>
            Some (setSection MyDrive
                    (setSelectedIds []
                       (setState (Some (applyRestore (rootFolderId st) sets st)) b)))
        end
  end.

(** ** Permanent delete and empty trash *)

Definition markFiles (st : DriveState) (folderId : Z) (filesToDelete : IdSet) : IdSet :=
  fold_left (fun acc file =>
               if is_id (DriveFile.parentId file) folderId
               then add acc (DriveFile.id file) else acc)
            (files st) filesToDelete.

(** the callback of [state.folders.forEach(...)] in
    [markFolderAndChildren]; [recur] is the recursive call *)
Definition markChild
  (recur : Z -> IdSet * IdSet -> option (IdSet * IdSet))
  (folderId : Z) (f : DriveFolder.t) (sets : IdSet * IdSet)
  : option (IdSet * IdSet) :=
  if is_id (DriveFolder.parentId f) folderId
  then recur (DriveFolder.id f) sets
  else Some sets.

Fixpoint markFolderAndChildren (st : DriveState) (fuel : nat) (folderId : Z)
  (sets : IdSet * IdSet) : option (IdSet * IdSet) :=
  match fuel with
  | O => None
  | S fuel' =>
      let '(foldersToDelete, filesToDelete) := sets in
      if has foldersToDelete folderId then Some sets
      else
        match
          forEachM (markChild (markFolderAndChildren st fuel') folderId)
                   (folders st) (add foldersToDelete folderId, filesToDelete)
        with
        | None => None
        | Some (foldersToDelete', filesToDelete') =>
            Some (foldersToDelete', markFiles st folderId filesToDelete')
        end
  end.

(** the callback of the first [state.folders.forEach(...)] of
    [handlePermanentDeleteSelected] *)
Definition deleteRoot (st : DriveState) (selected : list Z)
  (f : DriveFolder.t) (sets : IdSet * IdSet) : option (IdSet * IdSet) :=
  if includes selected (DriveFolder.id f)
  then markFolderAndChildren st (walkFuel st) (DriveFolder.id f) sets
  else Some sets.

(** the two sets of [handlePermanentDeleteSelected] *)
Definition deleteSets (st : DriveState) (selected : list Z) : option (IdSet * IdSet) :=
  match forEachM (deleteRoot st selected) (folders st) ([], []) with
  | None => None
  | Some (foldersToDelete, filesToDelete) =>
      Some (foldersToDelete,
            fold_left (fun acc file =>
                         if includes selected (DriveFile.id file)
                         then add acc (DriveFile.id file) else acc)
                      (files st) filesToDelete)
  end.

Definition applyDelete (sets : IdSet * IdSet) (prev : DriveState) : DriveState :=
  let '(foldersToDelete, filesToDelete) := sets in
  mkState (rootFolderId prev)
    (filter (fun f => negb (has foldersToDelete (DriveFolder.id f))) (folders prev))
    (filter (fun f => negb (has filesToDelete (DriveFile.id f))) (files prev)).

Definition handlePermanentDeleteSelected (confirm : bool) (b : Browser) : option Browser :=
  match state b with
  | None => Some b
  | Some st =>
      if (List.length (selectedIds b) =? 0)%nat then Some b
      else if negb confirm then Some b
      else
        match deleteSets st (selectedIds b) with
        | None => None
        | Some sets =>
            Some (setSelectedIds [] (setState (Some (applyDelete sets st)) b))
        end
  end.

Definition handleEmptyTrash (confirm : bool) (b : Browser) : Browser :=
  match state b with
  | None => b
  | Some st =>
      if negb (hasTrash b) then b
      else if negb confirm then b
      else
        setSelectedIds []
          (setState
             (Some (mkState (rootFolderId st)
                      (filter (fun f => negb (DriveFolder.trashed f)) (folders st))
                      (filter (fun f => negb (DriveFile.trashed f)) (files st))))
             b)
  end.

(** ** Folder upload

    [handleFolderInputChange] talks to the server while it runs: every
    missing folder of a relative path is created with [apiCreateFolder], the
    file is sent with [apiUploadFile], and the answers are appended to the
    local state.  The server is a state machine [Gateway] given by its two
    calls; a call answers [None] when its promise is rejected. *)

(** [section === "my-drive" ? currentFolderId ?? state.rootFolderId :
    state.rootFolderId] *)
Definition uploadBase (b : Browser) (st : DriveState) : Z :=
  match section b with
  | MyDrive =>
      match currentFolderId b with
      | Some c => c
      | None => rootFolderId st
      end
  | _ => rootFolderId st
  end.

Module InputFile.
Record t := mk {
  name : string;
  type : string;
  webkitRelativePath : string;
  content : string
}.
End InputFile.

(** the file as it is sent: [new File([file], fileName, { type: file.type })] *)
Definition renamed (fileName : string) (file : InputFile.t) : InputFile.t :=
  InputFile.mk fileName (InputFile.type file) "" (InputFile.content file).

(** the requests sent, in order *)
Inductive ApiCall :=
| CreateFolder (name : string) (parentId : option Z)
| UploadFile (file : InputFile.t) (folderId : option Z).

Section Upload.

Variable Gateway : Type.
Variable apiCreateFolder :
  Gateway -> string -> option Z -> Gateway * option DriveFolder.t.
Variable apiUploadFile :
  Gateway -> InputFile.t -> option Z -> Gateway * option DriveFile.t.

(** What one run of the handler reads and writes: the server, the hooks,
    the [pathToFolderId] map (a [Map<string, number>], as its entries in
    insertion order) and the log of the requests. *)
Record UploadState := mkUpload {
  gateway : Gateway;
  browser : Browser;
  pathToFolderId : list (string * Z);
  calls : list ApiCall
}.

(** A computation that threads [UploadState] and may throw ([None]); the
    state reached when it throws is kept. *)
Definition Task (A : Type) : Type := UploadState -> UploadState * option A.

Definition ret {A : Type} (a : A) : Task A := fun s => (s, Some a).

Definition bind {A B : Type} (m : Task A) (k : A -> Task B) : Task B :=
  fun s =>
    match m s with
    | (s', Some a) => k a s'
    | (s', None) => (s', None)
    end.

Notation "x <- m ;; k" := (bind m (fun x => k))
  (at level 61, m at next level, right associativity).

Definition memoGet (path : string) : Task (option Z) :=
  fun s =>
    (s, Some (option_map snd
                (find (fun e => String.eqb (fst e) path) (pathToFolderId s)))).

Definition memoSet (path : string) (id : Z) : Task unit :=
  fun s =>
    (mkUpload (gateway s) (browser s)
       (if existsb (fun e => String.eqb (fst e) path) (pathToFolderId s)
        then map (fun e => if String.eqb (fst e) path then (path, id) else e)
                 (pathToFolderId s)
        else pathToFolderId s ++ [(path, id)])
       (calls s),
     Some tt).

Definition updateBrowser (f : Browser -> Browser) : Task unit :=
  fun s => (mkUpload (gateway s) (f (browser s)) (pathToFolderId s) (calls s), Some tt).

Definition callCreateFolder (name : string) (parentId : Z) : Task DriveFolder.t :=
  fun s =>
    let '(g, r) := apiCreateFolder (gateway s) name (Some parentId) in
    (mkUpload g (browser s) (pathToFolderId s)
       (calls s ++ [CreateFolder name (Some parentId)]), r).

Definition callUploadFile (file : InputFile.t) (parentId : Z) : Task DriveFile.t :=
  fun s =>
    let '(g, r) := apiUploadFile (gateway s) file (Some parentId) in
    (mkUpload g (browser s) (pathToFolderId s)
       (calls s ++ [UploadFile file (Some parentId)]), r).

(** [setState(prev => prev ? { ...prev, folders: [...prev.folders, created] } : prev)] *)
Definition appendFolder (created : DriveFolder.t) (b : Browser) : Browser :=
  setState (option_map (fun prev => withFolders (folders prev ++ [created]) prev)
                       (state b)) b.

Definition appendFile (created : DriveFile.t) (b : Browser) : Browser :=
  setState (option_map (fun prev => withFiles (files prev ++ [created]) prev)
                       (state b)) b.

(** the [for (const segment of segments)] loop of [ensureFolderPath] *)
Fixpoint ensureSegments (segments : list string) (currentPath : string)
  (parentId : Z) : Task Z :=
  match segments with
  | [] => ret parentId
  | segment :: rest =>
      let currentPath' :=
        if is_empty currentPath then segment
        else (currentPath ++ "/" ++ segment)%string in
      known <- memoGet currentPath' ;;
      match known with
      | Some id => ensureSegments rest currentPath' id
      | None =>
          created <- callCreateFolder segment parentId ;;
          _ <- updateBrowser (appendFolder created) ;;
          _ <- memoSet currentPath' (DriveFolder.id created) ;;
          ensureSegments rest currentPath' (DriveFolder.id created)
      end
  end.

Definition ensureFolderPath (baseFolderId : Z) (path : string) : Task Z :=
  known <- memoGet path ;;
  match known with
  | Some id => ret id
  | None => ensureSegments (pathSegments path) "" baseFolderId
  end.

(** the body of [for (const file of fileList)] *)
Definition uploadOne (baseFolderId : Z) (file : InputFile.t) : Task unit :=
  let relPath :=
    if is_empty (InputFile.webkitRelativePath file) then InputFile.name file
    else InputFile.webkitRelativePath file in
  let segments := pathSegments relPath in
  let fileName := last segments (InputFile.name file) in
  let folderPath := join (removelast segments) in
  parentId <- ensureFolderPath baseFolderId folderPath ;;
  created <- callUploadFile (renamed fileName file) parentId ;;
  updateBrowser (appendFile created).

Fixpoint uploadAll (baseFolderId : Z) (fileList : list InputFile.t) : Task unit :=
  match fileList with
  | [] => ret tt
  | file :: rest => _ <- uploadOne baseFolderId file ;; uploadAll baseFolderId rest
  end.

(** The handler.  It answers the server it leaves behind, the hooks and the
    requests it sent.  An error stops the loop ([catch]); what was created
    before stays, and [busy] is reset either way ([finally]). *)
Definition handleFolderInputChange (fileList : list InputFile.t)
  (g : Gateway) (b : Browser) : Gateway * Browser * list ApiCall :=
  match fileList, state b with
  | [], _ | _, None => (g, b, [])
  | _, Some st =>
      let baseFolderId := uploadBase b st in
      let s0 := mkUpload g (setBusy true b) [(""%string, baseFolderId)] [] in
      match uploadAll baseFolderId fileList s0 with
      | (s1, Some _) =>
          (gateway s1, setBusy false (setNewMenuOpen false (browser s1)), calls s1)
      | (s1, None) => (gateway s1, setBusy false (browser s1), calls s1)
      end
  end.

(** [handleCreateFolder].  [prompt] is the answer of [window.prompt],
    [None] when the dialog is cancelled. *)
Definition handleCreateFolder (prompt : option string)
  (g : Gateway) (b : Browser) : Gateway * Browser * list ApiCall :=
  match state b, prompt with
  | None, _ | _, None => (g, b, [])
  | Some st, Some name =>
      if is_empty name then (g, b, [])
      else
        let trimmed := trim name in
        if is_empty trimmed then (g, b, [])
        else
          let parentId := uploadBase b st in
          let '(s1, _) :=
            (created <- callCreateFolder trimmed parentId ;;
             _ <- updateBrowser (appendFolder created) ;;
             updateBrowser (setNewMenuOpen false))
              (mkUpload g b [] []) in
          (gateway s1, browser s1, calls s1)
  end.

(** the [for (const file of fileList)] loop of [handleFilesInputChange] *)
Fixpoint uploadEach (parentId : Z) (fileList : list InputFile.t) : Task unit :=
  match fileList with
  | [] => ret tt
  | file :: rest =>
      created <- callUploadFile file parentId ;;
      _ <- updateBrowser (appendFile created) ;;
      uploadEach parentId rest
  end.

(** [handleFilesInputChange] *)
Definition handleFilesInputChange (fileList : list InputFile.t)
  (g : Gateway) (b : Browser) : Gateway * Browser * list ApiCall :=
  match fileList, state b with
  | [], _ | _, None => (g, b, [])
  | _, Some st =>
      let parentId := uploadBase b st in
      let '(s1, _) :=
        (_ <- uploadEach parentId fileList ;;
         updateBrowser (setNewMenuOpen false))
          (mkUpload g (setBusy true b) [] []) in
      (gateway s1, setBusy false (browser s1), calls s1)
  end.

End Upload.

(** ** Vocabulary of the properties *)

(** the child test of [markFolderAndChildren], which ignores [trashed] *)
Definition anyFolderChildOf (folderId : Z) (f : DriveFolder.t) : bool :=
  is_id (DriveFolder.parentId f) folderId.

Definition anyFileChildOf (folderId : Z) (f : DriveFile.t) : bool :=
  is_id (DriveFile.parentId f) folderId.

Section Walk.

Variable st : DriveState.
Variable childFolder : Z -> DriveFolder.t -> bool.
Variable childFile : Z -> DriveFile.t -> bool.

(** [descends p x]: folder id [x] is reached from [p] by one or more child
    steps. *)
Inductive descends (p : Z) : Z -> Prop :=
| descends_child f :
    In f (folders st) -> childFolder p f = true -> descends p (DriveFolder.id f)
| descends_step f q :
    descends p q -> In f (folders st) -> childFolder q f = true ->
    descends p (DriveFolder.id f).

(** every child of [q] is in the sets *)
Definition closed_at (q : Z) (sets : IdSet * IdSet) : Prop :=
  (forall f, In f (folders st) -> childFolder q f = true ->
             In (DriveFolder.id f) (fst sets)) /\
  (forall f, In f (files st) -> childFile q f = true ->
             In (DriveFile.id f) (snd sets)).

(** a file id of [B'] was in [B] or belongs to a child file of [p] or of a
    descendant of [p] *)
Definition files_from (p : Z) (B B' : IdSet) : Prop :=
  forall y, In y B' ->
    In y B \/
    exists f q, In f (files st) /\ DriveFile.id f = y /\ childFile q f = true /\
                (q = p \/ descends p q).

(** what a walk started at [p] with the sets [s] leaves in [s']: the sets
    only grow, a new folder id is [p] or a descendant of [p], a new file id
    comes from a child file met on the way, and every folder id that is new
    has all its children in the sets *)
Definition walk_post (p : Z) (s s' : IdSet * IdSet) : Prop :=
  incl (fst s) (fst s') /\ incl (snd s) (snd s') /\
  (forall x, In x (fst s') -> In x (fst s) \/ x = p \/ descends p x) /\
  files_from p (snd s) (snd s') /\
  (forall q, In q (fst s') -> ~ In q (fst s) -> closed_at q s').

End Walk.

(** the number of folder ids of [st] not yet in [s]: what bounds the depth
    of a walk *)
Definition remaining (st : DriveState) (s : IdSet) : nat :=
  List.length (filter (fun x => negb (has s x))
                      (nodup Z.eq_dec (map DriveFolder.id (folders st)))).

(** *** Cascades

    The set of folders an operation reaches from a selection, as the spec
    words it: the selected folders that are [eligible], and recursively the
    eligible folders whose [parentId] is a folder already reached.  Trash
    takes the folders that are not trashed, restore those that are, permanent
    delete takes all. *)

Inductive cascade (eligible : DriveFolder.t -> bool) (st : DriveState)
  (selected : list Z) : Z -> Prop :=
| cascade_selected f :
    In f (folders st) -> eligible f = true ->
    In (DriveFolder.id f) selected ->
    cascade eligible st selected (DriveFolder.id f)
| cascade_child f p :
    In f (folders st) -> eligible f = true ->
    DriveFolder.parentId f = Some p ->
    cascade eligible st selected p ->
    cascade eligible st selected (DriveFolder.id f).

(** the files an operation reaches: the selected eligible files and the
    eligible files whose [parentId] is a folder reached *)
Definition cascadeFile (eligible : DriveFolder.t -> bool)
  (eligibleFile : DriveFile.t -> bool) (st : DriveState) (selected : list Z)
  (y : Z) : Prop :=
  exists f, In f (files st) /\ DriveFile.id f = y /\ eligibleFile f = true /\
    (In (DriveFile.id f) selected \/
     exists p, DriveFile.parentId f = Some p /\ cascade eligible st selected p).

Definition liveFolder (f : DriveFolder.t) : bool := negb (DriveFolder.trashed f).
Definition liveFile (f : DriveFile.t) : bool := negb (DriveFile.trashed f).
Definition anyFolder (f : DriveFolder.t) : bool := true.
Definition anyFile (f : DriveFile.t) : bool := true.

Definition trashCascade := cascade liveFolder.
Definition trashCascadeFile := cascadeFile liveFolder liveFile.
Definition restoreCascade := cascade DriveFolder.trashed.
Definition restoreCascadeFile := cascadeFile DriveFolder.trashed DriveFile.trashed.
Definition deleteCascade := cascade anyFolder.
Definition deleteCascadeFile := cascadeFile anyFolder anyFile.

(** the sets hold nothing outside the cascade *)
Definition sound (eligible : DriveFolder.t -> bool)
  (eligibleFile : DriveFile.t -> bool) (st : DriveState) (selected : list Z)
  (s : IdSet * IdSet) : Prop :=
  (forall x, In x (fst s) -> cascade eligible st selected x) /\
  (forall y, In y (snd s) -> cascadeFile eligible eligibleFile st selected y).

(** every folder id of the sets has all its children in the sets, but for
    those of [todo], whose walk is still to come *)
Definition pending (st : DriveState) (childFolder : Z -> DriveFolder.t -> bool)
  (childFile : Z -> DriveFile.t -> bool) (todo : list Z) (s : IdSet * IdSet)
  : Prop :=
  forall q, In q (fst s) -> In q todo \/ closed_at st childFolder childFile q s.

(** *** What trash does to one item *)

(** [f] is in the closure that [handleMoveToTrashSelected] trashes: it is
    not trashed and its id is in the cascade of the selection *)
Definition inTrashClosure (st : DriveState) (selected : list Z)
  (f : DriveFolder.t) : Prop :=
  DriveFolder.trashed f = false /\ trashCascade st selected (DriveFolder.id f).

Definition inTrashClosureFile (st : DriveState) (selected : list Z)
  (f : DriveFile.t) : Prop :=
  DriveFile.trashed f = false /\ trashCascadeFile st selected (DriveFile.id f).

(** [f'] is [f] marked as trashed: [originalParentId] takes the current
    [parentId] only when it was null, everything else is kept *)
Definition folderTrashedFrom (f f' : DriveFolder.t) : Prop :=
  DriveFolder.id f' = DriveFolder.id f /\
  DriveFolder.name f' = DriveFolder.name f /\
  DriveFolder.parentId f' = DriveFolder.parentId f /\
  DriveFolder.trashed f' = true /\
  DriveFolder.originalParentId f' =
    match DriveFolder.originalParentId f with
    | Some o => Some o
    | None => DriveFolder.parentId f
    end.

Definition fileTrashedFrom (f f' : DriveFile.t) : Prop :=
  DriveFile.id f' = DriveFile.id f /\
  DriveFile.name f' = DriveFile.name f /\
  DriveFile.type f' = DriveFile.type f /\
  DriveFile.ownerId f' = DriveFile.ownerId f /\
  DriveFile.parentId f' = DriveFile.parentId f /\
  DriveFile.sizeBytes f' = DriveFile.sizeBytes f /\
  DriveFile.starred f' = DriveFile.starred f /\
  DriveFile.isShared f' = DriveFile.isShared f /\
  DriveFile.modifiedAt f' = DriveFile.modifiedAt f /\
  DriveFile.trashed f' = true /\
  DriveFile.originalParentId f' =
    match DriveFile.originalParentId f with
    | Some o => Some o
    | None => DriveFile.parentId f
    end.

(** *** A small drive to run the handlers on

    [My Drive] holds [Docs], [Docs] holds [Notes] and [a.txt], [Notes] holds
    [B.txt]. *)

Definition folderRoot : DriveFolder.t := DriveFolder.mk 1 "My Drive" None false None.
Definition folderDocs : DriveFolder.t := DriveFolder.mk 2 "Docs" (Some 1) false None.
Definition folderNotes : DriveFolder.t := DriveFolder.mk 3 "Notes" (Some 2) false None.

Definition fileA : DriveFile.t :=
  DriveFile.mk 10 "a.txt" "txt" 1 (Some 2) 5 false false false None "100".
Definition fileB : DriveFile.t :=
  DriveFile.mk 11 "B.txt" "txt" 1 (Some 3) 7 true false false None "200".

Definition sampleState : DriveState :=
  mkState 1 [folderRoot; folderDocs; folderNotes] [fileA; fileB].

Definition browse (st : DriveState) (selected : list Z) : Browser :=
  mkBrowser (Some st) MyDrive (Some (rootFolderId st)) SortName Asc "" selected
            false false.

(** the small drive after [Docs] was moved to trash *)
Definition trashedDocsState : DriveState :=
  mkState 1 [folderRoot; trashFolder folderDocs; trashFolder folderNotes]
            [trashFile fileA; trashFile fileB].

(** *** Empty trash against permanent delete *)

(** the ids [handleEmptyTrash] sends to the server: those of the trashed
    folders and of the trashed files *)
Definition trashedIds (st : DriveState) : list Z :=
  map DriveFolder.id (filter DriveFolder.trashed (folders st)) ++
  map DriveFile.id (filter DriveFile.trashed (files st)).

(** empty trash leaves the local state that permanent delete leaves when
    every trashed id is selected *)
Definition emptyTrashAsDelete (b : Browser) : Prop :=
  forall st, state b = Some st ->
    option_map state
      (handlePermanentDeleteSelected true (setSelectedIds (trashedIds st) b)) =
    Some (state (handleEmptyTrash true b)).

(** the trash is sealed: the id of a trashed item is not also the id of an
    item that is not trashed, and every folder or file whose parent is a
    trashed folder is trashed *)
Definition trashSealed (st : DriveState) : Prop :=
  (forall f, In f (folders st) -> In (DriveFolder.id f) (trashedIds st) ->
             DriveFolder.trashed f = true) /\
  (forall f, In f (files st) -> In (DriveFile.id f) (trashedIds st) ->
             DriveFile.trashed f = true) /\
  (forall f g, In f (folders st) -> In g (folders st) ->
               DriveFolder.trashed g = true ->
               DriveFolder.parentId f = Some (DriveFolder.id g) ->
               DriveFolder.trashed f = true) /\
  (forall f g, In f (files st) -> In g (folders st) ->
               DriveFolder.trashed g = true ->
               DriveFile.parentId f = Some (DriveFolder.id g) ->
               DriveFile.trashed f = true).

(** the small drive after [Docs] was moved to trash and [Notes] alone was
    restored: [Notes] and [B.txt] are back, under a [Docs] that is still in
    the trash *)
Definition strandedState : DriveState :=
  mkState 1 [folderRoot; trashFolder folderDocs; folderNotes]
            [trashFile fileA; fileB].

(** *** The live tree under sequences of trash and restore *)

(** a parent reference is live: it is null (the root) or the id of a folder
    that is not trashed *)
Definition liveParent (st : DriveState) (p : option Z) : Prop :=
  match p with
  | None => True
  | Some q =>
      exists g, In g (folders st) /\ DriveFolder.id g = q /\
                DriveFolder.trashed g = false
  end.

(** no item that is not trashed sits under a trashed folder *)
Definition noTrashedGap (st : DriveState) : Prop :=
  (forall f, In f (folders st) -> DriveFolder.trashed f = false ->
             liveParent st (DriveFolder.parentId f)) /\
  (forall f, In f (files st) -> DriveFile.trashed f = false ->
             liveParent st (DriveFile.parentId f)).

(** the folder id is linked to the root through folders that are not
    trashed *)
Inductive rooted (st : DriveState) : Z -> Prop :=
| rooted_root : rooted st (rootFolderId st)
| rooted_child f p :
    In f (folders st) -> DriveFolder.trashed f = false ->
    DriveFolder.parentId f = Some p -> rooted st p ->
    rooted st (DriveFolder.id f).

(** the invariants of the data model *)
Definition treeInvariants (st : DriveState) : Prop :=
  NoDup (map DriveFolder.id (folders st)) /\
  NoDup (map DriveFile.id (files st)) /\
  (exists r, In r (folders st) /\ DriveFolder.id r = rootFolderId st /\
             DriveFolder.parentId r = None /\ DriveFolder.trashed r = false) /\
  (forall f, In f (folders st) -> DriveFolder.trashed f = false ->
             rooted st (DriveFolder.id f)) /\
  noTrashedGap st /\
  (forall f, In f (folders st) -> DriveFolder.originalParentId f <> None ->
             DriveFolder.trashed f = true) /\
  (forall f, In f (files st) -> DriveFile.originalParentId f <> None ->
             DriveFile.trashed f = true).

Inductive TrashOp :=
| MoveToTrash (selected : list Z)
| Restore (selected : list Z).

(** select, then run the handler *)
Definition runOp (op : TrashOp) (b : Browser) : option Browser :=
  match op with
  | MoveToTrash selected => handleMoveToTrashSelected true (setSelectedIds selected b)
  | Restore selected => handleRestoreSelected (setSelectedIds selected b)
  end.

Fixpoint runOps (ops : list TrashOp) (b : Browser) : option Browser :=
  match ops with
  | [] => Some b
  | op :: rest =>
      match runOp op b with
      | Some b1 => runOps rest b1
      | None => None
      end
  end.

(** whatever the sequence of operations, started from a state with the
    invariants, no live item ends under a trashed folder *)
Definition gapFreeRuns (b : Browser) : Prop :=
  forall st ops b' st',
    state b = Some st -> treeInvariants st ->
    runOps ops b = Some b' -> state b' = Some st' ->
    noTrashedGap st'.

(** where a restored item lands: under the root (null), under a folder
    that is not trashed, or under a folder the same restore brings back *)
Definition landing (st : DriveState) (selected : list Z) (p : option Z) : Prop :=
  match p with
  | None => True
  | Some q =>
      exists g, In g (folders st) /\ DriveFolder.id g = q /\
                (DriveFolder.trashed g = false \/ restoreCascade st selected q)
  end.

Definition restoreLandsLive (st : DriveState) (selected : list Z) : Prop :=
  (forall f, In f (folders st) -> restoreCascade st selected (DriveFolder.id f) ->
     landing st selected (DriveFolder.parentId (restoreFolder (rootFolderId st) f))) /\
  (forall f, In f (files st) -> restoreCascadeFile st selected (DriveFile.id f) ->
     landing st selected (DriveFile.parentId (restoreFile (rootFolderId st) f))).

Definition allowedOp (st : DriveState) (op : TrashOp) : Prop :=
  match op with
  | MoveToTrash _ => True
  | Restore selected => restoreLandsLive st selected
  end.

(** every restore of the run lands its items on live folders *)
Fixpoint allowedRun (ops : list TrashOp) (b : Browser) : Prop :=
  match ops with
  | [] => True
  | op :: rest =>
      (forall st, state b = Some st -> allowedOp st op) /\
      (forall b1, runOp op b = Some b1 -> allowedRun rest b1)
  end.

(** *** Trash then restore *)

(** [x] is [F] or a folder below [F], whatever is trashed *)
Definition subtree (st : DriveState) (F x : Z) : Prop :=
  x = F \/ descends st anyFolderChildOf F x.

(** [f2] is [f] back where it was: same [parentId], not trashed, no
    [originalParentId] *)
Definition folderBackInPlace (f f2 : DriveFolder.t) : Prop :=
  DriveFolder.id f2 = DriveFolder.id f /\
  DriveFolder.name f2 = DriveFolder.name f /\
  DriveFolder.parentId f2 = DriveFolder.parentId f /\
  DriveFolder.trashed f2 = false /\
  DriveFolder.originalParentId f2 = None.

Definition fileBackInPlace (f f2 : DriveFile.t) : Prop :=
  DriveFile.id f2 = DriveFile.id f /\
  DriveFile.name f2 = DriveFile.name f /\
  DriveFile.parentId f2 = DriveFile.parentId f /\
  DriveFile.trashed f2 = false /\
  DriveFile.originalParentId f2 = None.

(** Selecting [F], moving to trash, selecting [F] again and restoring: both
    handlers end, and every folder and file that one of them patched is back
    in place. *)
Definition roundTrips (b : Browser) (st : DriveState) (F : Z) : Prop :=
  exists b1 st1 b2 st2,
    handleMoveToTrashSelected true (setSelectedIds [F] b) = Some b1 /\
    state b1 = Some st1 /\
    handleRestoreSelected (setSelectedIds [F] b1) = Some b2 /\
    state b2 = Some st2 /\
    Forall2 (fun f f2 =>
               trashCascade st [F] (DriveFolder.id f) \/
               restoreCascade st1 [F] (DriveFolder.id f) ->
               folderBackInPlace f f2)
            (folders st) (folders st2) /\
    Forall2 (fun f f2 =>
               trashCascadeFile st [F] (DriveFile.id f) \/
               restoreCascadeFile st1 [F] (DriveFile.id f) ->
               fileBackInPlace f f2)
            (files st) (files st2).

(** the precondition the spec gives: no trashed item of the subtree of [F]
    carries an [originalParentId] *)
Definition trashedCarryNoOrigin (st : DriveState) (F : Z) : Prop :=
  (forall f, In f (folders st) -> subtree st F (DriveFolder.id f) ->
             DriveFolder.trashed f = true -> DriveFolder.originalParentId f = None) /\
  (forall f p, In f (files st) -> DriveFile.parentId f = Some p -> subtree st F p ->
               DriveFile.trashed f = true -> DriveFile.originalParentId f = None).

Definition roundTripClaim (b : Browser) : Prop :=
  forall st F,
    state b = Some st ->
    (exists f, In f (folders st) /\ DriveFolder.id f = F) ->
    trashedCarryNoOrigin st F ->
    roundTrips b st F.

(** *** Toggles and [modifiedAt] *)

(** [f'] is [f] with [starred] set to [next] and nothing else changed *)
Definition starFlipped (next : bool) (f f' : DriveFile.t) : Prop :=
  DriveFile.id f' = DriveFile.id f /\
  DriveFile.name f' = DriveFile.name f /\
  DriveFile.type f' = DriveFile.type f /\
  DriveFile.ownerId f' = DriveFile.ownerId f /\
  DriveFile.parentId f' = DriveFile.parentId f /\
  DriveFile.sizeBytes f' = DriveFile.sizeBytes f /\
  DriveFile.starred f' = next /\
  DriveFile.isShared f' = DriveFile.isShared f /\
  DriveFile.trashed f' = DriveFile.trashed f /\
  DriveFile.originalParentId f' = DriveFile.originalParentId f /\
  DriveFile.modifiedAt f' = DriveFile.modifiedAt f.

Definition shareFlipped (next : bool) (f f' : DriveFile.t) : Prop :=
  DriveFile.id f' = DriveFile.id f /\
  DriveFile.name f' = DriveFile.name f /\
  DriveFile.type f' = DriveFile.type f /\
  DriveFile.ownerId f' = DriveFile.ownerId f /\
  DriveFile.parentId f' = DriveFile.parentId f /\
  DriveFile.sizeBytes f' = DriveFile.sizeBytes f /\
  DriveFile.starred f' = DriveFile.starred f /\
  DriveFile.isShared f' = next /\
  DriveFile.trashed f' = DriveFile.trashed f /\
  DriveFile.originalParentId f' = DriveFile.originalParentId f /\
  DriveFile.modifiedAt f' = DriveFile.modifiedAt f.

(** the toggle leaves the file it flips with a [modifiedAt] other than the
    one it had *)
Definition toggleRefreshesModifiedAt (toggle : Z -> Browser -> Browser)
  (b : Browser) : Prop :=
  forall fileId f f',
    find (fun x => DriveFile.id x =? fileId) (filesOf b) = Some f ->
    find (fun x => DriveFile.id x =? fileId) (filesOf (toggle fileId b)) = Some f' ->
    DriveFile.modifiedAt f' <> DriveFile.modifiedAt f.

(** *** The order of the view *)

(** [a] may come before [b] when folders are ordered by the sort setting:
    by name without case; folders have no [modifiedAt], so that key orders
    nothing *)
Definition folderOrder (by_ : SortBy) (dir : SortDir) (a b : DriveFolder.t) : Prop :=
  match by_, dir with
  | SortName, Asc =>
      String.leb (toLowerCase (DriveFolder.name a)) (toLowerCase (DriveFolder.name b)) = true
  | SortName, Desc =>
      String.leb (toLowerCase (DriveFolder.name b)) (toLowerCase (DriveFolder.name a)) = true
  | SortModifiedAt, _ => True
  end.

(** [a] may come before [b] for the comparator of the files *)
Definition fileOrder (getTime : string -> option Z) (by_ : SortBy)
  (dir : SortDir) (a b : DriveFile.t) : Prop :=
  compareFiles getTime by_ dir a b <= 0.

(** both partitions of the view follow the sort setting, folders first *)
Definition viewSorted (getTime : string -> option Z) (b : Browser) : Prop :=
  renderedItems getTime b =
    map inl (visibleFolders b) ++ map inr (visibleFiles getTime b) /\
  StronglySorted (folderOrder (sortBy b) (sortDir b)) (visibleFolders b) /\
  StronglySorted (fileOrder getTime (sortBy b) (sortDir b)) (visibleFiles getTime b).

(** a drive with two folders and three files at the root, none in name
    order *)
Definition folderBeta : DriveFolder.t := DriveFolder.mk 2 "beta" (Some 1) false None.
Definition folderAlpha : DriveFolder.t := DriveFolder.mk 3 "Alpha" (Some 1) false None.

Definition fileLowerB : DriveFile.t :=
  DriveFile.mk 20 "b" "txt" 1 (Some 1) 1 false false false None "300".
Definition fileUpperA : DriveFile.t :=
  DriveFile.mk 21 "A" "txt" 1 (Some 1) 2 false false false None "100".
Definition fileLowerA : DriveFile.t :=
  DriveFile.mk 22 "a" "txt" 1 (Some 1) 3 false false false None "200".

Definition shelfState : DriveState :=
  mkState 1 [folderRoot; folderBeta; folderAlpha]
            [fileLowerB; fileUpperA; fileLowerA].

(** *** A server to run the upload against

    It numbers what it creates from a counter and never fails. *)

Definition counterCreateFolder (next : Z) (name : string) (parentId : option Z)
  : Z * option DriveFolder.t :=
  (next + 1, Some (DriveFolder.mk next name parentId false None)).

Definition counterUploadFile (next : Z) (file : InputFile.t) (folderId : option Z)
  : Z * option DriveFile.t :=
  (next + 1,
   Some (DriveFile.mk next (InputFile.name file) (InputFile.type file) 1 folderId
           (Z.of_nat (String.length (InputFile.content file)))
           false false false None "0")).

Definition readmeEntry : InputFile.t :=
  InputFile.mk "readme.txt" "text/plain" "project/notes/readme.txt" "hello".
Definition todoEntry : InputFile.t :=
  InputFile.mk "todo.txt" "text/plain" "project/todo.txt" "later".

(** *** More small drives *)

(** [Docs] is not trashed but carries a stale [originalParentId] *)
Definition staleState : DriveState :=
  mkState 1 [folderRoot;
             DriveFolder.mk 2 "Docs" (Some 1) false (Some 3);
             DriveFolder.mk 3 "Archive" (Some 1) false None]
            [].

(** a file without parent has the id of the folder [Docs] *)
Definition looseFile : DriveFile.t :=
  DriveFile.mk 2 "loose.txt" "txt" 1 None 4 false false false None "50".

Definition aliasState : DriveState :=
  mkState 1 [folderRoot; folderDocs] [looseFile].

(** a trashed file has the id of a folder that is not trashed *)
Definition aliasTrashState : DriveState :=
  mkState 1 [folderRoot; DriveFolder.mk 10 "Keep" (Some 1) false None]
            [trashFile fileA].

(** ** The rest of the component

    What follows embeds the parts of [FileBrowser.tsx] and of the
    application shell around it that the sections above leave out. *)

(** *** Current folder and breadcrumb *)

Definition setSearch (x : string) (b : Browser) : Browser :=
  mkBrowser (state b) (section b) (currentFolderId b) (sortBy b) (sortDir b)
            x (selectedIds b) (newMenuOpen b) (busy b).

(** [section === "my-drive" ? folders.find(f => f.id === currentFolderId) ??
    null : null] *)
Definition currentFolder (b : Browser) : option DriveFolder.t :=
  match section b with
  | MyDrive =>
      find (fun f => is_id (currentFolderId b) (DriveFolder.id f)) (foldersOf b)
  | _ => None
  end.

(** [folders.find(f => f.id === folder.parentId && !f.trashed) ?? null] *)
Definition parentOf (fs : list DriveFolder.t) (folder : DriveFolder.t)
  : option DriveFolder.t :=
  find (fun f => is_id (DriveFolder.parentId folder) (DriveFolder.id f) &&
                 negb (DriveFolder.trashed f)) fs.

(** the [while (folder)] loop of [breadcrumb]; [result.unshift(folder)] puts
    the folder in front.  The loop has no bound of its own: [None] is the
    fuel running out. *)
Fixpoint breadcrumbLoop (fuel : nat) (fs : list DriveFolder.t)
  (folder : option DriveFolder.t) (result : list DriveFolder.t)
  : option (list DriveFolder.t) :=
  match folder with
  | None => Some result
  | Some f =>
      match fuel with
      | O => None
      | S fuel' => breadcrumbLoop fuel' fs (parentOf fs f) (f :: result)
      end
  end.

Definition breadcrumb (fuel : nat) (b : Browser) : option (list DriveFolder.t) :=
  match section b, currentFolder b with
  | MyDrive, Some f => breadcrumbLoop fuel (foldersOf b) (Some f) []
  | _, _ => Some []
  end.

(** [b] is an ancestor of [a] along [parentOf] *)
Inductive climbs (fs : list DriveFolder.t) : DriveFolder.t -> DriveFolder.t -> Prop :=
| climbs_parent a b : parentOf fs a = Some b -> climbs fs a b
| climbs_step a b c : parentOf fs a = Some b -> climbs fs b c -> climbs fs a c.

(** a path from the top: the first folder has no live parent in [fs], and
    each folder is the [parentOf] of the next *)
Fixpoint pathFromTop (fs : list DriveFolder.t) (top : option DriveFolder.t)
  (path : list DriveFolder.t) : Prop :=
  match path with
  | [] => True
  | f :: rest => parentOf fs f = top /\ pathFromTop fs (Some f) rest
  end.

(** [handleOpenFolder] *)
Definition handleOpenFolder (id : Z) (b : Browser) : Browser :=
  setSelectedIds [] (setCurrentFolderId (Some id) (setSection MyDrive b)).

(** [isSelected] *)
Definition isSelected (b : Browser) (id : Z) : bool := includes (selectedIds b) id.

(** the buttons of the side bar: [setSection(s); setSelectedIds([])] *)
Definition openSection (s : DriveSection) (b : Browser) : Browser :=
  setSelectedIds [] (setSection s b).

(** a drive whose root folder is its own parent, as a restore of the root
    folder leaves it *)
Definition selfParentState : DriveState :=
  mkState 1 [DriveFolder.mk 1 "My Drive" (Some 1) false None] [].

(** *** What restore does to one item *)

Definition inRestoreClosure (st : DriveState) (selected : list Z)
  (f : DriveFolder.t) : Prop :=
  DriveFolder.trashed f = true /\ restoreCascade st selected (DriveFolder.id f).

Definition inRestoreClosureFile (st : DriveState) (selected : list Z)
  (f : DriveFile.t) : Prop :=
  DriveFile.trashed f = true /\ restoreCascadeFile st selected (DriveFile.id f).

(** where restore puts an item: its [originalParentId], else its
    [parentId], else the root folder *)
Definition restoreTarget (root : Z) (original parent : option Z) : option Z :=
  match original, parent with
  | Some o, _ => Some o
  | None, Some p => Some p
  | None, None => Some root
  end.

Definition folderRestoredFrom (root : Z) (f f' : DriveFolder.t) : Prop :=
  DriveFolder.id f' = DriveFolder.id f /\
  DriveFolder.name f' = DriveFolder.name f /\
  DriveFolder.parentId f' =
    restoreTarget root (DriveFolder.originalParentId f) (DriveFolder.parentId f) /\
  DriveFolder.trashed f' = false /\
  DriveFolder.originalParentId f' = None.

Definition fileRestoredFrom (root : Z) (f f' : DriveFile.t) : Prop :=
  DriveFile.id f' = DriveFile.id f /\
  DriveFile.name f' = DriveFile.name f /\
  DriveFile.type f' = DriveFile.type f /\
  DriveFile.ownerId f' = DriveFile.ownerId f /\
  DriveFile.sizeBytes f' = DriveFile.sizeBytes f /\
  DriveFile.starred f' = DriveFile.starred f /\
  DriveFile.isShared f' = DriveFile.isShared f /\
  DriveFile.modifiedAt f' = DriveFile.modifiedAt f /\
  DriveFile.parentId f' =
    restoreTarget root (DriveFile.originalParentId f) (DriveFile.parentId f) /\
  DriveFile.trashed f' = false /\
  DriveFile.originalParentId f' = None.

(** the folder kept its place: id, name and [parentId] *)
Definition folderSamePlace (f f' : DriveFolder.t) : Prop :=
  DriveFolder.id f' = DriveFolder.id f /\
  DriveFolder.name f' = DriveFolder.name f /\
  DriveFolder.parentId f' = DriveFolder.parentId f.

(** the file kept its place and everything but the trash fields *)
Definition fileSamePlace (f f' : DriveFile.t) : Prop :=
  DriveFile.id f' = DriveFile.id f /\
  DriveFile.name f' = DriveFile.name f /\
  DriveFile.type f' = DriveFile.type f /\
  DriveFile.ownerId f' = DriveFile.ownerId f /\
  DriveFile.parentId f' = DriveFile.parentId f /\
  DriveFile.sizeBytes f' = DriveFile.sizeBytes f /\
  DriveFile.starred f' = DriveFile.starred f /\
  DriveFile.isShared f' = DriveFile.isShared f /\
  DriveFile.modifiedAt f' = DriveFile.modifiedAt f.

(** *** Counting what an upload did *)

Definition isCreate (c : ApiCall) : bool :=
  match c with
  | CreateFolder _ _ => true
  | UploadFile _ _ => false
  end.

(** the number of folder creations among the requests *)
Definition creations (cs : list ApiCall) : nat := List.length (filter isCreate cs).

(** the number of file uploads among the requests *)
Definition uploads (cs : list ApiCall) : nat :=
  List.length (filter (fun c => negb (isCreate c)) cs).

(** the files appended one by one, as the handlers do *)
Definition appendFiles (created : list DriveFile.t) (b : Browser) : Browser :=
  fold_left (fun acc c => appendFile c acc) created b.

(** the state [st] with folders and files appended *)
Definition grownFrom (st : DriveState) (newFolders : list DriveFolder.t)
  (newFiles : list DriveFile.t) : DriveState :=
  mkState (rootFolderId st) (folders st ++ newFolders) (files st ++ newFiles).

(** the two browsers differ in nothing but the drive state *)
Definition sameHooks (b1 b2 : Browser) : Prop :=
  section b1 = section b2 /\ currentFolderId b1 = currentFolderId b2 /\
  sortBy b1 = sortBy b2 /\ sortDir b1 = sortDir b2 /\ search b1 = search b2 /\
  selectedIds b1 = selectedIds b2 /\ newMenuOpen b1 = newMenuOpen b2 /\
  busy b1 = busy b2.

Definition isSome {A : Type} (r : option A) : bool :=
  match r with
  | Some _ => true
  | None => false
  end.

(** [currentPath ? `${currentPath}/${segment}` : segment] *)
Definition childPath (parentPath segment : string) : string :=
  if is_empty parentPath then segment
  else (parentPath ++ "/" ++ segment)%string.

(** One folder creation of a run that the server answered: the path that
    was missing from [pathToFolderId], the path above it, the segment and
    the parent id that were sent, the folder that came back, and the
    server before and after the request. *)
Record Creation (Gateway : Type) := mkCreation {
  createdPath : string;
  createdUnder : string;
  createdSegment : string;
  createdParentId : Z;
  createdFolder : DriveFolder.t;
  serverBefore : Gateway;
  serverAfter : Gateway
}.

Arguments createdPath {Gateway}.
Arguments createdUnder {Gateway}.
Arguments createdSegment {Gateway}.
Arguments createdParentId {Gateway}.
Arguments createdFolder {Gateway}.
Arguments serverBefore {Gateway}.
Arguments serverAfter {Gateway}.

(** the entry of [pathToFolderId] and the request of a creation *)
Definition createdEntry {Gateway : Type} (r : Creation Gateway) : string * Z :=
  (createdPath r, DriveFolder.id (createdFolder r)).

Definition createdRequest {Gateway : Type} (r : Creation Gateway) : ApiCall :=
  CreateFolder (createdSegment r) (Some (createdParentId r)).

(** The creation [r] is what the loop of [ensureFolderPath] does for a
    missing path: the path is the segment under the path above it, the
    parent id sent is the id that [memo] holds for the path above, and
    the folder is the answer of the server to that request. *)
Definition answeredCreation {Gateway : Type}
  (apiCreateFolder :
     Gateway -> string -> option Z -> Gateway * option DriveFolder.t)
  (memo : list (string * Z)) (r : Creation Gateway) : Prop :=
  createdPath r = childPath (createdUnder r) (createdSegment r) /\
  In (createdUnder r, createdParentId r) memo /\
  apiCreateFolder (serverBefore r) (createdSegment r)
    (Some (createdParentId r)) = (serverAfter r, Some (createdFolder r)).

(** Where a folder upload that started from [st], [b0] and the base folder
    [base] stands.  The map of paths holds the base folder and then one
    entry for each creation, with distinct paths; the folders appended to
    the local state are the folders of the creations, in order; the
    requests are [answered ++ rest], where the folder creations among
    [answered] are the requests of the creations and its uploads are as
    many as the files appended; [rest] is empty, or holds the one request
    that was rejected when the run was stopped ([ok] false). *)
Definition uploadProgress {Gateway : Type}
  (apiCreateFolder :
     Gateway -> string -> option Z -> Gateway * option DriveFolder.t)
  (base : Z) (st : DriveState) (b0 : Browser)
  (ok : bool) (s : UploadState Gateway) : Prop :=
  exists (records : list (Creation Gateway)) (newFiles : list DriveFile.t)
         (answered rest : list ApiCall),
    state (browser Gateway s) =
      Some (grownFrom st (map createdFolder records) newFiles) /\
    sameHooks (browser Gateway s) b0 /\
    pathToFolderId Gateway s = (EmptyString, base) :: map createdEntry records /\
    NoDup (map fst (pathToFolderId Gateway s)) /\
    Forall (answeredCreation apiCreateFolder (pathToFolderId Gateway s)) records /\
    calls Gateway s = answered ++ rest /\
    filter isCreate answered = map createdRequest records /\
    uploads answered = List.length newFiles /\
    (if ok then rest = [] else exists rejected, rest = [rejected]).

(** the task keeps the progress of the upload *)
Definition keepsProgress {Gateway A : Type}
  (apiCreateFolder :
     Gateway -> string -> option Z -> Gateway * option DriveFolder.t)
  (base : Z) (st : DriveState) (b0 : Browser)
  (m : Task Gateway A) : Prop :=
  forall s, uploadProgress apiCreateFolder base st b0 true s ->
            uploadProgress apiCreateFolder base st b0
              (isSome (snd (m s))) (fst (m s)).

(** In a creation of a run the parent is the base folder, for a path of
    one segment, or the folder that the run created for the path above. *)
Definition parentInRun {Gateway : Type} (base : Z)
  (records : list (Creation Gateway)) (r : Creation Gateway) : Prop :=
  (createdUnder r = EmptyString /\ createdParentId r = base) \/
  exists above, In above records /\
                createdPath above = createdUnder r /\
                DriveFolder.id (createdFolder above) = createdParentId r.

(** C8 as the spec states it, for two uploads one after the other: the
    first creates two folders and the second none. *)
Definition laterUploadReuses {Gateway : Type}
  (apiCreateFolder :
     Gateway -> string -> option Z -> Gateway * option DriveFolder.t)
  (apiUploadFile :
     Gateway -> InputFile.t -> option Z -> Gateway * option DriveFile.t)
  (g : Gateway) (b : Browser) (first second : InputFile.t) : Prop :=
  forall g1 b1 calls1 g2 b2 calls2,
    handleFolderInputChange Gateway apiCreateFolder apiUploadFile [first] g b =
      (g1, b1, calls1) ->
    handleFolderInputChange Gateway apiCreateFolder apiUploadFile [second] g1 b1 =
      (g2, b2, calls2) ->
    creations calls1 = 2%nat /\ creations calls2 = 0%nat.

(** What one call of [handleFolderInputChange] from the state [st] and the
    base folder [base] did, read off its requests and the hooks it
    leaves: the folder creations that the server answered are for
    pairwise distinct paths, each under the base folder or under a folder
    created earlier in the same call, and the folders appended to the
    local state are their answers; at most one request, the last, is left
    over (the one that stopped the call). *)
Definition createsEachPathOnce {Gateway : Type}
  (apiCreateFolder :
     Gateway -> string -> option Z -> Gateway * option DriveFolder.t)
  (base : Z) (st : DriveState) (b' : Browser) (requests : list ApiCall)
  : Prop :=
  exists (records : list (Creation Gateway)) (newFiles : list DriveFile.t)
         (answered rest : list ApiCall),
    requests = answered ++ rest /\
    (rest = [] \/ exists rejected, rest = [rejected]) /\
    filter isCreate answered = map createdRequest records /\
    NoDup (map createdPath records) /\
    Forall (fun r =>
              createdPath r = childPath (createdUnder r) (createdSegment r) /\
              parentInRun base records r /\
              apiCreateFolder (serverBefore r) (createdSegment r)
                (Some (createdParentId r)) =
              (serverAfter r, Some (createdFolder r)))
           records /\
    state b' = Some (grownFrom st (map createdFolder records) newFiles).

(** *** What the view shows

    The tests of [visibleFolders] and [visibleFiles] on one item. *)

Definition shownFolder (b : Browser) (f : DriveFolder.t) : bool :=
  match section b with
  | MyDrive => negb (DriveFolder.trashed f) &&
               same_ref (DriveFolder.parentId f) (currentFolderId b)
  | Trash => DriveFolder.trashed f
  | _ => false
  end.

Definition inSection (b : Browser) (f : DriveFile.t) : bool :=
  match section b with
  | MyDrive => negb (DriveFile.trashed f) &&
               same_ref (DriveFile.parentId f) (currentFolderId b)
  | Starred => DriveFile.starred f && negb (DriveFile.trashed f)
  | Shared => DriveFile.isShared f && negb (DriveFile.trashed f)
  | Trash => DriveFile.trashed f
  end.

Definition matchesSearch (b : Browser) (item : DriveFile.t) : bool :=
  if negb (is_empty (trim (search b))) then
    str_includes (toLowerCase (DriveFile.name item))
                 (toLowerCase (trim (search b)))
  else true.

Definition shownFile (b : Browser) (f : DriveFile.t) : bool :=
  inSection b f && matchesSearch b f.

(** *** What the trash handlers send

    The handlers of the trash do not wait for the server: next to the
    local update they send one request for each id of their two sets.  A
    patch is the object given to [apiUpdateFolder] or [apiUpdateFile]; a
    field the object does not have is [None]. *)

Record Patch := mkPatch {
  patchTrashed : option bool;
  patchParentId : option (option Z);
  patchOriginalParentId : option (option Z)
}.

Inductive Request :=
| UpdateFolder (id : Z) (patch : Patch)
| UpdateFile (id : Z) (patch : Patch)
| DeleteFile (id : Z)
| DeleteFolder (id : Z).

(** [folderIds.forEach(id => { const folder = state.folders.find(f => f.id
    === id); if (!folder) return; void apiUpdateFolder(token, id, {...}) })]
    and the same for the files *)
Definition updateRequests (st : DriveState)
  (folderPatch : DriveFolder.t -> Patch) (filePatch : DriveFile.t -> Patch)
  (sets : IdSet * IdSet) : list Request :=
  let '(folderIds, fileIds) := sets in
  flat_map (fun id =>
              match find (fun f => DriveFolder.id f =? id) (folders st) with
              | Some folder => [UpdateFolder id (folderPatch folder)]
              | None => []
              end) folderIds ++
  flat_map (fun id =>
              match find (fun f => DriveFile.id f =? id) (files st) with
              | Some file => [UpdateFile id (filePatch file)]
              | None => []
              end) fileIds.

(** [{ trashed: true, originalParentId: folder.originalParentId ??
    folder.parentId }] *)
Definition trashFolderPatch (folder : DriveFolder.t) : Patch :=
  mkPatch (Some true) None
    (Some (nullish (DriveFolder.originalParentId folder)
                   (DriveFolder.parentId folder))).

Definition trashFilePatch (file : DriveFile.t) : Patch :=
  mkPatch (Some true) None
    (Some (nullish (DriveFile.originalParentId file)
                   (DriveFile.parentId file))).

(** [{ trashed: false, parentId: folder.originalParentId ?? folder.parentId
    ?? rootFolderId, originalParentId: null }] *)
Definition restoreFolderPatch (root : Z) (folder : DriveFolder.t) : Patch :=
  mkPatch (Some false)
    (Some (nullish (nullish (DriveFolder.originalParentId folder)
                            (DriveFolder.parentId folder))
                   (Some root)))
    (Some None).

Definition restoreFilePatch (root : Z) (file : DriveFile.t) : Patch :=
  mkPatch (Some false)
    (Some (nullish (nullish (DriveFile.originalParentId file)
                            (DriveFile.parentId file))
                   (Some root)))
    (Some None).

(** the requests of [handleMoveToTrashSelected] *)
Definition moveToTrashSent (confirm : bool) (b : Browser)
  : option (list Request) :=
  match state b with
  | None => Some []
  | Some st =>
      if (List.length (selectedIds b) =? 0)%nat then Some []
      else if negb confirm then Some []
      else
        match trashSets st (selectedIds b) with
        | None => None
        | Some sets =>
            Some (updateRequests st trashFolderPatch trashFilePatch sets)
        end
  end.

(** the requests of [handleRestoreSelected] *)
Definition restoreSent (b : Browser) : option (list Request) :=
  match state b with
  | None => Some []
  | Some st =>
      if (List.length (selectedIds b) =? 0)%nat then Some []
      else
        match restoreSets st (selectedIds b) with
        | None => None
        | Some sets =>
            Some (updateRequests st (restoreFolderPatch (rootFolderId st))
                    (restoreFilePatch (rootFolderId st)) sets)
        end
  end.

(** [filesToDelete.forEach(id => { void apiDeleteFile(token, id) });
    foldersToDelete.forEach(id => { void apiDeleteFolder(token, id) })] *)
Definition deleteRequests (sets : IdSet * IdSet) : list Request :=
  let '(foldersToDelete, filesToDelete) := sets in
  map DeleteFile filesToDelete ++ map DeleteFolder foldersToDelete.

(** the requests of [handlePermanentDeleteSelected] *)
Definition permanentDeleteSent (confirm : bool) (b : Browser)
  : option (list Request) :=
  match state b with
  | None => Some []
  | Some st =>
      if (List.length (selectedIds b) =? 0)%nat then Some []
      else if negb confirm then Some []
      else option_map deleteRequests (deleteSets st (selectedIds b))
  end.

(** the requests of [handleEmptyTrash]; its two lists are arrays, not sets *)
Definition emptyTrashSent (confirm : bool) (b : Browser) : list Request :=
  match state b with
  | None => []
  | Some st =>
      if negb (hasTrash b) then []
      else if negb confirm then []
      else
        map DeleteFile
          (map DriveFile.id (filter (fun f => DriveFile.trashed f) (files st))) ++
        map DeleteFolder
          (map DriveFolder.id
             (filter (fun f => DriveFolder.trashed f) (folders st)))
  end.

(** the values of a folder or file that a patch of the trash carries *)
Definition folderPatchOf (withParent : bool) (f : DriveFolder.t) : Patch :=
  mkPatch (Some (DriveFolder.trashed f))
    (if withParent then Some (DriveFolder.parentId f) else None)
    (Some (DriveFolder.originalParentId f)).

Definition filePatchOf (withParent : bool) (f : DriveFile.t) : Patch :=
  mkPatch (Some (DriveFile.trashed f))
    (if withParent then Some (DriveFile.parentId f) else None)
    (Some (DriveFile.originalParentId f)).

(** the id a request is about *)
Definition requestId (r : Request) : Z :=
  match r with
  | UpdateFolder id _ | UpdateFile id _ | DeleteFile id | DeleteFolder id => id
  end.

(** both sets hold each id once *)
Definition distinctSets (sets : IdSet * IdSet) : Prop :=
  NoDup (fst sets) /\ NoDup (snd sets).

(** The requests [sent] agree with what became of the folder [f], now
    [f']: a request about it carries the values of [f'], and there is one
    when [f'] differs from [f]. *)
Definition folderInSync (withParent : bool) (sent : list Request)
  (f f' : DriveFolder.t) : Prop :=
  (forall patch, In (UpdateFolder (DriveFolder.id f) patch) sent ->
                 patch = folderPatchOf withParent f') /\
  (f' <> f ->
   In (UpdateFolder (DriveFolder.id f) (folderPatchOf withParent f')) sent).

Definition fileInSync (withParent : bool) (sent : list Request)
  (f f' : DriveFile.t) : Prop :=
  (forall patch, In (UpdateFile (DriveFile.id f) patch) sent ->
                 patch = filePatchOf withParent f') /\
  (f' <> f ->
   In (UpdateFile (DriveFile.id f) (filePatchOf withParent f')) sent).

(** ** The sign-in page

    [AuthPage] of [App.tsx].  [onSubmit] talks to the server with
    [apiRegister], [apiLogin] and [apiMe]; a rejected promise is [inl] with
    the message of the error, and [apiLogin] answers the access token. *)

Inductive AuthMode := LoginMode | RegisterMode.

Module AuthPage.
Record t := mk {
  mode : AuthMode;
  email : string;
  password : string;
  loading : bool;
  error : option string
}.
End AuthPage.

Definition setLoading (x : bool) (p : AuthPage.t) : AuthPage.t :=
  AuthPage.mk (AuthPage.mode p) (AuthPage.email p) (AuthPage.password p) x
    (AuthPage.error p).

Definition setError (x : option string) (p : AuthPage.t) : AuthPage.t :=
  AuthPage.mk (AuthPage.mode p) (AuthPage.email p) (AuthPage.password p)
    (AuthPage.loading p) x.

(** the requests of the sign-in page, in order *)
Inductive AuthCall :=
| Register (email password : string)
| Login (email password : string)
| Me (token : string).

Section Auth.

Variable Server : Type.
Variable apiRegister : Server -> string -> string -> Server * (string + unit).
Variable apiLogin : Server -> string -> string -> Server * (string + string).
Variable apiMe : Server -> string -> Server * (string + unit).

(** [catch (err) { setError(err.message) } finally { setLoading(false) }] *)
Definition submitFailed (s : Server) (p : AuthPage.t) (message : string)
  (calls : list AuthCall)
  : Server * AuthPage.t * list AuthCall * option (string * string) :=
  (s, setLoading false (setError (Some message) p), calls, None).

(** from [apiLogin] on; [calls] are the requests sent before *)
Definition submitLogin (s : Server) (p : AuthPage.t) (calls : list AuthCall)
  : Server * AuthPage.t * list AuthCall * option (string * string) :=
  let email := AuthPage.email p in
  let password := AuthPage.password p in
  match apiLogin s email password with
  | (s1, inl message) =>
      submitFailed s1 p message (calls ++ [Login email password])
  | (s1, inr access_token) =>
      match apiMe s1 access_token with
      | (s2, inl message) =>
          submitFailed s2 p message
            (calls ++ [Login email password; Me access_token])
      | (s2, inr _) =>
          (s2, setLoading false p,
           calls ++ [Login email password; Me access_token],
           Some (access_token, email))
      end
  end.

(** [onSubmit].  It answers the server it leaves, the page, the requests
    it sent and the arguments of [onLoggedIn] when it is called. *)
Definition onSubmit (s : Server) (page : AuthPage.t)
  : Server * AuthPage.t * list AuthCall * option (string * string) :=
  let p := setLoading true (setError None page) in
  let email := AuthPage.email p in
  let password := AuthPage.password p in
  match AuthPage.mode p with
  | RegisterMode =>
      match apiRegister s email password with
      | (s1, inl message) => submitFailed s1 p message [Register email password]
      | (s1, inr _) => submitLogin s1 p [Register email password]
      end
  | LoginMode => submitLogin s p []
  end.

End Auth.

(** *** Servers to sign in to *)

(** a server that knows one account and answers one token *)
Definition soleLogin (s : unit) (email password : string)
  : unit * (string + string) :=
  if String.eqb email "ann@example.org" && String.eqb password "secret"
  then (s, inr "token-ann"%string)
  else (s, inl "Incorrect email or password"%string).

Definition soleMe (s : unit) (token : string) : unit * (string + unit) :=
  if String.eqb token "token-ann" then (s, inr tt)
  else (s, inl "Could not validate credentials"%string).

Definition soleRegister (s : unit) (email password : string)
  : unit * (string + unit) :=
  (s, inl "Email already registered"%string).

(** *** The answers of the server to a row of uploads

    [served api folderId g fileList g' answers]: starting from the server
    [g], each file of [fileList] in turn was accepted under [folderId];
    [answers] are the records the server gave back, in that order, and
    [g'] is the server afterwards. *)
Inductive served {Gateway : Type}
  (api : Gateway -> InputFile.t -> option Z -> Gateway * option DriveFile.t)
  (folderId : Z)
  : Gateway -> list InputFile.t -> Gateway -> list DriveFile.t -> Prop :=
| served_none g : served api folderId g [] g []
| served_next g file g1 created rest g2 answers :
    api g file (Some folderId) = (g1, Some created) ->
    served api folderId g1 rest g2 answers ->
    served api folderId g (file :: rest) g2 (created :: answers).

(** a server that accepts [left] more files and rejects the rest *)
Definition quotaUploadFile (left : Z) (file : InputFile.t) (folderId : option Z)
  : Z * option DriveFile.t :=
  if left <=? 0 then (left, None)
  else
    (left - 1,
     Some (DriveFile.mk (200 - left) (InputFile.name file) (InputFile.type file)
             1 folderId (Z.of_nat (String.length (InputFile.content file)))
             false false false None "0")).

(** *** Move to trash below a folder that is already trashed *)

(** a drive four folders deep: My Drive / Docs / Notes / Drafts / n.txt *)
Definition folderDrafts : DriveFolder.t :=
  DriveFolder.mk 4 "Drafts" (Some 3) false None.

Definition fileDraft : DriveFile.t :=
  DriveFile.mk 20 "n.txt" "txt" 1 (Some 4) 3 false false false None "300".

Definition deepState : DriveState :=
  mkState 1 [folderRoot; folderDocs; folderNotes; folderDrafts] [fileDraft].

(** the same drive after [Notes] was moved to trash and [Drafts] alone was
    restored: [Drafts] and [n.txt] are live under a [Notes] that is still
    in the trash *)
Definition nestedState : DriveState :=
  mkState 1 [folderRoot; folderDocs; trashFolder folderNotes; folderDrafts]
            [fileDraft].

(** C2 as the spec states it.  The closure is taken through every parent
    link, whatever lies in between: a folder is in it when it is not
    trashed and is selected or lies anywhere below a selected folder that
    is not trashed, a file when it is not trashed and is selected or lies
    in such a folder or below it. *)
Definition inDeepTrashClosure (st : DriveState) (selected : list Z)
  (f : DriveFolder.t) : Prop :=
  DriveFolder.trashed f = false /\
  (In (DriveFolder.id f) selected \/
   exists s, In s (folders st) /\ DriveFolder.trashed s = false /\
             In (DriveFolder.id s) selected /\
             descends st anyFolderChildOf (DriveFolder.id s) (DriveFolder.id f)).

Definition inDeepTrashClosureFile (st : DriveState) (selected : list Z)
  (f : DriveFile.t) : Prop :=
  DriveFile.trashed f = false /\
  (In (DriveFile.id f) selected \/
   exists s p, In s (folders st) /\ DriveFolder.trashed s = false /\
               In (DriveFolder.id s) selected /\
               DriveFile.parentId f = Some p /\
               subtree st (DriveFolder.id s) p).

Definition trashMarksDescendants (b : Browser) : Prop :=
  forall st,
    state b = Some st ->
    NoDup (map DriveFolder.id (folders st)) ->
    NoDup (map DriveFile.id (files st)) ->
    exists b' st',
      handleMoveToTrashSelected true b = Some b' /\
      state b' = Some st' /\
      Forall2 (fun f f' =>
                 (inDeepTrashClosure st (selectedIds b) f ->
                  folderTrashedFrom f f') /\
                 (~ inDeepTrashClosure st (selectedIds b) f -> f' = f))
              (folders st) (folders st') /\
      Forall2 (fun f f' =>
                 (inDeepTrashClosureFile st (selectedIds b) f ->
                  fileTrashedFrom f f') /\
                 (~ inDeepTrashClosureFile st (selectedIds b) f -> f' = f))
              (files st) (files st').

(** * Properties *)

(** ** Sets *)

Lemma has_In (s : IdSet) (x : Z) : has s x = true <-> In x s.
Proof.
  unfold has. rewrite existsb_exists. split.
  - intros [y [Hy E]]. apply Z.eqb_eq in E. now subst.
  - intros H. exists x. split; [assumption | apply Z.eqb_refl].
Qed.

Lemma has_false (s : IdSet) (x : Z) : has s x = false <-> ~ In x s.
Proof.
  rewrite <- has_In. destruct (has s x); split; intros; congruence.
Qed.

Lemma includes_In (s : list Z) (x : Z) : includes s x = true <-> In x s.
Proof. exact (has_In s x). Qed.

Lemma In_add (s : IdSet) (x y : Z) : In y (add s x) <-> In y s \/ y = x.
Proof.
  unfold add. destruct (has s x) eqn:E.
  - apply has_In in E. split; [now left | intros [H | ->]; assumption].
  - rewrite in_app_iff. simpl. intuition auto.
Qed.

Lemma incl_add (s : IdSet) (x : Z) : incl s (add s x).
Proof. intros y Hy. apply In_add. now left. Qed.

Lemma is_id_Some (p : option Z) (x : Z) : is_id p x = true <-> p = Some x.
Proof.
  destruct p as [q |]; simpl.
  - rewrite Z.eqb_eq. split; [now intros -> | now intros [= ->]].
  - split; discriminate.
Qed.

(** ** Fuel: the measure of a walk *)

Lemma filter_length_le {A : Type} (p q : A -> bool) (l : list A) :
  (forall x, In x l -> p x = true -> q x = true) ->
  (List.length (filter p l) <= List.length (filter q l))%nat.
Proof.
  induction l as [| a l IH]; intros H; simpl; [lia |].
  assert (IH' := IH (fun x Hx => H x (or_intror Hx))).
  destruct (p a) eqn:Ep.
  - rewrite (H a (or_introl eq_refl) Ep). simpl. lia.
  - destruct (q a); simpl; lia.
Qed.

Lemma filter_length_lt {A : Type} (p q : A -> bool) (l : list A) (a : A) :
  (forall x, In x l -> p x = true -> q x = true) ->
  In a l -> p a = false -> q a = true ->
  (List.length (filter p l) < List.length (filter q l))%nat.
Proof.
  induction l as [| b l IH]; intros H Ha Ep Eq; simpl; [destruct Ha |].
  destruct Ha as [-> | Ha].
  - rewrite Ep, Eq. simpl.
    assert (L := filter_length_le p q l (fun x Hx => H x (or_intror Hx))). lia.
  - assert (IH' := IH (fun x Hx => H x (or_intror Hx)) Ha Ep Eq).
    destruct (p b) eqn:Epb.
    + rewrite (H b (or_introl eq_refl) Epb). simpl. lia.
    + destruct (q b); simpl; lia.
Qed.

Lemma remaining_mono (st : DriveState) (s s' : IdSet) :
  incl s s' -> (remaining st s' <= remaining st s)%nat.
Proof.
  intros H. unfold remaining. apply filter_length_le.
  intros x _ E. apply negb_true_iff in E. apply negb_true_iff.
  apply has_false in E. apply has_false. intros C. apply E, H, C.
Qed.

Lemma remaining_add (st : DriveState) (s : IdSet) (f : DriveFolder.t) :
  In f (folders st) -> has s (DriveFolder.id f) = false ->
  (remaining st (add s (DriveFolder.id f)) < remaining st s)%nat.
Proof.
  intros Hf E. unfold remaining.
  apply filter_length_lt with (a := DriveFolder.id f).
  - intros x _ Ex. apply negb_true_iff in Ex. apply negb_true_iff.
    apply has_false in Ex. apply has_false. intros C. apply Ex, incl_add, C.
  - apply nodup_In. now apply in_map.
  - apply negb_false_iff, has_In, In_add. now right.
  - now rewrite E.
Qed.

Lemma remaining_bound (st : DriveState) (s : IdSet) :
  (remaining st s < walkFuel st)%nat.
Proof.
  unfold remaining, walkFuel.
  assert (L1 := filter_length_le (fun x => negb (has s x)) (fun _ => true)
                  (nodup Z.eq_dec (map DriveFolder.id (folders st)))
                  (fun _ _ _ => eq_refl)).
  assert (L2 : (List.length (filter (fun _ : Z => true)
                  (nodup Z.eq_dec (map DriveFolder.id (folders st))))
                <= List.length (folders st))%nat).
  { rewrite <- (length_map DriveFolder.id (folders st)).
    eapply Nat.le_trans; [| apply NoDup_incl_length with (l := nodup Z.eq_dec (map DriveFolder.id (folders st)))].
    - clear. induction (nodup Z.eq_dec (map DriveFolder.id (folders st))); simpl; lia.
    - apply NoDup_nodup.
    - intros x Hx. now apply nodup_In in Hx. }
  lia.
Qed.

(** ** Walks in general *)

Lemma forEachM_cons {A S : Type} (f : A -> S -> option S) (x : A)
  (xs : list A) (s : S) :
  forEachM f (x :: xs) s =
  match f x s with
  | Some s' => forEachM f xs s'
  | None => None
  end.
Proof. reflexivity. Qed.

Lemma fold_add_In {A : Type} (p : A -> bool) (key : A -> Z) (l : list A)
  (B : IdSet) (y : Z) :
  In y (fold_left (fun acc x => if p x then add acc (key x) else acc) l B) <->
  In y B \/ exists x, In x l /\ p x = true /\ key x = y.
Proof.
  revert B. induction l as [| a l IH]; intros B; simpl.
  - split; [now left | intros [H | [x [[] _]]]; assumption].
  - rewrite IH. destruct (p a) eqn:Ea.
    + rewrite In_add. split.
      * intros [[H | ->] | [x [Hx [Hp Hk]]]]; [now left | right .. ].
        -- exists a. auto.
        -- exists x. auto.
      * intros [H | [x [[-> | Hx] [Hp Hk]]]].
        -- left. now left.
        -- left. right. now symmetry.
        -- right. exists x. auto.
    + split.
      * intros [H | [x [Hx [Hp Hk]]]]; [now left | right; exists x; auto].
      * intros [H | [x [[-> | Hx] [Hp Hk]]]]; [now left | congruence |].
        right. exists x. auto.
Qed.

Section WalkFacts.

Variable st : DriveState.
Variable childFolder : Z -> DriveFolder.t -> bool.
Variable childFile : Z -> DriveFile.t -> bool.

Let descends := descends st childFolder.
Let closed_at := closed_at st childFolder childFile.
Let files_from := files_from st childFolder childFile.
Let walk_post := walk_post st childFolder childFile.

Lemma descends_trans (p q x : Z) : descends p q -> descends q x -> descends p x.
Proof.
  intros Hpq Hqx. induction Hqx as [f Hf Hc | f r Hr IH Hf Hc].
  - eapply descends_step; eassumption.
  - eapply descends_step; eassumption.
Qed.

Lemma descends_is_folder (p x : Z) :
  descends p x -> exists f, In f (folders st) /\ DriveFolder.id f = x.
Proof. intros H. destruct H as [f Hf _ | f q _ Hf _]; exists f; auto. Qed.

Lemma closed_at_mono (q : Z) (s s' : IdSet * IdSet) :
  incl (fst s) (fst s') -> incl (snd s) (snd s') ->
  closed_at q s -> closed_at q s'.
Proof.
  intros HA HB [H1 H2]. split; intros f Hf Hc.
  - apply HA, H1; assumption.
  - apply HB, H2; assumption.
Qed.

Lemma walk_post_refl (p : Z) (s : IdSet * IdSet) : walk_post p s s.
Proof.
  repeat apply conj; try apply incl_refl.
  - intros x Hx. now left.
  - intros y Hy. now left.
  - intros q Hq Hn. contradiction.
Qed.

Lemma walk_post_trans (p : Z) (s1 s2 s3 : IdSet * IdSet) :
  walk_post p s1 s2 -> walk_post p s2 s3 -> walk_post p s1 s3.
Proof.
  intros (A12 & B12 & S12 & F12 & C12) (A23 & B23 & S23 & F23 & C23).
  repeat apply conj.
  - eapply incl_tran; eassumption.
  - eapply incl_tran; eassumption.
  - intros x Hx. destruct (S23 x Hx) as [H | H]; [now apply S12 | now right].
  - intros y Hy. destruct (F23 y Hy) as [H | H]; [now apply F12 | now right].
  - intros q Hq Hn. destruct (in_dec Z.eq_dec q (fst s2)) as [H2 | H2].
    + eapply closed_at_mono; [exact A23 | exact B23 | now apply C12].
    + now apply C23.
Qed.

(** a walk from a child [f] of [p], entered after [f] was added to the
    sets, seen from [p] *)
Lemma walk_post_enter (p : Z) (f : DriveFolder.t) (A B : IdSet)
  (s' : IdSet * IdSet) :
  In f (folders st) -> childFolder p f = true ->
  walk_post (DriveFolder.id f) (add A (DriveFolder.id f), B) s' ->
  closed_at (DriveFolder.id f) s' ->
  walk_post p (A, B) s'.
Proof.
  intros Hf Hc (HA & HB & HS & HF & HC) Hcl. simpl in *.
  assert (Hd : descends p (DriveFolder.id f)) by (now apply descends_child).
  repeat apply conj; simpl.
  - eapply incl_tran; [apply incl_add | exact HA].
  - exact HB.
  - intros x Hx. destruct (HS x Hx) as [H | [-> | H]].
    + apply In_add in H. destruct H as [H | ->]; [now left | right; now right].
    + right. now right.
    + right. right. eapply descends_trans; eassumption.
  - intros y Hy. destruct (HF y Hy) as [H | (g & q & Hg & Hy' & Hq & Hr)];
      [now left |].
    right. exists g, q. repeat split; try assumption.
    right. destruct Hr as [-> | Hr]; [assumption |].
    eapply descends_trans; eassumption.
  - intros q Hq Hn. destruct (Z.eq_dec q (DriveFolder.id f)) as [-> | Hne].
    + exact Hcl.
    + apply HC; [assumption |]. intros C. apply In_add in C.
      destruct C as [C | C]; [now apply Hn | now apply Hne].
Qed.

(** the same for a walk that adds its own start, as
    [markFolderAndChildren] does *)
Lemma walk_post_nested (p : Z) (f : DriveFolder.t) (s s' : IdSet * IdSet) :
  In f (folders st) -> childFolder p f = true ->
  walk_post (DriveFolder.id f) s s' -> walk_post p s s'.
Proof.
  intros Hf Hc (HA & HB & HS & HF & HC).
  assert (Hd : descends p (DriveFolder.id f)) by (now apply descends_child).
  repeat apply conj; try assumption.
  - intros x Hx. destruct (HS x Hx) as [H | [-> | H]].
    + now left.
    + right. now right.
    + right. right. eapply descends_trans; eassumption.
  - intros y Hy. destruct (HF y Hy) as [H | (g & q & Hg & Hy' & Hq & Hr)];
      [now left |].
    right. exists g, q. repeat split; try assumption.
    right. destruct Hr as [-> | Hr]; [assumption |].
    eapply descends_trans; eassumption.
Qed.

(** the file loop that ends a visit of [p] *)
Lemma walk_post_files (p : Z) (s : IdSet * IdSet) (A' B' B'' : IdSet) :
  walk_post p s (A', B') ->
  (forall y, In y B'' <->
     In y B' \/ exists f, In f (files st) /\ childFile p f = true /\ DriveFile.id f = y) ->
  walk_post p s (A', B'') /\
  (forall f, In f (files st) -> childFile p f = true -> In (DriveFile.id f) B'').
Proof.
  intros (HA & HB & HS & HF & HC) HB''. simpl in *.
  assert (I : incl B' B'') by (intros y Hy; apply HB''; now left).
  split.
  - repeat apply conj; simpl; try assumption.
    + eapply incl_tran; eassumption.
    + intros y Hy. apply HB'' in Hy. destruct Hy as [Hy | (g & Hg & Hc & Hy)].
      * now apply HF.
      * right. exists g, p. repeat split; auto.
    + intros q Hq Hn. eapply closed_at_mono; [| | apply (HC q Hq Hn)]; simpl;
        [apply incl_refl | exact I].
  - intros f Hf Hc. apply HB''. right. exists f. auto.
Qed.

(** a walk that first adds its start [p] to the sets *)
Lemma walk_post_start (p : Z) (A B : IdSet) (s' : IdSet * IdSet) :
  walk_post p (add A p, B) s' -> closed_at p s' -> walk_post p (A, B) s'.
Proof.
  intros (HA & HB & HS & HF & HC) Hcl. simpl in *.
  repeat apply conj; simpl; try assumption.
  - eapply incl_tran; [apply incl_add | exact HA].
  - intros x Hx. destruct (HS x Hx) as [H | H]; [| now right].
    apply In_add in H. destruct H as [H | ->]; [now left | right; now left].
  - intros q Hq Hn. destruct (Z.eq_dec q p) as [-> | Hne]; [exact Hcl |].
    apply HC; [assumption |]. intros C. apply In_add in C.
    destruct C as [C | C]; [now apply Hn | now apply Hne].
Qed.

Lemma pending_files (todo : list Z) (A B B' : IdSet) :
  incl B B' ->
  pending st childFolder childFile todo (A, B) ->
  pending st childFolder childFile todo (A, B').
Proof.
  intros I H q Hq. destruct (H q Hq) as [Ht | Hc]; [now left | right].
  eapply closed_at_mono; [| | exact Hc]; simpl; [apply incl_refl | exact I].
Qed.

End WalkFacts.

(** ** The walk of trash and restore *)

Section CollectChildren.

Variable want : bool.
Variable st : DriveState.

Let post := walk_post st (folderChildOf want) (fileChildOf want).
Let closed := closed_at st (folderChildOf want) (fileChildOf want).

Lemma collect_loop (k : nat) (p : Z)
  (IH : forall c s, (remaining st (fst s) < k)%nat ->
        exists s', collectChildren want st k c s = Some s' /\
                   post c s s' /\ closed c s') :
  forall l s, incl l (folders st) -> (remaining st (fst s) <= k)%nat ->
  exists s',
    forEachM (visitChild want (collectChildren want st k) p) l s = Some s' /\
    post p s s' /\
    (forall f, In f l -> folderChildOf want p f = true ->
               In (DriveFolder.id f) (fst s')).
Proof.
  induction l as [| f l IHl]; intros [A B] Hl Hr.
  - exists (A, B). simpl. split; [reflexivity |].
    split; [apply walk_post_refl | intros f []].
  - assert (Hf : In f (folders st)) by (apply Hl; now left).
    assert (Hl' : incl l (folders st)) by (intros g Hg; apply Hl; now right).
    simpl. destruct (folderChildOf want p f) eqn:Ec.
    + destruct (has A (DriveFolder.id f)) eqn:Eh.
      * destruct (IHl (A, B) Hl' Hr) as (s' & E & P & C).
        exists s'. split; [exact E |]. split; [exact P |].
        intros g [<- | Hg] Hc; [| now apply C].
        destruct P as (PA & _). apply PA. simpl. now apply has_In.
      * destruct (IH (DriveFolder.id f) (add A (DriveFolder.id f), B))
          as (s1 & E1 & P1 & C1).
        { simpl in *. assert (L := remaining_add st A f Hf Eh). lia. }
        rewrite E1.
        assert (I1 : incl A (fst s1)).
        { destruct P1 as (PA & _). simpl in PA.
          eapply incl_tran; [apply incl_add | exact PA]. }
        destruct (IHl s1 Hl') as (s' & E & P & C).
        { assert (L := remaining_mono st A (fst s1) I1). simpl in Hr. lia. }
        exists s'. split; [exact E |]. split.
        -- eapply walk_post_trans; [| exact P].
           eapply walk_post_enter; eassumption.
        -- intros g [<- | Hg] Hc; [| now apply C].
           destruct P as (PA & _). apply PA.
           destruct P1 as (PA1 & _). apply PA1. simpl. apply In_add. now right.
    + destruct (IHl (A, B) Hl' Hr) as (s' & E & P & C).
      exists s'. split; [exact E |]. split; [exact P |].
      intros g [<- | Hg] Hc; [congruence | now apply C].
Qed.

(** [collectChildren] returns as soon as the fuel exceeds the number of
    folder ids not yet collected, and its result is a walk from [p] that
    also covers the children of [p]. *)
Lemma collectChildren_spec :
  forall fuel p s, (remaining st (fst s) < fuel)%nat ->
  exists s', collectChildren want st fuel p s = Some s' /\
             post p s s' /\ closed p s'.
Proof.
  induction fuel as [| k IH]; intros p s Hr; [lia |].
  simpl.
  destruct (collect_loop k p IH (folders st) s (incl_refl _)) as ([A' B'] & E & P & C);
    [lia |].
  rewrite E.
  destruct (walk_post_files st (folderChildOf want) (fileChildOf want) p s A' B'
              (collectFiles want st p B') P) as [P' F'].
  { intros y. unfold collectFiles. apply fold_add_In. }
  exists (A', collectFiles want st p B'). split; [reflexivity |].
  split; [exact P' |]. split; simpl.
  - intros f Hf Hc. now apply C.
  - exact F'.
Qed.

End CollectChildren.

(** ** Walks and cascades *)

Section Cascades.

Variable st : DriveState.
Variable selected : list Z.
Variable eligible : DriveFolder.t -> bool.
Variable eligibleFile : DriveFile.t -> bool.
Variable childFolder : Z -> DriveFolder.t -> bool.
Variable childFile : Z -> DriveFile.t -> bool.

Hypothesis childFolder_eq :
  forall p f, childFolder p f = eligible f && is_id (DriveFolder.parentId f) p.
Hypothesis childFile_eq :
  forall p f, childFile p f = eligibleFile f && is_id (DriveFile.parentId f) p.

Let cascade := cascade eligible st selected.
Let cascadeFile := cascadeFile eligible eligibleFile st selected.
Let sound := sound eligible eligibleFile st selected.
Let pending := pending st childFolder childFile.
Let walk_post := walk_post st childFolder childFile.
Let closed_at := closed_at st childFolder childFile.

Lemma childFolder_inv (p : Z) (f : DriveFolder.t) :
  childFolder p f = true <-> eligible f = true /\ DriveFolder.parentId f = Some p.
Proof. rewrite childFolder_eq, andb_true_iff, is_id_Some. reflexivity. Qed.

Lemma childFile_inv (p : Z) (f : DriveFile.t) :
  childFile p f = true <-> eligibleFile f = true /\ DriveFile.parentId f = Some p.
Proof. rewrite childFile_eq, andb_true_iff, is_id_Some. reflexivity. Qed.

Lemma cascade_descends (p x : Z) :
  cascade p -> descends st childFolder p x -> cascade x.
Proof.
  intros Hp Hd. induction Hd as [f Hf Hc | f q Hq IH Hf Hc].
  - apply childFolder_inv in Hc. destruct Hc as [He Hpar].
    eapply cascade_child; eassumption.
  - apply childFolder_inv in Hc. destruct Hc as [He Hpar].
    eapply cascade_child; eassumption.
Qed.

Lemma walk_sound (p : Z) (s s' : IdSet * IdSet) :
  cascade p -> sound s -> walk_post p s s' -> sound s'.
Proof.
  intros Hp [SA SB] (_ & _ & HS & HF & _). split.
  - intros x Hx. destruct (HS x Hx) as [H | [-> | H]].
    + now apply SA.
    + exact Hp.
    + eapply cascade_descends; eassumption.
  - intros y Hy. destruct (HF y Hy) as [H | (f & q & Hf & Hy' & Hc & Hq)].
    + now apply SB.
    + apply childFile_inv in Hc. destruct Hc as [He Hpar].
      exists f. repeat split; try assumption. right. exists q. split; [assumption |].
      destruct Hq as [-> | Hq]; [exact Hp | eapply cascade_descends; eassumption].
Qed.

Lemma walk_pending (p : Z) (todo : list Z) (s s' : IdSet * IdSet) :
  pending (p :: todo) s -> walk_post p s s' -> closed_at p s' ->
  pending todo s'.
Proof.
  intros Hpen (HA & HB & _ & _ & HC) Hcl q Hq.
  destruct (in_dec Z.eq_dec q (fst s)) as [Hin | Hout].
  - destruct (Hpen q Hin) as [[<- | Ht] | Hc].
    + now right.
    + now left.
    + right. eapply closed_at_mono; eassumption.
  - right. now apply HC.
Qed.

Lemma walk_pending_nil (p : Z) (s s' : IdSet * IdSet) :
  pending [] s -> walk_post p s s' -> pending [] s'.
Proof.
  intros Hpen (HA & HB & _ & _ & HC) q Hq.
  destruct (in_dec Z.eq_dec q (fst s)) as [Hin | Hout].
  - destruct (Hpen q Hin) as [[] | Hc].
    right. eapply closed_at_mono; eassumption.
  - right. now apply HC.
Qed.

Lemma pending_add (x : Z) (A B : IdSet) :
  pending [] (A, B) -> pending [x] (add A x, B).
Proof.
  intros Hpen q Hq. simpl in Hq. apply In_add in Hq. destruct Hq as [Hq | ->].
  - destruct (Hpen q Hq) as [[] | Hc]. right.
    eapply closed_at_mono; [| | exact Hc]; simpl; [apply incl_add | apply incl_refl].
  - left. now left.
Qed.

(** once nothing is pending, the sets hold the whole cascade of the
    selected items they hold *)
Lemma cascade_complete (s : IdSet * IdSet) :
  pending [] s ->
  (forall f, In f (folders st) -> eligible f = true ->
             In (DriveFolder.id f) selected -> In (DriveFolder.id f) (fst s)) ->
  forall x, cascade x -> In x (fst s).
Proof.
  intros Hpen Hroots x Hx. induction Hx as [f Hf He Hs | f p Hf He Hpar Hp IH].
  - now apply Hroots.
  - destruct (Hpen p IH) as [[] | [Hc _]].
    apply Hc; [assumption |]. apply childFolder_inv. now split.
Qed.

Lemma cascadeFile_complete (s : IdSet * IdSet) :
  pending [] s ->
  (forall x, cascade x -> In x (fst s)) ->
  (forall f, In f (files st) -> eligibleFile f = true ->
             In (DriveFile.id f) selected -> In (DriveFile.id f) (snd s)) ->
  forall y, cascadeFile y -> In y (snd s).
Proof.
  intros Hpen Hall Hroots y (f & Hf & <- & He & [Hs | (p & Hpar & Hp)]).
  - now apply Hroots.
  - destruct (Hpen p (Hall p Hp)) as [[] | [_ Hc]].
    apply Hc; [assumption |]. apply childFile_inv. now split.
Qed.

End Cascades.

(** ** The sets of trash and of restore *)

Lemma folderChildOf_live (p : Z) (f : DriveFolder.t) :
  folderChildOf false p f = liveFolder f && is_id (DriveFolder.parentId f) p.
Proof. unfold folderChildOf, liveFolder. now destruct (DriveFolder.trashed f). Qed.

Lemma fileChildOf_live (p : Z) (f : DriveFile.t) :
  fileChildOf false p f = liveFile f && is_id (DriveFile.parentId f) p.
Proof. unfold fileChildOf, liveFile. now destruct (DriveFile.trashed f). Qed.

Lemma folderChildOf_trashed (p : Z) (f : DriveFolder.t) :
  folderChildOf true p f = DriveFolder.trashed f && is_id (DriveFolder.parentId f) p.
Proof. unfold folderChildOf. now destruct (DriveFolder.trashed f). Qed.

Lemma fileChildOf_trashed (p : Z) (f : DriveFile.t) :
  fileChildOf true p f = DriveFile.trashed f && is_id (DriveFile.parentId f) p.
Proof. unfold fileChildOf. now destruct (DriveFile.trashed f). Qed.

Lemma trash_loop (st : DriveState) (selected : list Z) :
  forall l s,
    (forall p, In p l -> In p (fst s)) ->
    sound liveFolder liveFile st selected s ->
    pending st (folderChildOf false) (fileChildOf false) l s ->
    exists s',
      forEachM (collectChildren false st (walkFuel st)) l s = Some s' /\
      incl (fst s) (fst s') /\ incl (snd s) (snd s') /\
      sound liveFolder liveFile st selected s' /\
      pending st (folderChildOf false) (fileChildOf false) [] s'.
Proof.
  induction l as [| p l IH]; intros s Hl Hs Hp.
  - exists s. simpl. repeat split; try apply incl_refl; try apply Hs. exact Hp.
  - destruct (collectChildren_spec false st (walkFuel st) p s (remaining_bound st _))
      as (s1 & E1 & P1 & C1).
    rewrite forEachM_cons, E1.
    assert (I1 := proj1 P1). assert (I2 := proj1 (proj2 P1)).
    destruct (IH s1) as (s' & E & IA & IB & S' & P').
    + intros q Hq. apply I1, Hl. now right.
    + eapply walk_sound; try eassumption.
      * exact folderChildOf_live.
      * exact fileChildOf_live.
      * apply Hs, Hl. now left.
    + eapply walk_pending; eassumption.
    + exists s'. split; [exact E |].
      repeat split; try apply S'; try assumption; eapply incl_tran; eassumption.
Qed.

(** [handleMoveToTrashSelected] computes its two sets, and they are the
    cascade of the selection over the items that are not trashed. *)
Lemma trashSets_spec (st : DriveState) (selected : list Z) :
  exists A B, trashSets st selected = Some (A, B) /\
    (forall x, In x A <-> trashCascade st selected x) /\
    (forall y, In y B <-> trashCascadeFile st selected y).
Proof.
  unfold trashSets. cbv zeta.
  match goal with
  | |- exists A B, forEachM _ ?a (?a, ?b) = _ /\ _ =>
      set (A0 := a); set (B0 := b)
  end.
  assert (HA0 : forall x, In x A0 <->
            exists f, In f (folders st) /\
                      negb (DriveFolder.trashed f) && includes selected (DriveFolder.id f) = true /\
                      DriveFolder.id f = x).
  { intros x. unfold A0. rewrite fold_add_In. simpl. intuition. }
  assert (HB0 : forall y, In y B0 <->
            exists f, In f (files st) /\
                      negb (DriveFile.trashed f) && includes selected (DriveFile.id f) = true /\
                      DriveFile.id f = y).
  { intros x. unfold B0. rewrite fold_add_In. simpl. intuition. }
  destruct (trash_loop st selected A0 (A0, B0)) as ([A B] & E & IA & IB & S & P).
  - auto.
  - split; simpl.
    + intros x Hx. apply HA0 in Hx. destruct Hx as (f & Hf & Hc & <-).
      apply andb_true_iff in Hc. destruct Hc as [Ht Hs].
      apply cascade_selected; [assumption | exact Ht | now apply includes_In].
    + intros y Hy. apply HB0 in Hy. destruct Hy as (f & Hf & Hc & <-).
      apply andb_true_iff in Hc. destruct Hc as [Ht Hs].
      exists f. repeat split; try assumption. left. now apply includes_In.
  - intros q Hq. now left.
  - exists A, B. split; [exact E |]. simpl in *.
    assert (Hall : forall x, trashCascade st selected x -> In x A).
    { apply (cascade_complete st selected liveFolder (folderChildOf false)
               (fileChildOf false) folderChildOf_live (A, B) P).
      intros f Hf He Hs. simpl. apply IA, HA0. exists f.
      repeat split; try assumption. apply andb_true_iff. split; [exact He |].
      now apply includes_In. }
    split.
    + intros x. split; [apply S | apply Hall].
    + intros y. split; [apply S |].
      apply (cascadeFile_complete st selected liveFolder liveFile
               (folderChildOf false) (fileChildOf false) fileChildOf_live (A, B) P Hall).
      intros f Hf He Hs. simpl. apply IB, HB0. exists f.
      repeat split; try assumption. apply andb_true_iff. split; [exact He |].
      now apply includes_In.
Qed.

Lemma restore_loop (st : DriveState) (selected : list Z) :
  forall l s,
    incl l (folders st) ->
    sound DriveFolder.trashed DriveFile.trashed st selected s ->
    pending st (folderChildOf true) (fileChildOf true) [] s ->
    exists s',
      forEachM (restoreRoot st selected) l s = Some s' /\
      incl (fst s) (fst s') /\ incl (snd s) (snd s') /\
      sound DriveFolder.trashed DriveFile.trashed st selected s' /\
      pending st (folderChildOf true) (fileChildOf true) [] s' /\
      (forall f, In f l -> DriveFolder.trashed f = true ->
                 In (DriveFolder.id f) selected -> In (DriveFolder.id f) (fst s')).
Proof.
  induction l as [| f l IH]; intros [A B] Hl Hs Hp.
  - exists (A, B). simpl. repeat split; try apply incl_refl; try apply Hs.
    + exact Hp.
    + intros f [].
  - assert (Hf : In f (folders st)) by (apply Hl; now left).
    assert (Hl' : incl l (folders st)) by (intros g Hg; apply Hl; now right).
    rewrite forEachM_cons. unfold restoreRoot at 1.
    destruct (DriveFolder.trashed f && includes selected (DriveFolder.id f)) eqn:Ec.
    + apply andb_true_iff in Ec. destruct Ec as [Et Es]. apply includes_In in Es.
      assert (Hc : restoreCascade st selected (DriveFolder.id f))
        by (now apply cascade_selected).
      destruct (collectChildren_spec true st (walkFuel st) (DriveFolder.id f)
                  (add A (DriveFolder.id f), B) (remaining_bound st _))
        as (s1 & E1 & P1 & C1).
      rewrite E1.
      assert (I1 := proj1 P1). assert (I2 := proj1 (proj2 P1)). simpl in I1, I2.
      destruct (IH s1 Hl') as (s' & E & IA & IB & S' & P' & R').
      * eapply walk_sound;
          [exact folderChildOf_trashed | exact fileChildOf_trashed | exact Hc | | exact P1].
        split; simpl; [| apply Hs].
        intros x Hx. apply In_add in Hx. destruct Hx as [Hx | ->]; [now apply Hs | exact Hc].
      * eapply walk_pending; [| exact P1 | exact C1]. now apply pending_add.
      * exists s'. split; [exact E |].
        split; [simpl; eapply incl_tran; [apply incl_add |]; eapply incl_tran; eassumption |].
        split; [simpl; eapply incl_tran; eassumption |].
        split; [exact S' |]. split; [exact P' |].
        intros g [<- | Hg] Ht Hsel; [| now apply R'].
        apply IA, I1, In_add. now right.
    + destruct (IH (A, B) Hl' Hs Hp) as (s' & E & IA & IB & S' & P' & R').
      exists s'. split; [exact E |].
      split; [exact IA |]. split; [exact IB |].
      split; [exact S' |]. split; [exact P' |].
      intros g [<- | Hg] Ht Hsel; [| now apply R'].
      rewrite Ht in Ec. apply includes_In in Hsel. rewrite Hsel in Ec. discriminate.
Qed.

(** [handleRestoreSelected] computes its two sets, and they are the cascade
    of the selection over the trashed items. *)
Lemma restoreSets_spec (st : DriveState) (selected : list Z) :
  exists A B, restoreSets st selected = Some (A, B) /\
    (forall x, In x A <-> restoreCascade st selected x) /\
    (forall y, In y B <-> restoreCascadeFile st selected y).
Proof.
  unfold restoreSets.
  destruct (restore_loop st selected (folders st) ([], []) (incl_refl _))
    as ([A B1] & E & _ & _ & S & P & R).
  - split; intros x [].
  - intros q [].
  - rewrite E. simpl in *.
    match goal with
    | |- exists A' B', Some (_, ?b) = _ /\ _ => set (B := b)
    end.
    assert (HB : forall y, In y B <->
              In y B1 \/
              exists f, In f (files st) /\
                DriveFile.trashed f && includes selected (DriveFile.id f) = true /\
                DriveFile.id f = y).
    { intros y. unfold B. apply fold_add_In. }
    assert (Hall : forall x, restoreCascade st selected x -> In x A).
    { apply (cascade_complete st selected DriveFolder.trashed (folderChildOf true)
               (fileChildOf true) folderChildOf_trashed (A, B1) P).
      intros f Hf He Hs. now apply R. }
    exists A, B. split; [reflexivity |]. split.
    + intros x. split; [apply S | apply Hall].
    + intros y. split.
      * intros Hy. apply HB in Hy. destruct Hy as [Hy | (f & Hf & Hc & <-)].
        -- now apply S.
        -- apply andb_true_iff in Hc. destruct Hc as [Ht Hs].
           exists f. repeat split; try assumption. left. now apply includes_In.
      * apply (cascadeFile_complete st selected DriveFolder.trashed DriveFile.trashed
                 (folderChildOf true) (fileChildOf true) fileChildOf_trashed (A, B)).
        -- apply pending_files with (B := B1); [| exact P].
           intros z Hz. apply HB. now left.
        -- exact Hall.
        -- intros f Hf He Hs. simpl. apply HB. right. exists f.
           repeat split; try assumption. apply andb_true_iff. split; [exact He |].
           now apply includes_In.
Qed.

(** ** The walk of permanent delete *)

Section MarkFolderAndChildren.

Variable st : DriveState.

Let post := walk_post st anyFolderChildOf anyFileChildOf.

Lemma mark_loop (k : nat) (p : Z)
  (IH : forall c s, (remaining st (fst s) < k)%nat ->
        (exists f, In f (folders st) /\ DriveFolder.id f = c) ->
        exists s', markFolderAndChildren st k c s = Some s' /\
                   post c s s' /\ In c (fst s')) :
  forall l s, incl l (folders st) -> (remaining st (fst s) < k)%nat ->
  exists s',
    forEachM (markChild (markFolderAndChildren st k) p) l s = Some s' /\
    post p s s' /\
    (forall f, In f l -> anyFolderChildOf p f = true ->
               In (DriveFolder.id f) (fst s')).
Proof.
  induction l as [| f l IHl]; intros s Hl Hr.
  - exists s. simpl. split; [reflexivity |].
    split; [apply walk_post_refl | intros f []].
  - assert (Hf : In f (folders st)) by (apply Hl; now left).
    assert (Hl' : incl l (folders st)) by (intros g Hg; apply Hl; now right).
    rewrite forEachM_cons. unfold markChild at 1.
    fold (anyFolderChildOf p f).
    destruct (anyFolderChildOf p f) eqn:Ec.
    + destruct (IH (DriveFolder.id f) s Hr) as (s1 & E1 & P1 & M1);
        [now exists f |].
      rewrite E1.
      assert (I1 := proj1 P1).
      destruct (IHl s1 Hl') as (s' & E & P & C).
      { assert (L := remaining_mono st (fst s) (fst s1) I1). lia. }
      exists s'. split; [exact E |]. split.
      * eapply walk_post_trans; [| exact P].
        eapply walk_post_nested; eassumption.
      * intros g [<- | Hg] Hc; [| now apply C].
        destruct P as (PA & _). now apply PA.
    + destruct (IHl s Hl' Hr) as (s' & E & P & C).
      exists s'. split; [exact E |]. split; [exact P |].
      intros g [<- | Hg] Hc; [congruence | now apply C].
Qed.

(** [markFolderAndChildren] returns as soon as the fuel exceeds the number
    of folder ids not yet marked; its result holds the start [p] and is a
    walk from [p]. *)
Lemma markFolderAndChildren_spec :
  forall fuel p s, (remaining st (fst s) < fuel)%nat ->
  (exists f, In f (folders st) /\ DriveFolder.id f = p) ->
  exists s', markFolderAndChildren st fuel p s = Some s' /\
             post p s s' /\ In p (fst s').
Proof.
  induction fuel as [| k IH]; intros p [A B] Hr Hp; [lia |].
  simpl. destruct (has A p) eqn:Eh.
  - exists (A, B). split; [reflexivity |].
    split; [apply walk_post_refl | now apply has_In].
  - destruct Hp as (fp & Hfp & <-).
    destruct (mark_loop k (DriveFolder.id fp) IH (folders st)
                (add A (DriveFolder.id fp), B) (incl_refl _))
      as ([A' B'] & E & P & C).
    { simpl in *. assert (L := remaining_add st A fp Hfp Eh). lia. }
    rewrite E.
    destruct (walk_post_files st anyFolderChildOf anyFileChildOf (DriveFolder.id fp)
                (add A (DriveFolder.id fp), B) A' B'
                (markFiles st (DriveFolder.id fp) B') P) as [P' F'].
    { intros y. unfold markFiles. apply fold_add_In. }
    exists (A', markFiles st (DriveFolder.id fp) B'). split; [reflexivity |].
    split.
    + apply walk_post_start; [exact P' |]. split; simpl.
      * intros f Hf Hc. now apply C.
      * exact F'.
    + simpl. destruct P as (PA & _). apply PA. simpl. apply In_add. now right.
Qed.

End MarkFolderAndChildren.

Lemma anyFolderChildOf_any (p : Z) (f : DriveFolder.t) :
  anyFolderChildOf p f = anyFolder f && is_id (DriveFolder.parentId f) p.
Proof. reflexivity. Qed.

Lemma anyFileChildOf_any (p : Z) (f : DriveFile.t) :
  anyFileChildOf p f = anyFile f && is_id (DriveFile.parentId f) p.
Proof. reflexivity. Qed.

Lemma delete_loop (st : DriveState) (selected : list Z) :
  forall l s,
    incl l (folders st) ->
    sound anyFolder anyFile st selected s ->
    pending st anyFolderChildOf anyFileChildOf [] s ->
    exists s',
      forEachM (deleteRoot st selected) l s = Some s' /\
      incl (fst s) (fst s') /\ incl (snd s) (snd s') /\
      sound anyFolder anyFile st selected s' /\
      pending st anyFolderChildOf anyFileChildOf [] s' /\
      (forall f, In f l -> In (DriveFolder.id f) selected ->
                 In (DriveFolder.id f) (fst s')).
Proof.
  induction l as [| f l IH]; intros s Hl Hs Hp.
  - exists s. simpl. split; [reflexivity |].
    split; [apply incl_refl |]. split; [apply incl_refl |].
    split; [exact Hs |]. split; [exact Hp | intros f []].
  - assert (Hf : In f (folders st)) by (apply Hl; now left).
    assert (Hl' : incl l (folders st)) by (intros g Hg; apply Hl; now right).
    rewrite forEachM_cons. unfold deleteRoot at 1.
    destruct (includes selected (DriveFolder.id f)) eqn:Ec.
    + apply includes_In in Ec.
      assert (Hc : deleteCascade st selected (DriveFolder.id f))
        by (now apply cascade_selected).
      destruct (markFolderAndChildren_spec st (walkFuel st) (DriveFolder.id f) s
                  (remaining_bound st _)) as (s1 & E1 & P1 & M1);
        [now exists f |].
      rewrite E1.
      assert (I1 := proj1 P1). assert (I2 := proj1 (proj2 P1)).
      destruct (IH s1 Hl') as (s' & E & IA & IB & S' & P' & R').
      * eapply walk_sound;
          [exact anyFolderChildOf_any | exact anyFileChildOf_any | exact Hc
          | exact Hs | exact P1].
      * eapply walk_pending_nil; eassumption.
      * exists s'. split; [exact E |].
        split; [eapply incl_tran; eassumption |].
        split; [eapply incl_tran; eassumption |].
        split; [exact S' |]. split; [exact P' |].
        intros g [<- | Hg] Hsel; [now apply IA | now apply R'].
    + destruct (IH s Hl' Hs Hp) as (s' & E & IA & IB & S' & P' & R').
      exists s'. split; [exact E |].
      split; [exact IA |]. split; [exact IB |].
      split; [exact S' |]. split; [exact P' |].
      intros g [<- | Hg] Hsel; [| now apply R'].
      apply includes_In in Hsel. congruence.
Qed.

(** [handlePermanentDeleteSelected] computes its two sets, and they are the
    cascade of the selection over all items, trashed or not. *)
Lemma deleteSets_spec (st : DriveState) (selected : list Z) :
  exists A B, deleteSets st selected = Some (A, B) /\
    (forall x, In x A <-> deleteCascade st selected x) /\
    (forall y, In y B <-> deleteCascadeFile st selected y).
Proof.
  unfold deleteSets.
  destruct (delete_loop st selected (folders st) ([], []) (incl_refl _))
    as ([A B1] & E & _ & _ & S & P & R).
  - split; intros x [].
  - intros q [].
  - rewrite E. simpl in *.
    match goal with
    | |- exists A' B', Some (_, ?b) = _ /\ _ => set (B := b)
    end.
    assert (HB : forall y, In y B <->
              In y B1 \/
              exists f, In f (files st) /\
                includes selected (DriveFile.id f) = true /\ DriveFile.id f = y).
    { intros y. unfold B. apply fold_add_In. }
    assert (Hall : forall x, deleteCascade st selected x -> In x A).
    { apply (cascade_complete st selected anyFolder anyFolderChildOf
               anyFileChildOf anyFolderChildOf_any (A, B1) P).
      intros f Hf He Hs. now apply R. }
    exists A, B. split; [reflexivity |]. split.
    + intros x. split; [apply S | apply Hall].
    + intros y. split.
      * intros Hy. apply HB in Hy. destruct Hy as [Hy | (f & Hf & Hc & <-)].
        -- now apply S.
        -- exists f. repeat split; try assumption. left. now apply includes_In.
      * apply (cascadeFile_complete st selected anyFolder anyFile
                 anyFolderChildOf anyFileChildOf anyFileChildOf_any (A, B)).
        -- apply pending_files with (B := B1); [| exact P].
           intros z Hz. apply HB. now left.
        -- exact Hall.
        -- intros f Hf He Hs. simpl. apply HB. right. exists f.
           repeat split; try assumption. now apply includes_In.
Qed.

(** ** The handlers run to their end *)

Lemma Forall2_map_self {A B : Type} (R : A -> B -> Prop) (g : A -> B)
  (l : list A) :
  (forall x, In x l -> R x (g x)) -> Forall2 R l (map g l).
Proof.
  induction l as [| a l IH]; intros H; simpl; constructor.
  - apply H. now left.
  - apply IH. intros x Hx. apply H. now right.
Qed.

Lemma NoDup_key_inj {A : Type} (key : A -> Z) (l : list A) (a b : A) :
  NoDup (map key l) -> In a l -> In b l -> key a = key b -> a = b.
Proof.
  induction l as [| c l IH]; intros Hnd Ha Hb E; [destruct Ha |].
  simpl in Hnd. inversion Hnd as [| ? ? Hc Hnd']; subst.
  destruct Ha as [-> | Ha], Hb as [-> | Hb].
  - reflexivity.
  - exfalso. apply Hc. rewrite E. now apply in_map.
  - exfalso. apply Hc. rewrite <- E. now apply in_map.
  - now apply IH.
Qed.

Lemma length_zero_nil {A : Type} (l : list A) :
  (List.length l =? 0)%nat = true -> l = [].
Proof. destruct l; [reflexivity | discriminate]. Qed.

Lemma applyTrash_nil (st : DriveState) : applyTrash ([], []) st = st.
Proof.
  destruct st as [r fo fi]. unfold applyTrash. simpl.
  now rewrite !map_id.
Qed.

Lemma applyRestore_nil (root : Z) (st : DriveState) :
  applyRestore root ([], []) st = st.
Proof.
  destruct st as [r fo fi]. unfold applyRestore. simpl.
  now rewrite !map_id.
Qed.

Lemma applyDelete_nil (st : DriveState) : applyDelete ([], []) st = st.
Proof.
  destruct st as [r fo fi]. unfold applyDelete. simpl. f_equal.
  - induction fo as [| a l IH]; simpl; [reflexivity | now rewrite IH].
  - induction fi as [| a l IH]; simpl; [reflexivity | now rewrite IH].
Qed.

Lemma forEachM_const_nil {A : Type} (f : A -> IdSet * IdSet -> option (IdSet * IdSet))
  (l : list A) (s : IdSet * IdSet) :
  (forall x, In x l -> f x s = Some s) -> forEachM f l s = Some s.
Proof.
  induction l as [| a l IH]; intros H; simpl; [reflexivity |].
  rewrite (H a (or_introl eq_refl)). apply IH. intros x Hx. apply H. now right.
Qed.

Lemma fold_add_none {A : Type} (p : A -> bool) (key : A -> Z) (l : list A)
  (B : IdSet) :
  (forall x, p x = false) ->
  fold_left (fun acc x => if p x then add acc (key x) else acc) l B = B.
Proof.
  intros H. revert B. induction l as [| a l IH]; intros B; simpl; [reflexivity |].
  now rewrite H.
Qed.

Lemma includes_nil (x : Z) : includes [] x = false.
Proof. reflexivity. Qed.

Lemma trashSets_nil (st : DriveState) : trashSets st [] = Some ([], []).
Proof.
  unfold trashSets. cbv zeta.
  rewrite (fold_add_none (fun f => negb (DriveFolder.trashed f) && includes [] (DriveFolder.id f))
             DriveFolder.id)
    by (intros f; now rewrite includes_nil, andb_false_r).
  rewrite (fold_add_none (fun f => negb (DriveFile.trashed f) && includes [] (DriveFile.id f))
             DriveFile.id)
    by (intros f; now rewrite includes_nil, andb_false_r).
  reflexivity.
Qed.

Lemma restoreSets_nil (st : DriveState) : restoreSets st [] = Some ([], []).
Proof.
  unfold restoreSets. rewrite forEachM_const_nil.
  - rewrite (fold_add_none (fun f => DriveFile.trashed f && includes [] (DriveFile.id f))
               DriveFile.id)
      by (intros f; now rewrite includes_nil, andb_false_r).
    reflexivity.
  - intros f _. unfold restoreRoot. now rewrite includes_nil, andb_false_r.
Qed.

Lemma deleteSets_nil (st : DriveState) : deleteSets st [] = Some ([], []).
Proof.
  unfold deleteSets. rewrite forEachM_const_nil.
  - rewrite (fold_add_none (fun f => includes [] (DriveFile.id f)) DriveFile.id)
      by (intros f; apply includes_nil).
    reflexivity.
  - intros f _. reflexivity.
Qed.

(** With a state loaded and the dialog confirmed,
    [handleMoveToTrashSelected] ends, applies the sets of the selection and
    leaves no selection. *)
Lemma moveToTrash_run (b : Browser) (st : DriveState) :
  state b = Some st ->
  exists A B b',
    trashSets st (selectedIds b) = Some (A, B) /\
    handleMoveToTrashSelected true b = Some b' /\
    state b' = Some (applyTrash (A, B) st) /\
    selectedIds b' = [].
Proof.
  intros Hst. unfold handleMoveToTrashSelected. rewrite Hst.
  destruct (List.length (selectedIds b) =? 0)%nat eqn:El.
  - apply length_zero_nil in El. rewrite El.
    exists [], [], b. rewrite trashSets_nil, applyTrash_nil. auto.
  - destruct (trashSets_spec st (selectedIds b)) as (A & B & E & _).
    rewrite E. simpl.
    eexists A, B, _. split; [reflexivity |]. split; [reflexivity |].
    destruct (truthy (currentFolderId b) && _); split; reflexivity.
Qed.

Lemma restore_run (b : Browser) (st : DriveState) :
  state b = Some st ->
  exists A B b',
    restoreSets st (selectedIds b) = Some (A, B) /\
    handleRestoreSelected b = Some b' /\
    state b' = Some (applyRestore (rootFolderId st) (A, B) st) /\
    selectedIds b' = [].
Proof.
  intros Hst. unfold handleRestoreSelected. rewrite Hst.
  destruct (List.length (selectedIds b) =? 0)%nat eqn:El.
  - apply length_zero_nil in El. rewrite El.
    exists [], [], b. rewrite restoreSets_nil, applyRestore_nil. auto.
  - destruct (restoreSets_spec st (selectedIds b)) as (A & B & E & _).
    rewrite E. eexists A, B, _. repeat split; reflexivity.
Qed.

Lemma permanentDelete_run (b : Browser) (st : DriveState) :
  state b = Some st ->
  exists A B b',
    deleteSets st (selectedIds b) = Some (A, B) /\
    handlePermanentDeleteSelected true b = Some b' /\
    state b' = Some (applyDelete (A, B) st) /\
    selectedIds b' = [].
Proof.
  intros Hst. unfold handlePermanentDeleteSelected. rewrite Hst.
  destruct (List.length (selectedIds b) =? 0)%nat eqn:El.
  - apply length_zero_nil in El. rewrite El.
    exists [], [], b. rewrite deleteSets_nil, applyDelete_nil. auto.
  - destruct (deleteSets_spec st (selectedIds b)) as (A & B & E & _).
    rewrite E. simpl. eexists A, B, _. repeat split; reflexivity.
Qed.

(** ** Move to trash *)

Lemma cascade_folder (eligible : DriveFolder.t -> bool) (st : DriveState)
  (selected : list Z) (x : Z) :
  cascade eligible st selected x ->
  exists f, In f (folders st) /\ DriveFolder.id f = x /\ eligible f = true.
Proof. intros H. destruct H as [f Hf He _ | f p Hf He _ _]; exists f; auto. Qed.

Lemma trashFolder_from (f : DriveFolder.t) : folderTrashedFrom f (trashFolder f).
Proof.
  unfold folderTrashedFrom, trashFolder, nullish. simpl.
  repeat split. now destruct (DriveFolder.originalParentId f).
Qed.

Lemma trashFile_from (f : DriveFile.t) : fileTrashedFrom f (trashFile f).
Proof.
  unfold fileTrashedFrom, trashFile, nullish. simpl.
  repeat split. now destruct (DriveFile.originalParentId f).
Qed.

Ltac nodup_ids :=
  simpl; repeat constructor; simpl; intuition discriminate.

(** C2.  With the ids of each collection unique, moving to trash marks every
    selected folder or file that is not trashed, and recursively every
    folder or file that is not trashed and whose parent was marked:
    [trashed] becomes true and [originalParentId] takes the current
    [parentId] only when it was null; an item outside that closure is left
    as it was.  The closure follows links between items that are not
    trashed only: the walk does not enter a folder that is already
    trashed, so what lies below such a folder is outside the closure. *)
Theorem moveToTrash_marks_closure (b : Browser) (st : DriveState) :
  state b = Some st ->
  NoDup (map DriveFolder.id (folders st)) ->
  NoDup (map DriveFile.id (files st)) ->
  exists b' st',
    handleMoveToTrashSelected true b = Some b' /\
    state b' = Some st' /\
    rootFolderId st' = rootFolderId st /\
    Forall2 (fun f f' =>
               (inTrashClosure st (selectedIds b) f -> folderTrashedFrom f f') /\
               (~ inTrashClosure st (selectedIds b) f -> f' = f))
            (folders st) (folders st') /\
    Forall2 (fun f f' =>
               (inTrashClosureFile st (selectedIds b) f -> fileTrashedFrom f f') /\
               (~ inTrashClosureFile st (selectedIds b) f -> f' = f))
            (files st) (files st').
Proof.
  intros Hst NDf NDfi.
  destruct (moveToTrash_run b st Hst) as (A & B & b' & E & Hrun & Hs & _).
  destruct (trashSets_spec st (selectedIds b)) as (A' & B' & E' & HA & HB).
  rewrite E in E'. injection E' as <- <-.
  exists b', (applyTrash (A, B) st).
  split; [exact Hrun |]. split; [exact Hs |]. split; [reflexivity |].
  simpl. split.
  - apply Forall2_map_self. intros f Hf. split.
    + intros [_ Hc]. apply HA, has_In in Hc. rewrite Hc. apply trashFolder_from.
    + intros Hn. destruct (has A (DriveFolder.id f)) eqn:Eh; [| reflexivity].
      exfalso. apply Hn. apply has_In, HA in Eh. split; [| exact Eh].
      destruct (cascade_folder _ _ _ _ Eh) as (g & Hg & Eg & Hlive).
      assert (g = f) by (eapply NoDup_key_inj; eassumption). subst g.
      unfold liveFolder in Hlive. now apply negb_true_iff in Hlive.
  - apply Forall2_map_self. intros f Hf. split.
    + intros [_ Hc]. apply HB, has_In in Hc. rewrite Hc. apply trashFile_from.
    + intros Hn. destruct (has B (DriveFile.id f)) eqn:Eh; [| reflexivity].
      exfalso. apply Hn. apply has_In, HB in Eh. split; [| exact Eh].
      destruct Eh as (g & Hg & Eg & Hlive & _).
      assert (g = f) by (eapply NoDup_key_inj; eassumption). subst g.
      unfold liveFile in Hlive. now apply negb_true_iff in Hlive.
Qed.

Lemma moveToTrash_marks_closure_witness :
  exists b' st',
    handleMoveToTrashSelected true (browse sampleState [2]) = Some b' /\
    state b' = Some st' /\
    rootFolderId st' = rootFolderId sampleState /\
    Forall2 (fun f f' =>
               (inTrashClosure sampleState [2] f -> folderTrashedFrom f f') /\
               (~ inTrashClosure sampleState [2] f -> f' = f))
            (folders sampleState) (folders st') /\
    Forall2 (fun f f' =>
               (inTrashClosureFile sampleState [2] f -> fileTrashedFrom f f') /\
               (~ inTrashClosureFile sampleState [2] f -> f' = f))
            (files sampleState) (files st').
Proof.
  apply (moveToTrash_marks_closure (browse sampleState [2]) sampleState).
  - reflexivity.
  - nodup_ids.
  - nodup_ids.
Defined.

(** C2 as the spec states it fails below a folder that is already
    trashed.  [nestedState] is reached from a drive four folders deep by
    moving [Notes] to trash and restoring [Drafts] alone.  Moving [Docs]
    to trash then marks [Docs] only: the walk does not enter [Notes],
    which is trashed, so [Drafts] and [n.txt], which are not trashed and
    lie below [Docs], are left as they were. *)
Lemma moveToTrash_skips_below_trashed :
  runOps [MoveToTrash [3]; Restore [4]] (browse deepState []) =
    Some (browse nestedState []) /\
  ~ trashMarksDescendants (browse nestedState [2]).
Proof.
  split; [vm_compute; reflexivity |].
  intros H.
  destruct (H nestedState eq_refl ltac:(nodup_ids) ltac:(nodup_ids))
    as (b' & st' & Hrun & Hst' & HF & _).
  vm_compute in Hrun. injection Hrun as <-.
  simpl in Hst'. injection Hst' as <-.
  simpl in HF.
  inversion HF as [| ? ? ? ? _ HF1]; subst.
  inversion HF1 as [| ? ? ? ? _ HF2]; subst.
  inversion HF2 as [| ? ? ? ? _ HF3]; subst.
  inversion HF3 as [| ? ? ? ? [Hin _] _]; subst.
  assert (Hc : inDeepTrashClosure nestedState [2] folderDrafts).
  { split; [reflexivity |]. right. exists folderDocs.
    repeat split; [simpl; tauto | simpl; tauto |].
    apply (descends_step nestedState anyFolderChildOf 2 folderDrafts 3).
    - apply (descends_child nestedState anyFolderChildOf 2
               (trashFolder folderNotes)); [simpl; tauto | reflexivity].
    - simpl. tauto.
    - reflexivity. }
  destruct (Hin Hc) as (_ & _ & _ & Ht & _). discriminate Ht.
Qed.

(** ** The selection after an operation *)

(** C10.  Once a state is loaded and the dialog, where there is one, is
    confirmed, each of move to trash, restore and permanent delete ends with
    an empty selection, whatever was selected and whatever the section; so
    does empty trash whenever something is trashed. *)
Theorem operations_clear_selection (b : Browser) (st : DriveState) :
  state b = Some st ->
  (exists b1, handleMoveToTrashSelected true b = Some b1 /\ selectedIds b1 = []) /\
  (exists b2, handleRestoreSelected b = Some b2 /\ selectedIds b2 = []) /\
  (exists b3, handlePermanentDeleteSelected true b = Some b3 /\ selectedIds b3 = []) /\
  (hasTrash b = true -> selectedIds (handleEmptyTrash true b) = []).
Proof.
  intros Hst. repeat apply conj.
  - destruct (moveToTrash_run b st Hst) as (_ & _ & b' & _ & H & _ & S). eauto.
  - destruct (restore_run b st Hst) as (_ & _ & b' & _ & H & _ & S). eauto.
  - destruct (permanentDelete_run b st Hst) as (_ & _ & b' & _ & H & _ & S). eauto.
  - intros Ht. unfold handleEmptyTrash. rewrite Hst, Ht. reflexivity.
Qed.

Lemma operations_clear_selection_witness :
  (exists b1, handleMoveToTrashSelected true (browse trashedDocsState [2; 10]) = Some b1 /\
              selectedIds b1 = []) /\
  (exists b2, handleRestoreSelected (browse trashedDocsState [2; 10]) = Some b2 /\
              selectedIds b2 = []) /\
  (exists b3, handlePermanentDeleteSelected true (browse trashedDocsState [2; 10]) = Some b3 /\
              selectedIds b3 = []) /\
  selectedIds (handleEmptyTrash true (browse trashedDocsState [2; 10])) = [].
Proof.
  destruct (operations_clear_selection (browse trashedDocsState [2; 10])
              trashedDocsState eq_refl) as (H1 & H2 & H3 & H4).
  exact (conj H1 (conj H2 (conj H3 (H4 eq_refl)))).
Defined.

(** ** Permanent delete *)

Lemma deleteCascade_descends (st : DriveState) (selected : list Z) (p x : Z) :
  deleteCascade st selected p -> descends st anyFolderChildOf p x ->
  deleteCascade st selected x.
Proof.
  apply (cascade_descends st selected anyFolder anyFolderChildOf anyFolderChildOf_any).
Qed.

(** C3.  Permanent delete with folder [F] in the selection removes [F],
    every folder reached from [F] through [parentId] links whatever its
    [trashed] flag, every file whose [parentId] is one of these folders,
    and every selected file; no folder or file that is left has the id of a
    removed folder as its [parentId]. *)
Theorem permanentDelete_removes_subtree (b : Browser) (st : DriveState)
  (F : DriveFolder.t) :
  state b = Some st ->
  In F (folders st) ->
  In (DriveFolder.id F) (selectedIds b) ->
  exists b' st',
    handlePermanentDeleteSelected true b = Some b' /\
    state b' = Some st' /\
    (forall g, In g (folders st') ->
       In g (folders st) /\
       DriveFolder.id g <> DriveFolder.id F /\
       ~ descends st anyFolderChildOf (DriveFolder.id F) (DriveFolder.id g)) /\
    (forall f, In f (files st') ->
       In f (files st) /\
       ~ In (DriveFile.id f) (selectedIds b) /\
       forall p, DriveFile.parentId f = Some p ->
         p <> DriveFolder.id F /\
         ~ descends st anyFolderChildOf (DriveFolder.id F) p) /\
    (forall r, In r (folders st) -> ~ In r (folders st') ->
       (forall g, In g (folders st') ->
          DriveFolder.parentId g <> Some (DriveFolder.id r)) /\
       (forall f, In f (files st') ->
          DriveFile.parentId f <> Some (DriveFolder.id r))).
Proof.
  intros Hst HF Hsel.
  destruct (permanentDelete_run b st Hst) as (A & B & b' & E & Hrun & Hs & _).
  destruct (deleteSets_spec st (selectedIds b)) as (A' & B' & E' & HA & HB).
  rewrite E in E'. injection E' as <- <-.
  assert (HcF : deleteCascade st (selectedIds b) (DriveFolder.id F))
    by (now apply cascade_selected).
  exists b', (applyDelete (A, B) st).
  split; [exact Hrun |]. split; [exact Hs |]. simpl.
  assert (Hkeep : forall g, In g (filter (fun f => negb (has A (DriveFolder.id f))) (folders st)) ->
            In g (folders st) /\ ~ deleteCascade st (selectedIds b) (DriveFolder.id g)).
  { intros g Hg. apply filter_In in Hg. destruct Hg as [Hg Hn]. split; [exact Hg |].
    apply negb_true_iff, has_false in Hn. intros C. now apply Hn, HA. }
  assert (Hkeepf : forall f, In f (filter (fun f => negb (has B (DriveFile.id f))) (files st)) ->
            In f (files st) /\ ~ deleteCascadeFile st (selectedIds b) (DriveFile.id f)).
  { intros f Hf. apply filter_In in Hf. destruct Hf as [Hf Hn]. split; [exact Hf |].
    apply negb_true_iff, has_false in Hn. intros C. now apply Hn, HB. }
  repeat apply conj.
  - intros g Hg. destruct (Hkeep g Hg) as [Hin Hn]. split; [exact Hin |]. split.
    + intros Eq. apply Hn. now rewrite Eq.
    + intros Hd. apply Hn. eapply deleteCascade_descends; eassumption.
  - intros f Hf. destruct (Hkeepf f Hf) as [Hin Hn]. split; [exact Hin |]. split.
    + intros Hs'. apply Hn. exists f. repeat split; auto.
    + intros p Hp. split.
      * intros ->. apply Hn. exists f. repeat split; auto. right. eauto.
      * intros Hd. apply Hn. exists f. repeat split; auto. right.
        exists p. split; [exact Hp |]. eapply deleteCascade_descends; eassumption.
  - intros r Hr Hgone.
    assert (Hcr : deleteCascade st (selectedIds b) (DriveFolder.id r)).
    { apply HA, has_In. destruct (has A (DriveFolder.id r)) eqn:Eh; [reflexivity |].
      exfalso. apply Hgone. apply filter_In. split; [exact Hr |]. now rewrite Eh. }
    split.
    + intros g Hg Hp. destruct (Hkeep g Hg) as [Hin Hn]. apply Hn.
      eapply cascade_child; try eassumption. reflexivity.
    + intros f Hf Hp. destruct (Hkeepf f Hf) as [Hin Hn]. apply Hn.
      exists f. repeat split; auto. right. eauto.
Qed.

Lemma permanentDelete_removes_subtree_witness :
  exists b' st',
    handlePermanentDeleteSelected true (browse trashedDocsState [2]) = Some b' /\
    state b' = Some st' /\
    (forall g, In g (folders st') ->
       In g (folders trashedDocsState) /\
       DriveFolder.id g <> 2 /\
       ~ descends trashedDocsState anyFolderChildOf 2 (DriveFolder.id g)) /\
    (forall f, In f (files st') ->
       In f (files trashedDocsState) /\
       ~ In (DriveFile.id f) [2] /\
       forall p, DriveFile.parentId f = Some p ->
         p <> 2 /\ ~ descends trashedDocsState anyFolderChildOf 2 p) /\
    (forall r, In r (folders trashedDocsState) -> ~ In r (folders st') ->
       (forall g, In g (folders st') ->
          DriveFolder.parentId g <> Some (DriveFolder.id r)) /\
       (forall f, In f (files st') ->
          DriveFile.parentId f <> Some (DriveFolder.id r))).
Proof.
  apply (permanentDelete_removes_subtree (browse trashedDocsState [2])
           trashedDocsState (trashFolder folderDocs)).
  - reflexivity.
  - simpl. right. now left.
  - simpl. now left.
Defined.

(** ** Empty trash *)

Lemma In_trashedIds (st : DriveState) (x : Z) :
  In x (trashedIds st) <->
  (exists f, In f (folders st) /\ DriveFolder.trashed f = true /\ DriveFolder.id f = x) \/
  (exists f, In f (files st) /\ DriveFile.trashed f = true /\ DriveFile.id f = x).
Proof.
  unfold trashedIds. rewrite in_app_iff, !in_map_iff. split.
  - intros [(f & E & Hf) | (f & E & Hf)]; apply filter_In in Hf;
      destruct Hf as [Hf Ht]; [left | right]; exists f; auto.
  - intros [(f & Hf & Ht & E) | (f & Hf & Ht & E)]; [left | right];
      exists f; (split; [exact E | apply filter_In; auto]).
Qed.

Lemma filter_all {A : Type} (p : A -> bool) (l : list A) :
  existsb p l = false -> filter (fun x => negb (p x)) l = l.
Proof.
  induction l as [| a l IH]; simpl; [reflexivity |].
  intros H. apply orb_false_iff in H. destruct H as [Ha Hl].
  rewrite Ha. simpl. now rewrite IH.
Qed.

(** in a sealed trash the delete cascade of the trashed ids meets trashed
    folders only *)
Lemma sealed_cascade_trashed (st : DriveState) :
  trashSealed st ->
  forall x, deleteCascade st (trashedIds st) x ->
  forall g, In g (folders st) -> DriveFolder.id g = x -> DriveFolder.trashed g = true.
Proof.
  intros (S1 & _ & S3 & _) x Hx.
  induction Hx as [f Hf _ Hs | f p Hf _ Hpar Hp IH]; intros g Hg Eg.
  - apply S1; [exact Hg |]. now rewrite Eg.
  - destruct (cascade_folder _ _ _ _ Hp) as (fp & Hfp & Efp & _).
    assert (Tf : DriveFolder.trashed f = true).
    { apply (S3 f fp Hf Hfp); [now apply IH |]. now rewrite Efp. }
    apply S1; [exact Hg |]. rewrite Eg. apply In_trashedIds. left. exists f. auto.
Qed.

(** C4, as the code has it.  When the trash is sealed, empty trash leaves
    the local state of permanent delete applied to all trashed ids; and
    when nothing is trashed it changes nothing. *)
Theorem emptyTrash_is_delete_when_sealed (b : Browser) (st : DriveState) :
  state b = Some st ->
  trashSealed st ->
  option_map state
    (handlePermanentDeleteSelected true (setSelectedIds (trashedIds st) b)) =
  Some (state (handleEmptyTrash true b)) /\
  (hasTrash b = false -> handleEmptyTrash true b = b).
Proof.
  intros Hst Hseal. split.
  - destruct (permanentDelete_run (setSelectedIds (trashedIds st) b) st Hst)
      as (A & B & b' & E & Hrun & Hs & _).
    destruct (deleteSets_spec st (trashedIds st)) as (A' & B' & E' & HA & HB).
    simpl in E. rewrite E in E'. injection E' as <- <-.
    rewrite Hrun. simpl. rewrite Hs. f_equal.
    assert (Efo : filter (fun f => negb (has A (DriveFolder.id f))) (folders st) =
                  filter (fun f => negb (DriveFolder.trashed f)) (folders st)).
    { apply filter_ext_in. intros g Hg. f_equal.
      destruct (DriveFolder.trashed g) eqn:Tg.
      - apply has_In, HA. apply cascade_selected; [exact Hg | reflexivity |].
        apply In_trashedIds. left. exists g. auto.
      - apply has_false. intros C. apply HA in C.
        rewrite (sealed_cascade_trashed st Hseal _ C g Hg eq_refl) in Tg. discriminate. }
    assert (Efi : filter (fun f => negb (has B (DriveFile.id f))) (files st) =
                  filter (fun f => negb (DriveFile.trashed f)) (files st)).
    { apply filter_ext_in. intros g Hg. f_equal.
      destruct (DriveFile.trashed g) eqn:Tg.
      - apply has_In, HB. exists g. repeat split; auto. left.
        apply In_trashedIds. right. exists g. auto.
      - apply has_false. intros C. apply HB in C.
        destruct Hseal as (S1 & S2 & S3 & S4).
        destruct C as (f' & Hf' & Ef' & _ & [Hsel | (p & Hpar & Hp)]).
        + rewrite (S2 g Hg) in Tg; [discriminate | now rewrite <- Ef'].
        + destruct (cascade_folder _ _ _ _ Hp) as (fp & Hfp & Efp & _).
          assert (Tf' : DriveFile.trashed f' = true).
          { apply (S4 f' fp Hf' Hfp); [| now rewrite Efp].
            apply (sealed_cascade_trashed st (conj S1 (conj S2 (conj S3 S4))) p Hp fp Hfp Efp). }
          rewrite (S2 g Hg) in Tg; [discriminate |].
          rewrite <- Ef'. apply In_trashedIds. right. exists f'. auto. }
    unfold handleEmptyTrash. rewrite Hst.
    destruct (hasTrash b) eqn:Ht; simpl.
    + rewrite Efo, Efi. reflexivity.
    + rewrite Hst. f_equal. rewrite Efo, Efi.
      unfold hasTrash, foldersOf, filesOf in Ht. rewrite Hst in Ht.
      apply orb_false_iff in Ht. destruct Ht as [Ht1 Ht2].
      rewrite (filter_all _ _ Ht1), (filter_all _ _ Ht2).
      now destruct st.
  - intros Ht. unfold handleEmptyTrash. rewrite Hst, Ht. reflexivity.
Qed.

Lemma emptyTrash_is_delete_when_sealed_witness :
  option_map state
    (handlePermanentDeleteSelected true
       (setSelectedIds (trashedIds trashedDocsState) (browse trashedDocsState []))) =
  Some (state (handleEmptyTrash true (browse trashedDocsState []))) /\
  (hasTrash (browse trashedDocsState []) = false ->
   handleEmptyTrash true (browse trashedDocsState []) = browse trashedDocsState []).
Proof.
  apply (emptyTrash_is_delete_when_sealed (browse trashedDocsState []) trashedDocsState).
  - reflexivity.
  - unfold trashSealed. simpl. repeat apply conj.
    + intros f [<- | [<- | [<- | []]]] H; simpl in *; intuition discriminate.
    + intros f [<- | [<- | []]] H; reflexivity.
    + intros f g [<- | [<- | [<- | []]]] [<- | [<- | [<- | []]]] T P;
        simpl in *; congruence.
    + intros f g [<- | [<- | []]] Hg T P; reflexivity.
Defined.

(** C4 as the spec states it fails, in two ways.  In [strandedState] empty
    trash keeps [Notes] and [B.txt], which permanent delete of the trashed
    ids removes with [Docs].  In [aliasTrashState] the id of the trashed
    file is also the id of the folder [Keep], which permanent delete of
    that id removes and empty trash keeps. *)
Lemma emptyTrash_differs_from_delete :
  ~ emptyTrashAsDelete (browse strandedState []) /\
  ~ emptyTrashAsDelete (browse aliasTrashState []).
Proof.
  split; intros H.
  - specialize (H strandedState eq_refl). vm_compute in H. discriminate H.
  - specialize (H aliasTrashState eq_refl). vm_compute in H. discriminate H.
Qed.

(** ** Sequences of trash and restore *)

Lemma moveToTrash_keeps_live_tree (b : Browser) (st : DriveState) :
  state b = Some st -> noTrashedGap st ->
  exists b' st',
    handleMoveToTrashSelected true b = Some b' /\ state b' = Some st' /\
    noTrashedGap st'.
Proof.
  intros Hst [Gf Gfi].
  destruct (moveToTrash_run b st Hst) as (A & B & b' & E & Hrun & Hs & _).
  destruct (trashSets_spec st (selectedIds b)) as (A' & B' & E' & HA & HB).
  rewrite E in E'. injection E' as <- <-.
  exists b', (applyTrash (A, B) st). split; [exact Hrun |]. split; [exact Hs |].
  assert (Hlive : forall p,
            liveParent st (Some p) -> ~ In p A ->
            liveParent (applyTrash (A, B) st) (Some p)).
  { intros p (g & Hg & Eg & Tg) Hn. exists g. split; [| auto].
    simpl. apply in_map_iff. exists g. split; [| exact Hg].
    rewrite Eg. apply has_false in Hn. now rewrite Hn. }
  split; simpl.
  - intros f' Hf' Tf'. apply in_map_iff in Hf'. destruct Hf' as (f & <- & Hf).
    destruct (has A (DriveFolder.id f)) eqn:Eh; [discriminate |].
    destruct (DriveFolder.parentId f) as [p |] eqn:Ep; [| exact I].
    apply (Hlive p).
    + rewrite <- Ep. now apply Gf.
    + intros C. apply has_false in Eh. apply Eh, HA.
      apply cascade_child with (p := p); try assumption.
      * unfold liveFolder. now rewrite Tf'.
      * now apply HA.
  - intros f' Hf' Tf'. apply in_map_iff in Hf'. destruct Hf' as (f & <- & Hf).
    destruct (has B (DriveFile.id f)) eqn:Eh; [discriminate |].
    destruct (DriveFile.parentId f) as [p |] eqn:Ep; [| exact I].
    apply (Hlive p).
    + rewrite <- Ep. now apply Gfi.
    + intros C. apply has_false in Eh. apply Eh, HB.
      exists f. repeat split; try assumption.
      * unfold liveFile. now rewrite Tf'.
      * right. exists p. split; [exact Ep | now apply HA].
Qed.

Lemma restore_keeps_live_tree (b : Browser) (st : DriveState) :
  state b = Some st -> noTrashedGap st ->
  restoreLandsLive st (selectedIds b) ->
  exists b' st',
    handleRestoreSelected b = Some b' /\ state b' = Some st' /\
    noTrashedGap st'.
Proof.
  intros Hst [Gf Gfi] [Lf Lfi].
  destruct (restore_run b st Hst) as (A & B & b' & E & Hrun & Hs & _).
  destruct (restoreSets_spec st (selectedIds b)) as (A' & B' & E' & HA & HB).
  rewrite E in E'. injection E' as <- <-.
  set (root := rootFolderId st) in *.
  exists b', (applyRestore root (A, B) st). split; [exact Hrun |]. split; [exact Hs |].
  set (h := fun f => if has A (DriveFolder.id f) then restoreFolder root f else f).
  assert (Hh : forall g, In g (folders st) ->
            DriveFolder.trashed g = false \/ In (DriveFolder.id g) A ->
            In (h g) (folders (applyRestore root (A, B) st)) /\
            DriveFolder.id (h g) = DriveFolder.id g /\
            DriveFolder.trashed (h g) = false).
  { intros g Hg Hor. split; [simpl; now apply in_map |].
    unfold h. destruct (has A (DriveFolder.id g)) eqn:Eh; simpl; [auto |].
    split; [reflexivity |]. destruct Hor as [T | C]; [exact T |].
    apply has_In in C. congruence. }
  assert (Hland : forall p, landing st (selectedIds b) p ->
            liveParent (applyRestore root (A, B) st) p).
  { intros [q |] Hq; [| exact I]. destruct Hq as (g & Hg & Eg & Hor).
    destruct (Hh g Hg) as (H1 & H2 & H3).
    - destruct Hor as [T | C]; [now left | right]. rewrite Eg. now apply HA.
    - exists (h g). rewrite H2. auto. }
  assert (Hkeep : forall p, liveParent st p ->
            liveParent (applyRestore root (A, B) st) p).
  { intros [q |] Hq; [| exact I]. destruct Hq as (g & Hg & Eg & T).
    destruct (Hh g Hg (or_introl T)) as (H1 & H2 & H3).
    exists (h g). rewrite H2. auto. }
  split; simpl.
  - intros f' Hf' Tf'. apply in_map_iff in Hf'. destruct Hf' as (f & <- & Hf).
    destruct (has A (DriveFolder.id f)) eqn:Eh.
    + apply Hland, Lf; [exact Hf |]. now apply HA, has_In.
    + apply Hkeep. now apply Gf.
  - intros f' Hf' Tf'. apply in_map_iff in Hf'. destruct Hf' as (f & <- & Hf).
    destruct (has B (DriveFile.id f)) eqn:Eh.
    + apply Hland, Lfi; [exact Hf |]. now apply HB, has_In.
    + apply Hkeep. now apply Gfi.
Qed.

(** C5, as the code has it.  Along any sequence of move-to-trash and
    restore operations in which every restore lands its items on folders
    that are live afterwards, each operation ends and no item that is not
    trashed sits under a trashed folder. *)
Theorem trash_restore_keep_live_tree (ops : list TrashOp) (b : Browser)
  (st : DriveState) :
  state b = Some st -> noTrashedGap st -> allowedRun ops b ->
  exists b' st',
    runOps ops b = Some b' /\ state b' = Some st' /\ noTrashedGap st'.
Proof.
  revert b st. induction ops as [| op ops IH]; intros b st Hst Hgap Hrun.
  - exists b, st. auto.
  - destruct Hrun as [Hop Hrest]. specialize (Hop st Hst).
    assert (Hstep : exists b1 st1,
              runOp op b = Some b1 /\ state b1 = Some st1 /\ noTrashedGap st1).
    { destruct op as [sel | sel]; simpl in *.
      - now apply moveToTrash_keeps_live_tree with (st := st).
      - now apply restore_keeps_live_tree with (st := st). }
    destruct Hstep as (b1 & st1 & E1 & Hst1 & Hgap1).
    destruct (IH b1 st1 Hst1 Hgap1 (Hrest b1 E1)) as (b' & st' & E & Hst' & Hgap').
    exists b', st'. simpl. rewrite E1. auto.
Qed.

Lemma trash_restore_keep_live_tree_witness :
  exists b' st',
    runOps [MoveToTrash [2]; Restore [2]] (browse sampleState []) = Some b' /\
    state b' = Some st' /\ noTrashedGap st'.
Proof.
  apply (trash_restore_keep_live_tree [MoveToTrash [2]; Restore [2]]
           (browse sampleState []) sampleState).
  - reflexivity.
  - split.
    + intros f [<- | [<- | [<- | []]]] _; simpl; [exact I | |].
      * exists folderRoot. simpl. auto.
      * exists folderDocs. simpl. auto.
    + intros f [<- | [<- | []]] _; simpl.
      * exists folderDocs. simpl. auto.
      * exists folderNotes. simpl. auto.
  - split; [intros st _; exact I |].
    intros b1 E1. vm_compute in E1. injection E1 as <-.
    split; [| intros b2 _; exact I].
    intros st1 E. injection E as <-.
    assert (C2 : restoreCascade trashedDocsState [2] 2).
    { apply (cascade_selected DriveFolder.trashed trashedDocsState [2]
               (trashFolder folderDocs)); simpl; auto. }
    assert (C3 : restoreCascade trashedDocsState [2] 3).
    { apply (cascade_child DriveFolder.trashed trashedDocsState [2]
               (trashFolder folderNotes) 2); simpl; auto. }
    split.
    + intros f [<- | [<- | [<- | []]]] _; simpl.
      * exists folderRoot. simpl. auto.
      * exists folderRoot. simpl. auto.
      * exists (trashFolder folderDocs). simpl. auto.
    + intros f [<- | [<- | []]] _; simpl.
      * exists (trashFolder folderDocs). simpl. auto.
      * exists (trashFolder folderNotes). simpl. auto.
Defined.

Lemma sampleState_invariants : treeInvariants sampleState.
Proof.
  assert (R1 : rooted sampleState 1) by exact (rooted_root sampleState).
  assert (R2 : rooted sampleState 2).
  { apply (rooted_child sampleState folderDocs 1); simpl; auto. }
  assert (R3 : rooted sampleState 3).
  { apply (rooted_child sampleState folderNotes 2); simpl; auto. }
  unfold treeInvariants. repeat apply conj.
  - nodup_ids.
  - nodup_ids.
  - exists folderRoot. simpl. auto.
  - intros f [<- | [<- | [<- | []]]] _; assumption.
  - intros f [<- | [<- | [<- | []]]] _; simpl; [exact I | |].
    + exists folderRoot. simpl. auto.
    + exists folderDocs. simpl. auto.
  - intros f [<- | [<- | []]] _; simpl.
    + exists folderDocs. simpl. auto.
    + exists folderNotes. simpl. auto.
  - intros f [<- | [<- | [<- | []]]] H; now contradiction H.
  - intros f [<- | [<- | []]] H; now contradiction H.
Qed.

(** C5 as the spec states it fails: from the small drive, which has all the
    invariants, moving [Docs] to trash and then restoring [Notes] alone puts
    [Notes], not trashed, back under [Docs], which still is. *)
Lemma restore_under_trashed_parent : ~ gapFreeRuns (browse sampleState []).
Proof.
  intros H.
  assert (E : runOps [MoveToTrash [2]; Restore [3]] (browse sampleState []) =
              Some (browse strandedState [])) by (vm_compute; reflexivity).
  specialize (H sampleState _ _ strandedState eq_refl sampleState_invariants E eq_refl).
  destruct H as [Hf _].
  destruct (Hf folderNotes) as (g & Hg & Eg & Tg); simpl; auto.
  destruct Hg as [<- | [<- | [<- | []]]]; simpl in *; discriminate.
Qed.

(** ** Trash then restore *)

Section RoundTrip.

Variable st : DriveState.
Variable F : Z.
Variables A B : IdSet.

Hypothesis HA : forall x, In x A <-> trashCascade st [F] x.
Hypothesis HB : forall y, In y B <-> trashCascadeFile st [F] y.

Let st1 := applyTrash (A, B) st.
Let h1 := fun f => if has A (DriveFolder.id f) then trashFolder f else f.
Let k1 := fun f => if has B (DriveFile.id f) then trashFile f else f.

Lemma h1_fields (f : DriveFolder.t) :
  DriveFolder.id (h1 f) = DriveFolder.id f /\
  DriveFolder.name (h1 f) = DriveFolder.name f /\
  DriveFolder.parentId (h1 f) = DriveFolder.parentId f.
Proof. unfold h1. now destruct (has A (DriveFolder.id f)). Qed.

Lemma k1_fields (f : DriveFile.t) :
  DriveFile.id (k1 f) = DriveFile.id f /\
  DriveFile.name (k1 f) = DriveFile.name f /\
  DriveFile.parentId (k1 f) = DriveFile.parentId f.
Proof. unfold k1. now destruct (has B (DriveFile.id f)). Qed.

Lemma subtree_child (f : DriveFolder.t) (p : Z) :
  In f (folders st) -> DriveFolder.parentId f = Some p -> subtree st F p ->
  subtree st F (DriveFolder.id f).
Proof.
  intros Hf Hp [-> | Hd]; right.
  - apply descends_child; [exact Hf |]. now apply is_id_Some.
  - eapply descends_step; [exact Hd | exact Hf |]. now apply is_id_Some.
Qed.

Lemma trashCascade_subtree (x : Z) : trashCascade st [F] x -> subtree st F x.
Proof.
  intros H. induction H as [f Hf _ Hs | f p Hf _ Hp _ IH].
  - left. destruct Hs as [<- | []]. reflexivity.
  - eapply subtree_child; eassumption.
Qed.

Lemma trashed_in_st1 (f : DriveFolder.t) :
  In f (folders st) -> trashCascade st [F] (DriveFolder.id f) ->
  In (trashFolder f) (folders st1).
Proof.
  intros Hf Hc. simpl. apply in_map_iff. exists f. split; [| exact Hf].
  apply HA, has_In in Hc. now rewrite Hc.
Qed.

(** what was just trashed is what restore finds *)
Lemma trashCascade_restoreCascade (x : Z) :
  trashCascade st [F] x -> restoreCascade st1 [F] x.
Proof.
  intros H. induction H as [f Hf He Hs | f p Hf He Hp Hc IH].
  - apply (cascade_selected DriveFolder.trashed st1 [F] (trashFolder f)).
    + apply trashed_in_st1; [exact Hf |]. now apply cascade_selected.
    + reflexivity.
    + exact Hs.
  - apply (cascade_child DriveFolder.trashed st1 [F] (trashFolder f) p).
    + apply trashed_in_st1; [exact Hf |]. eapply cascade_child; eassumption.
    + reflexivity.
    + exact Hp.
    + exact IH.
Qed.

Lemma restoreCascade_subtree (x : Z) : restoreCascade st1 [F] x -> subtree st F x.
Proof.
  intros H. induction H as [f1 Hf1 _ Hs | f1 p Hf1 _ Hp _ IH].
  - left. destruct Hs as [<- | []]. reflexivity.
  - simpl in Hf1. apply in_map_iff in Hf1. destruct Hf1 as (f & <- & Hf).
    fold (h1 f) in *. destruct (h1_fields f) as (Ei & _ & Ep).
    rewrite Ei. rewrite Ep in Hp. eapply subtree_child; eassumption.
Qed.

Lemma trashCascadeFile_restoreCascadeFile (y : Z) :
  trashCascadeFile st [F] y -> restoreCascadeFile st1 [F] y.
Proof.
  intros Hy. assert (Hin := proj2 (HB y) Hy).
  destruct Hy as (f & Hf & <- & He & Hor).
  exists (trashFile f). split.
  - simpl. apply in_map_iff. exists f. split; [| exact Hf].
    apply has_In in Hin. now rewrite Hin.
  - split; [reflexivity |]. split; [reflexivity |].
    destruct Hor as [Hs | (p & Hp & Hc)]; [now left | right].
    exists p. split; [exact Hp |]. now apply trashCascade_restoreCascade.
Qed.

Lemma restoreCascadeFile_origin (y : Z) :
  restoreCascadeFile st1 [F] y ->
  exists f, In f (files st) /\ DriveFile.id f = y /\
    (DriveFile.id f = F \/
     exists p, DriveFile.parentId f = Some p /\ subtree st F p).
Proof.
  intros (f1 & Hf1 & <- & _ & Hor).
  simpl in Hf1. apply in_map_iff in Hf1. destruct Hf1 as (f & <- & Hf).
  fold (k1 f) in *. destruct (k1_fields f) as (Ei & _ & Ep).
  exists f. split; [exact Hf |]. split; [now rewrite Ei |].
  destruct Hor as [[Hs | []] | (p & Hp & Hc)].
  - left. now rewrite <- Ei.
  - right. exists p. split; [now rewrite <- Ep |]. now apply restoreCascade_subtree.
Qed.

End RoundTrip.

Lemma descends_parent (st : DriveState) (p x : Z) :
  descends st anyFolderChildOf p x ->
  exists f q, In f (folders st) /\ DriveFolder.id f = x /\
              DriveFolder.parentId f = Some q.
Proof.
  intros H. destruct H as [f Hf Hc | f q _ Hf Hc];
    apply is_id_Some in Hc; eauto.
Qed.

(** C1, as the code has it.  Ids being unique in each collection, let [F]
    be a folder id such that no folder of the subtree of [F] and no file in
    it, trashed or not, carries an [originalParentId], and such that the
    items with id [F] (the folder, and a file if one shares the id) have a
    [parentId] that is not null.  Then moving [F] to trash and restoring
    [F] at once puts every item touched back under its [parentId], not
    trashed and without [originalParentId]. *)
Theorem trash_then_restore_round_trip (b : Browser) (st : DriveState) (F : Z) :
  state b = Some st ->
  NoDup (map DriveFolder.id (folders st)) ->
  NoDup (map DriveFile.id (files st)) ->
  (forall f, In f (folders st) -> subtree st F (DriveFolder.id f) ->
             DriveFolder.originalParentId f = None) ->
  (forall f p, In f (files st) -> DriveFile.parentId f = Some p ->
               subtree st F p -> DriveFile.originalParentId f = None) ->
  (forall f, In f (folders st) -> DriveFolder.id f = F ->
             DriveFolder.parentId f <> None) ->
  (forall f, In f (files st) -> DriveFile.id f = F ->
             DriveFile.originalParentId f = None /\ DriveFile.parentId f <> None) ->
  roundTrips b st F.
Proof.
  intros Hst NDf NDfi Ofo Ofi PF Alias.
  destruct (moveToTrash_run (setSelectedIds [F] b) st Hst)
    as (A & B & b1 & E & Hrun1 & Hs1 & _).
  destruct (trashSets_spec st [F]) as (A' & B' & E' & HA & HB).
  simpl in E. rewrite E in E'. injection E' as <- <-.
  destruct (restore_run (setSelectedIds [F] b1) (applyTrash (A, B) st) Hs1)
    as (A2 & B2 & b2 & E2 & Hrun2 & Hs2 & _).
  destruct (restoreSets_spec (applyTrash (A, B) st) [F]) as (A2' & B2' & E2' & HA2 & HB2).
  change (selectedIds (setSelectedIds [F] b1)) with [F] in E2.
  rewrite E2 in E2'. injection E2' as <- <-.
  exists b1, (applyTrash (A, B) st), b2,
    (applyRestore (rootFolderId (applyTrash (A, B) st)) (A2, B2) (applyTrash (A, B) st)).
  split; [exact Hrun1 |]. split; [exact Hs1 |].
  split; [exact Hrun2 |]. split; [exact Hs2 |].
  simpl. rewrite !map_map. split.
  - apply Forall2_map_self. intros f Hf Hor.
    assert (HR : restoreCascade (applyTrash (A, B) st) [F] (DriveFolder.id f)).
    { destruct Hor as [HT | HR]; [| exact HR].
      now apply (trashCascade_restoreCascade st F A B HA). }
    assert (Hsub : subtree st F (DriveFolder.id f))
      by (now apply (restoreCascade_subtree st F A B)).
    assert (Ho : DriveFolder.originalParentId f = None) by (now apply Ofo).
    assert (Hp : exists q, DriveFolder.parentId f = Some q).
    { destruct Hsub as [Eq | Hd].
      - specialize (PF f Hf Eq). destruct (DriveFolder.parentId f); [eauto | congruence].
      - destruct (descends_parent st F _ Hd) as (g & q & Hg & Eg & Pg).
        assert (g = f) by (eapply NoDup_key_inj; eassumption). subst g. eauto. }
    destruct Hp as (q & Hp).
    assert (Hid : DriveFolder.id (if has A (DriveFolder.id f) then trashFolder f else f)
                  = DriveFolder.id f) by (now destruct (has A (DriveFolder.id f))).
    rewrite Hid. apply HA2, has_In in HR. rewrite HR.
    unfold folderBackInPlace, restoreFolder, trashFolder, nullish.
    destruct (has A (DriveFolder.id f)); simpl; rewrite ?Ho, Hp; simpl; auto.
  - apply Forall2_map_self. intros f Hf Hor.
    assert (HR : restoreCascadeFile (applyTrash (A, B) st) [F] (DriveFile.id f)).
    { destruct Hor as [HT | HR]; [| exact HR].
      now apply (trashCascadeFile_restoreCascadeFile st F A B HA HB). }
    assert (Hfields : DriveFile.originalParentId f = None /\
                      exists q, DriveFile.parentId f = Some q).
    { destruct (restoreCascadeFile_origin st F A B _ HR) as (g & Hg & Eg & Hor').
      assert (g = f) by (eapply NoDup_key_inj; eassumption). subst g.
      destruct Hor' as [Eq | (p & Pp & Hsub)].
      - destruct (Alias f Hf Eq) as [Ho Hn]. split; [exact Ho |].
        destruct (DriveFile.parentId f); [eauto | congruence].
      - split; [| eauto]. eapply Ofi; eassumption. }
    destruct Hfields as (Ho & q & Hp).
    assert (Hid : DriveFile.id (if has B (DriveFile.id f) then trashFile f else f)
                  = DriveFile.id f) by (now destruct (has B (DriveFile.id f))).
    rewrite Hid. apply HB2, has_In in HR. rewrite HR.
    unfold fileBackInPlace, restoreFile, trashFile, nullish.
    destruct (has B (DriveFile.id f)); simpl; rewrite ?Ho, Hp; simpl; auto.
Qed.

Lemma trash_then_restore_round_trip_witness :
  roundTrips (browse sampleState []) sampleState 2.
Proof.
  apply (trash_then_restore_round_trip (browse sampleState []) sampleState 2).
  - reflexivity.
  - nodup_ids.
  - nodup_ids.
  - intros f [<- | [<- | [<- | []]]] _; reflexivity.
  - intros f p [<- | [<- | []]] _ _; reflexivity.
  - intros f [<- | [<- | [<- | []]]] E; simpl in *; discriminate.
  - intros f [<- | [<- | []]] E; simpl in *; discriminate.
Defined.

(** C1 as the spec states it fails, in three ways.  The root folder of the
    small drive, which has no parent, comes back from trash with itself as
    [parentId].  In [staleState] the folder [Docs], not trashed, carries an
    [originalParentId] that trash keeps and restore follows.  In
    [aliasState] the file without parent that shares the id of [Docs] is
    trashed and restored with it, and comes back under the root folder. *)
Lemma round_trip_moves_items :
  ~ roundTripClaim (browse sampleState []) /\
  ~ roundTripClaim (browse staleState []) /\
  ~ roundTripClaim (browse aliasState []).
Proof.
  repeat apply conj; intros H.
  - destruct (H sampleState 1 eq_refl)
      as (b1 & st1 & b2 & st2 & E1 & S1 & E2 & S2 & Hfo & _).
    + exists folderRoot. simpl. auto.
    + split.
      * intros f [<- | [<- | [<- | []]]] _ _; reflexivity.
      * intros f p [<- | [<- | []]] _ _ _; reflexivity.
    + vm_compute in E1. injection E1 as <-.
      injection S1 as <-.
      vm_compute in E2. injection E2 as <-.
      injection S2 as <-.
      inversion Hfo as [| f f2 l l2 Hroot _]; subst.
      destruct Hroot as (_ & _ & Hp & _).
      * left. apply (cascade_selected liveFolder sampleState [1] folderRoot); simpl; auto.
      * simpl in Hp. discriminate Hp.
  - destruct (H staleState 2 eq_refl)
      as (b1 & st1 & b2 & st2 & E1 & S1 & E2 & S2 & Hfo & _).
    + exists (DriveFolder.mk 2 "Docs" (Some 1) false (Some 3)). simpl. auto.
    + split.
      * intros f [<- | [<- | [<- | []]]] _ T; simpl in T; discriminate T.
      * intros f p [].
    + vm_compute in E1. injection E1 as <-.
      injection S1 as <-.
      vm_compute in E2. injection E2 as <-.
      injection S2 as <-.
      inversion Hfo as [| f f2 l l2 _ Hrest]; subst.
      inversion Hrest as [| f f2 l l2 Hdocs _]; subst.
      destruct Hdocs as (_ & _ & Hp & _).
      * left. apply (cascade_selected liveFolder staleState [2]
                       (DriveFolder.mk 2 "Docs" (Some 1) false (Some 3))); simpl; auto.
      * simpl in Hp. discriminate Hp.
  - destruct (H aliasState 2 eq_refl)
      as (b1 & st1 & b2 & st2 & E1 & S1 & E2 & S2 & _ & Hfi).
    + exists folderDocs. simpl. auto.
    + split.
      * intros f [<- | [<- | []]] _ T; simpl in T; discriminate T.
      * intros f p [<- | []] P; simpl in P; discriminate P.
    + vm_compute in E1. injection E1 as <-.
      injection S1 as <-.
      vm_compute in E2. injection E2 as <-.
      injection S2 as <-.
      inversion Hfi as [| f f2 l l2 Hloose _]; subst.
      destruct Hloose as (_ & _ & Hp & _).
      * left. exists looseFile. repeat split; simpl; auto.
      * simpl in Hp. discriminate Hp.
Qed.

(** ** Star and share *)

(** C9, as the code has it.  The local apply of a star or share toggle on a
    file that exists sets that one flag to the negation of its value on the
    file found, on every file with that id; every other field,
    [modifiedAt] included, every other file and every folder are as they
    were. *)
Theorem toggles_flip_one_flag (fileId : Z) (b : Browser) (st : DriveState)
  (file : DriveFile.t) :
  state b = Some st ->
  find (fun f => DriveFile.id f =? fileId) (files st) = Some file ->
  exists st1 st2,
    state (handleStarToggle fileId b) = Some st1 /\
    state (handleShareToggle fileId b) = Some st2 /\
    folders st1 = folders st /\ folders st2 = folders st /\
    Forall2 (fun f f' =>
               (DriveFile.id f = fileId ->
                starFlipped (negb (DriveFile.starred file)) f f') /\
               (DriveFile.id f <> fileId -> f' = f))
            (files st) (files st1) /\
    Forall2 (fun f f' =>
               (DriveFile.id f = fileId ->
                shareFlipped (negb (DriveFile.isShared file)) f f') /\
               (DriveFile.id f <> fileId -> f' = f))
            (files st) (files st2).
Proof.
  intros Hst Hfind.
  unfold handleStarToggle, handleShareToggle, filesOf. rewrite Hst, Hfind. simpl.
  eexists _, _. split; [reflexivity |]. split; [reflexivity |].
  split; [reflexivity |]. split; [reflexivity |]. simpl. split.
  - apply Forall2_map_self. intros f Hf. split.
    + intros E. apply Z.eqb_eq in E. rewrite E.
      unfold starFlipped, withStarred. simpl. repeat split.
    + intros N. apply Z.eqb_neq in N. now rewrite N.
  - apply Forall2_map_self. intros f Hf. split.
    + intros E. apply Z.eqb_eq in E. rewrite E.
      unfold shareFlipped, withIsShared. simpl. repeat split.
    + intros N. apply Z.eqb_neq in N. now rewrite N.
Qed.

Lemma toggles_flip_one_flag_witness :
  exists st1 st2,
    state (handleStarToggle 10 (browse sampleState [])) = Some st1 /\
    state (handleShareToggle 10 (browse sampleState [])) = Some st2 /\
    folders st1 = folders sampleState /\ folders st2 = folders sampleState /\
    Forall2 (fun f f' =>
               (DriveFile.id f = 10 ->
                starFlipped (negb (DriveFile.starred fileA)) f f') /\
               (DriveFile.id f <> 10 -> f' = f))
            (files sampleState) (files st1) /\
    Forall2 (fun f f' =>
               (DriveFile.id f = 10 ->
                shareFlipped (negb (DriveFile.isShared fileA)) f f') /\
               (DriveFile.id f <> 10 -> f' = f))
            (files sampleState) (files st2).
Proof.
  apply (toggles_flip_one_flag 10 (browse sampleState []) sampleState fileA).
  - reflexivity.
  - reflexivity.
Defined.

(** C9 as the spec states it fails: starring or sharing [a.txt] leaves its
    [modifiedAt] at ["100"]. *)
Lemma toggle_keeps_modifiedAt :
  ~ toggleRefreshesModifiedAt handleStarToggle (browse sampleState []) /\
  ~ toggleRefreshesModifiedAt handleShareToggle (browse sampleState []).
Proof.
  split; intros H.
  - apply (H 10 fileA (withStarred true fileA)); reflexivity.
  - apply (H 10 fileA (withIsShared true fileA)); reflexivity.
Qed.

(** ** Sorting *)

Lemma ascii_compare_lt_trans (x y z : ascii) :
  Ascii.compare x y = Lt -> Ascii.compare y z = Lt -> Ascii.compare x z = Lt.
Proof.
  unfold Ascii.compare. rewrite !N.compare_lt_iff. apply N.lt_trans.
Qed.

Lemma string_compare_lt_trans (a b c : string) :
  String.compare a b = Lt -> String.compare b c = Lt -> String.compare a c = Lt.
Proof.
  revert b c. induction a as [| x a IH]; intros [| y b] [| z c]; simpl;
    try discriminate; try reflexivity.
  destruct (Ascii.compare x y) eqn:Exy; try discriminate.
  - apply Ascii.compare_eq_iff in Exy. subst y.
    destruct (Ascii.compare x z) eqn:Exz; try discriminate; [apply IH | reflexivity].
  - intros _. destruct (Ascii.compare y z) eqn:Eyz; try discriminate.
    + apply Ascii.compare_eq_iff in Eyz. subst z. now rewrite Exy.
    + intros _. now rewrite (ascii_compare_lt_trans x y z Exy Eyz).
Qed.

Lemma string_leb_trans (a b c : string) :
  String.leb a b = true -> String.leb b c = true -> String.leb a c = true.
Proof.
  unfold String.leb.
  destruct (String.compare a b) eqn:Eab; try discriminate;
    destruct (String.compare b c) eqn:Ebc; try discriminate; intros _ _.
  - apply String.compare_eq_iff in Eab. subst b. now rewrite Ebc.
  - apply String.compare_eq_iff in Eab. subst b. now rewrite Ebc.
  - apply String.compare_eq_iff in Ebc. subst c. now rewrite Eab.
  - now rewrite (string_compare_lt_trans a b c Eab Ebc).
Qed.

Lemma insertBy_perm {A : Type} (cmp : A -> A -> Z) (x : A) (l : list A) :
  Permutation (insertBy cmp x l) (x :: l).
Proof.
  induction l as [| y l IH]; simpl; [apply Permutation_refl |].
  destruct (cmp x y <=? 0); [apply Permutation_refl |].
  eapply Permutation_trans; [apply perm_skip, IH | apply perm_swap].
Qed.

Lemma sortWith_perm {A : Type} (cmp : A -> A -> Z) (l : list A) :
  Permutation (sortWith cmp l) l.
Proof.
  induction l as [| x l IH]; simpl; [apply Permutation_refl |].
  eapply Permutation_trans; [apply insertBy_perm | now apply perm_skip].
Qed.

Section SortedByComparator.

Variable A : Type.
Variable cmp : A -> A -> Z.
Variable P : A -> Prop.

Hypothesis cmp_total : forall a b, P a -> P b -> 0 < cmp a b -> cmp b a <= 0.
Hypothesis cmp_trans :
  forall a b c, P a -> P b -> P c -> cmp a b <= 0 -> cmp b c <= 0 -> cmp a c <= 0.

Lemma insertBy_sorted (x : A) (l : list A) :
  P x -> Forall P l ->
  StronglySorted (fun a b => cmp a b <= 0) l ->
  StronglySorted (fun a b => cmp a b <= 0) (insertBy cmp x l).
Proof.
  intros Px. induction l as [| y l IH]; intros HP Hs; simpl.
  - constructor; constructor.
  - inversion HP as [| ? ? Py HPl]; subst.
    inversion Hs as [| ? ? Hsl Hy]; subst.
    destruct (cmp x y <=? 0) eqn:E.
    + apply Z.leb_le in E. constructor; [exact Hs |].
      constructor; [exact E |].
      rewrite Forall_forall in *. intros z Hz.
      apply (cmp_trans x y z); auto.
    + apply Z.leb_gt in E. constructor; [now apply IH |].
      rewrite Forall_forall in *. intros z Hz.
      apply (Permutation_in _ (insertBy_perm cmp x l)) in Hz.
      destruct Hz as [<- | Hz]; [now apply cmp_total | now apply Hy].
Qed.

Lemma sortWith_sorted (l : list A) :
  Forall P l -> StronglySorted (fun a b => cmp a b <= 0) (sortWith cmp l).
Proof.
  induction l as [| x l IH]; intros HP; simpl; [constructor |].
  inversion HP as [| ? ? Px HPl]; subst.
  apply insertBy_sorted; [exact Px | | now apply IH].
  rewrite Forall_forall in *. intros z Hz. apply HPl.
  now apply (Permutation_in _ (sortWith_perm cmp l)).
Qed.

End SortedByComparator.

Lemma string_ltb_flip (a b : string) :
  String.ltb b a = match String.compare a b with Gt => true | _ => false end.
Proof.
  unfold String.ltb. rewrite (String.compare_antisym b a).
  now destruct (String.compare a b).
Qed.

(** the comparator by name says "not after" exactly when the lower-cased
    names are in order *)
Lemma compareFiles_name (getTime : string -> option Z) (dir : SortDir)
  (a b : DriveFile.t) :
  compareFiles getTime SortName dir a b <= 0 <->
  match dir with
  | Asc => String.leb (toLowerCase (DriveFile.name a)) (toLowerCase (DriveFile.name b)) = true
  | Desc => String.leb (toLowerCase (DriveFile.name b)) (toLowerCase (DriveFile.name a)) = true
  end.
Proof.
  unfold compareFiles. cbv zeta. rewrite string_ltb_flip.
  unfold String.ltb, String.leb.
  rewrite (String.compare_antisym (toLowerCase (DriveFile.name b))
             (toLowerCase (DriveFile.name a))).
  destruct (String.compare (toLowerCase (DriveFile.name a))
              (toLowerCase (DriveFile.name b))), dir; simpl;
    split; intros H; try reflexivity; try discriminate; try lia.
Qed.

Lemma compareFiles_date (getTime : string -> option Z) (dir : SortDir)
  (a b : DriveFile.t) (x y : Z) :
  getTime (DriveFile.modifiedAt a) = Some x ->
  getTime (DriveFile.modifiedAt b) = Some y ->
  compareFiles getTime SortModifiedAt dir a b <= 0 <->
  match dir with Asc => x <= y | Desc => y <= x end.
Proof.
  intros Ea Eb. unfold compareFiles. cbv zeta. rewrite Ea, Eb. simpl.
  destruct (x <? y) eqn:E1; destruct (y <? x) eqn:E2; destruct dir;
    rewrite ?Z.ltb_lt, ?Z.ltb_ge in *; split; intros; lia.
Qed.

(** ** The view *)

Lemma visibleFiles_source (b : Browser) :
  incl (searchFiles b (sectionFiles b)) (filesOf b).
Proof.
  assert (H : incl (sectionFiles b) (filesOf b)).
  { unfold sectionFiles. destruct (section b); apply incl_filter. }
  unfold searchFiles. destruct (negb (is_empty (trim (search b)))); [| exact H].
  eapply incl_tran; [apply incl_filter | exact H].
Qed.

Lemma filter_none {A : Type} (l : list A) : filter (fun _ => false) l = [].
Proof. induction l; simpl; auto. Qed.

(** C6, as the code has it.  The view renders the folders, then the
    files.  The files are the searched files of the section, sorted by the
    sort setting (when the key is [modifiedAt], provided every date
    parses).  The folders are the folders of the section in the order of
    the collection: no sort setting changes them. *)
Theorem view_sorts_files_only (getTime : string -> option Z) (b : Browser) :
  (sortBy b = SortModifiedAt ->
   Forall (fun f => getTime (DriveFile.modifiedAt f) <> None) (filesOf b)) ->
  renderedItems getTime b =
    map inl (visibleFolders b) ++ map inr (visibleFiles getTime b) /\
  StronglySorted (fileOrder getTime (sortBy b) (sortDir b)) (visibleFiles getTime b) /\
  Permutation (visibleFiles getTime b) (searchFiles b (sectionFiles b)) /\
  (forall by_ dir, visibleFolders (setSortDir dir (setSortBy by_ b)) = visibleFolders b) /\
  (exists keep, visibleFolders b = filter keep (foldersOf b)).
Proof.
  intros Hdates. split; [reflexivity |]. split; [| split; [| split]].
  - unfold visibleFiles, fileOrder. destruct (sortBy b) eqn:Eby.
    + apply sortWith_sorted with (P := fun _ => True).
      * intros x y _ _ H. apply compareFiles_name.
        assert (N : ~ compareFiles getTime SortName (sortDir b) x y <= 0) by lia.
        rewrite compareFiles_name in N.
        destruct (sortDir b);
          destruct (String.leb_total (toLowerCase (DriveFile.name x))
                      (toLowerCase (DriveFile.name y))); tauto.
      * intros x y z _ _ _. rewrite !compareFiles_name.
        destruct (sortDir b); intros H1 H2; eapply string_leb_trans; eassumption.
      * apply Forall_forall. auto.
    + apply sortWith_sorted
        with (P := fun f => getTime (DriveFile.modifiedAt f) <> None).
      * intros x y Px Py H.
        destruct (getTime (DriveFile.modifiedAt x)) as [tx |] eqn:Ex; [| congruence].
        destruct (getTime (DriveFile.modifiedAt y)) as [ty |] eqn:Ey; [| congruence].
        apply (compareFiles_date getTime (sortDir b) y x ty tx Ey Ex).
        assert (N : ~ compareFiles getTime SortModifiedAt (sortDir b) x y <= 0) by lia.
        rewrite (compareFiles_date getTime (sortDir b) x y tx ty Ex Ey) in N.
        destruct (sortDir b); lia.
      * intros x y z Px Py Pz.
        destruct (getTime (DriveFile.modifiedAt x)) as [tx |] eqn:Ex; [| congruence].
        destruct (getTime (DriveFile.modifiedAt y)) as [ty |] eqn:Ey; [| congruence].
        destruct (getTime (DriveFile.modifiedAt z)) as [tz |] eqn:Ez; [| congruence].
        rewrite (compareFiles_date getTime (sortDir b) x y tx ty Ex Ey).
        rewrite (compareFiles_date getTime (sortDir b) y z ty tz Ey Ez).
        rewrite (compareFiles_date getTime (sortDir b) x z tx tz Ex Ez).
        destruct (sortDir b); lia.
      * specialize (Hdates eq_refl). rewrite Forall_forall in *.
        intros f Hf. apply Hdates. now apply visibleFiles_source.
  - apply sortWith_perm.
  - intros by_ dir. reflexivity.
  - unfold visibleFolders. destruct (section b); eauto.
    + exists (fun _ => false). now rewrite filter_none.
    + exists (fun _ => false). now rewrite filter_none.
Qed.

Lemma view_sorts_files_only_witness :
  renderedItems simpleTime (setSortBy SortModifiedAt (browse shelfState [])) =
    map inl (visibleFolders (setSortBy SortModifiedAt (browse shelfState []))) ++
    map inr (visibleFiles simpleTime (setSortBy SortModifiedAt (browse shelfState []))) /\
  StronglySorted (fileOrder simpleTime SortModifiedAt Asc)
    (visibleFiles simpleTime (setSortBy SortModifiedAt (browse shelfState []))) /\
  Permutation (visibleFiles simpleTime (setSortBy SortModifiedAt (browse shelfState [])))
    (searchFiles (setSortBy SortModifiedAt (browse shelfState []))
       (sectionFiles (setSortBy SortModifiedAt (browse shelfState [])))) /\
  (forall by_ dir,
     visibleFolders (setSortDir dir (setSortBy by_ (setSortBy SortModifiedAt (browse shelfState []))))
     = visibleFolders (setSortBy SortModifiedAt (browse shelfState []))) /\
  (exists keep, visibleFolders (setSortBy SortModifiedAt (browse shelfState [])) =
                filter keep (foldersOf (setSortBy SortModifiedAt (browse shelfState [])))).
Proof.
  apply (view_sorts_files_only simpleTime (setSortBy SortModifiedAt (browse shelfState []))).
  intros _. simpl. repeat constructor; discriminate.
Defined.

(** C6 as the spec states it fails: with the sort by name, ascending, the
    view of the root of [shelfState] shows the folder [beta] before the
    folder [Alpha]. *)
Lemma folders_are_not_sorted : ~ viewSorted simpleTime (browse shelfState []).
Proof.
  intros (_ & H & _). simpl in H.
  inversion H as [| ? ? _ Hfirst]; subst.
  inversion Hfirst as [| ? ? Hle _]; subst.
  vm_compute in Hle. discriminate Hle.
Qed.

Lemma insertBy_keeps_equals {A : Type} (cmp : A -> A -> Z) (same : A -> bool)
  (x : A) (l : list A) :
  (forall y, same x = true -> same y = true -> cmp x y <= 0) ->
  filter same (insertBy cmp x l) = filter same (x :: l).
Proof.
  intros H. induction l as [| y l IH]; simpl; [reflexivity |].
  destruct (cmp x y <=? 0) eqn:E; [reflexivity |].
  apply Z.leb_gt in E. simpl in *. rewrite IH.
  destruct (same x) eqn:Sx; [| reflexivity].
  destruct (same y) eqn:Sy; [| reflexivity].
  specialize (H y eq_refl Sy). lia.
Qed.

Lemma sortWith_keeps_equals {A : Type} (cmp : A -> A -> Z) (same : A -> bool)
  (l : list A) :
  (forall x y, same x = true -> same y = true -> cmp x y <= 0) ->
  filter same (sortWith cmp l) = filter same l.
Proof.
  intros H. induction l as [| x l IH]; simpl; [reflexivity |].
  rewrite insertBy_keeps_equals by (intros y; apply H).
  simpl. now rewrite IH.
Qed.

(** C7.  With the sort by name, the files whose names are equal without
    case are shown in the order they had (the sort is stable and compares
    without case), in either direction; so, ascending, files named ["b"],
    ["A"], ["a"] in that order are shown as ["A"], ["a"], ["b"]. *)
Theorem name_sort_is_stable (getTime : string -> option Z) (b : Browser) :
  sortBy b = SortName ->
  (forall key,
     filter (fun f => String.eqb (toLowerCase (DriveFile.name f)) key)
            (visibleFiles getTime b) =
     filter (fun f => String.eqb (toLowerCase (DriveFile.name f)) key)
            (searchFiles b (sectionFiles b))) /\
  (forall fb fA fa,
     sortDir b = Asc ->
     searchFiles b (sectionFiles b) = [fb; fA; fa] ->
     DriveFile.name fb = "b"%string ->
     DriveFile.name fA = "A"%string ->
     DriveFile.name fa = "a"%string ->
     visibleFiles getTime b = [fA; fa; fb] /\
     map DriveFile.name (visibleFiles getTime b) = ["A"; "a"; "b"]%string).
Proof.
  intros Hby. split.
  - intros key. unfold visibleFiles. apply sortWith_keeps_equals.
    intros x y Ex Ey. apply String.eqb_eq in Ex, Ey.
    rewrite Hby. unfold compareFiles. cbv zeta. rewrite Ex, Ey.
    unfold String.ltb.
    assert (E : String.compare key key = Eq).
    { pose proof (String.compare_antisym key key) as An.
      destruct (String.compare key key); simpl in An;
        [reflexivity | discriminate An | discriminate An]. }
    rewrite E. lia.
  - intros fb fA fa Hdir Hl Hb HA Ha.
    assert (E : visibleFiles getTime b = [fA; fa; fb]).
    { unfold visibleFiles. rewrite Hby, Hdir, Hl. unfold sortWith. simpl.
      unfold compareFiles. repeat (rewrite ?Hb, ?HA, ?Ha; simpl). reflexivity. }
    split; [exact E |].
    rewrite E. simpl. now rewrite Hb, HA, Ha.
Qed.

Lemma name_sort_is_stable_witness :
  (forall key,
     filter (fun f => String.eqb (toLowerCase (DriveFile.name f)) key)
            (visibleFiles simpleTime (browse shelfState [])) =
     filter (fun f => String.eqb (toLowerCase (DriveFile.name f)) key)
            (searchFiles (browse shelfState []) (sectionFiles (browse shelfState [])))) /\
  visibleFiles simpleTime (browse shelfState []) = [fileUpperA; fileLowerA; fileLowerB] /\
  map DriveFile.name (visibleFiles simpleTime (browse shelfState [])) =
    ["A"; "a"; "b"]%string.
Proof.
  destruct (name_sort_is_stable simpleTime (browse shelfState []) eq_refl) as [H1 H2].
  exact (conj H1 (H2 fileLowerB fileUpperA fileLowerA eq_refl eq_refl eq_refl eq_refl eq_refl)).
Defined.

(** ** Folder upload *)

Lemma sameHooks_refl (b : Browser) : sameHooks b b.
Proof. unfold sameHooks. repeat apply conj; reflexivity. Qed.

Lemma sameHooks_trans (b1 b2 b3 : Browser) :
  sameHooks b1 b2 -> sameHooks b2 b3 -> sameHooks b1 b3.
Proof.
  unfold sameHooks.
  intros (A1 & A2 & A3 & A4 & A5 & A6 & A7 & A8)
         (B1 & B2 & B3 & B4 & B5 & B6 & B7 & B8).
  repeat apply conj; congruence.
Qed.

Lemma sameHooks_appendFile (c : DriveFile.t) (b : Browser) :
  sameHooks (appendFile c b) b.
Proof. unfold sameHooks. repeat apply conj; reflexivity. Qed.

Lemma sameHooks_appendFiles (created : list DriveFile.t) :
  forall b : Browser, sameHooks (appendFiles created b) b.
Proof.
  unfold appendFiles.
  induction created as [| c created IH]; simpl; intros b.
  - apply sameHooks_refl.
  - eapply sameHooks_trans; [apply IH | apply sameHooks_appendFile].
Qed.

Lemma NoDup_snoc {A : Type} (l : list A) (a : A) :
  NoDup l -> ~ In a l -> NoDup (l ++ [a]).
Proof.
  induction l as [| x l IH]; simpl; intros Hl Ha.
  - constructor; [simpl; tauto | constructor].
  - inversion Hl as [| ? ? Hx Hl']; subst. constructor.
    + rewrite in_app_iff. simpl. intros [H | [H | []]]; [tauto |].
      apply Ha. now left.
    + apply IH; [exact Hl' | tauto].
Qed.

Lemma creations_app (cs ds : list ApiCall) :
  creations (cs ++ ds) = (creations cs + creations ds)%nat.
Proof. unfold creations. now rewrite filter_app, length_app. Qed.

Lemma uploads_app (cs ds : list ApiCall) :
  uploads (cs ++ ds) = (uploads cs + uploads ds)%nat.
Proof. unfold uploads. now rewrite filter_app, length_app. Qed.

Lemma calls_split (cs : list ApiCall) :
  List.length cs = (creations cs + uploads cs)%nat.
Proof.
  unfold creations, uploads.
  induction cs as [| c cs IH]; simpl; [reflexivity |].
  destruct (isCreate c); simpl; lia.
Qed.

Ltac nine_parts :=
  split; [| split; [| split; [| split; [| split; [| split; [| split; [| split]]]]]]].

Lemma grownFrom_nil (st : DriveState) : grownFrom st [] [] = st.
Proof. destruct st. unfold grownFrom. simpl. now rewrite !app_nil_r. Qed.

Lemma filter_isCreate_upload (cs : list ApiCall) (f : InputFile.t) (p : option Z) :
  filter isCreate (cs ++ [UploadFile f p]) = filter isCreate cs.
Proof. rewrite filter_app. simpl. apply app_nil_r. Qed.

Lemma filter_isCreate_create (cs : list ApiCall) (n : string) (p : option Z) :
  filter isCreate (cs ++ [CreateFolder n p]) =
  filter isCreate cs ++ [CreateFolder n p].
Proof. rewrite filter_app. reflexivity. Qed.

Lemma uploads_upload (cs : list ApiCall) (f : InputFile.t) (p : option Z) :
  uploads (cs ++ [UploadFile f p]) = S (uploads cs).
Proof. rewrite uploads_app. unfold uploads at 2. simpl. lia. Qed.

Lemma uploads_create (cs : list ApiCall) (n : string) (p : option Z) :
  uploads (cs ++ [CreateFolder n p]) = uploads cs.
Proof. rewrite uploads_app. unfold uploads at 2. simpl. lia. Qed.

Lemma find_key_none (path : string) (memo : list (string * Z)) :
  find (fun e => String.eqb (fst e) path) memo = None ->
  ~ In path (map fst memo) /\
  existsb (fun e => String.eqb (fst e) path) memo = false.
Proof.
  induction memo as [| e memo IH]; simpl; intros H.
  - split; [tauto | reflexivity].
  - destruct (String.eqb (fst e) path) eqn:E; [discriminate |].
    destruct (IH H) as [H1 H2]. split; [| exact H2].
    intros [Heq | Hin]; [| tauto].
    rewrite Heq, String.eqb_refl in E. discriminate.
Qed.

Lemma ensureSegments_cons {Gateway : Type}
  (apiCreateFolder :
     Gateway -> string -> option Z -> Gateway * option DriveFolder.t)
  (segment : string) (rest : list string)
  (currentPath : string) (parentId : Z) (s : UploadState Gateway) :
  ensureSegments Gateway apiCreateFolder (segment :: rest) currentPath
    parentId s =
  match find (fun e => String.eqb (fst e) (childPath currentPath segment))
             (pathToFolderId Gateway s) with
  | Some e =>
      ensureSegments Gateway apiCreateFolder rest
        (childPath currentPath segment) (snd e) s
  | None =>
      bind Gateway (callCreateFolder Gateway apiCreateFolder segment parentId)
        (fun created =>
           bind Gateway (updateBrowser Gateway (appendFolder created))
             (fun _ =>
                bind Gateway
                  (memoSet Gateway (childPath currentPath segment)
                     (DriveFolder.id created))
                  (fun _ =>
                     ensureSegments Gateway apiCreateFolder rest
                       (childPath currentPath segment)
                       (DriveFolder.id created)))) s
  end.
Proof.
  unfold childPath. simpl. unfold bind at 1. unfold memoGet.
  destruct (find _ (pathToFolderId Gateway s)); reflexivity.
Qed.

Lemma ensureFolderPath_eq {Gateway : Type}
  (apiCreateFolder :
     Gateway -> string -> option Z -> Gateway * option DriveFolder.t)
  (baseFolderId : Z) (path : string) (s : UploadState Gateway) :
  ensureFolderPath Gateway apiCreateFolder baseFolderId path s =
  match find (fun e => String.eqb (fst e) path) (pathToFolderId Gateway s) with
  | Some e => (s, Some (snd e))
  | None =>
      ensureSegments Gateway apiCreateFolder (pathSegments path) EmptyString
        baseFolderId s
  end.
Proof.
  unfold ensureFolderPath, bind, memoGet.
  destruct (find _ (pathToFolderId Gateway s)); reflexivity.
Qed.

(** *** The progress of a folder upload *)

Lemma keeps_ret {Gateway A : Type}
  (apiCreateFolder :
     Gateway -> string -> option Z -> Gateway * option DriveFolder.t)
  (base : Z) (st : DriveState) (b0 : Browser) (a : A) :
  keepsProgress apiCreateFolder base st b0 (ret Gateway a).
Proof. intros s H. exact H. Qed.

Lemma keeps_bind {Gateway A B : Type}
  (apiCreateFolder :
     Gateway -> string -> option Z -> Gateway * option DriveFolder.t)
  (base : Z) (st : DriveState) (b0 : Browser)
  (m : Task Gateway A) (k : A -> Task Gateway B) :
  keepsProgress apiCreateFolder base st b0 m ->
  (forall a, keepsProgress apiCreateFolder base st b0 (k a)) ->
  keepsProgress apiCreateFolder base st b0 (bind Gateway m k).
Proof.
  intros Hm Hk s H. specialize (Hm s H). unfold bind.
  destruct (m s) as [s' [a |]]; simpl in Hm.
  - apply Hk, Hm.
  - exact Hm.
Qed.

(** Sending one file: the request and the local append. *)
Lemma keeps_upload {Gateway : Type}
  (apiCreateFolder :
     Gateway -> string -> option Z -> Gateway * option DriveFolder.t)
  (apiUploadFile :
     Gateway -> InputFile.t -> option Z -> Gateway * option DriveFile.t)
  (base : Z) (st : DriveState) (b0 : Browser)
  (file : InputFile.t) (parentId : Z) :
  keepsProgress apiCreateFolder base st b0
    (bind Gateway (callUploadFile Gateway apiUploadFile file parentId)
       (fun created => updateBrowser Gateway (appendFile created))).
Proof.
  intros s (records & Nf & cs & rest & H1 & H2 & H3 & H4 & H5 & H6 & H7 & H8 & H9).
  simpl in H9. subst rest. rewrite app_nil_r in H6.
  unfold bind, callUploadFile, updateBrowser.
  destruct (apiUploadFile (gateway Gateway s) file (Some parentId))
    as [g1 [c |]]; simpl.
  - exists records, (Nf ++ [c]), (cs ++ [UploadFile file (Some parentId)]), [].
    simpl. nine_parts.
    + rewrite H1. simpl. unfold withFiles, grownFrom. simpl.
      now rewrite <- app_assoc.
    + exact H2.
    + exact H3.
    + exact H4.
    + exact H5.
    + now rewrite H6, app_nil_r.
    + rewrite filter_isCreate_upload. exact H7.
    + rewrite uploads_upload, length_app. simpl. lia.
    + reflexivity.
  - exists records, Nf, cs, [UploadFile file (Some parentId)].
    simpl. nine_parts; try assumption.
    + now rewrite H6.
    + eexists. reflexivity.
Qed.

(** Creating a missing folder: the request, the local append and the entry
    of the map, followed by the rest of the loop. *)
Lemma keeps_create {Gateway B : Type}
  (apiCreateFolder :
     Gateway -> string -> option Z -> Gateway * option DriveFolder.t)
  (base : Z) (st : DriveState) (b0 : Browser)
  (segment under : string) (parentId : Z)
  (k : DriveFolder.t -> Task Gateway B) (s : UploadState Gateway) :
  (forall c s',
     uploadProgress apiCreateFolder base st b0 true s' ->
     In (childPath under segment, DriveFolder.id c) (pathToFolderId Gateway s') ->
     uploadProgress apiCreateFolder base st b0
       (isSome (snd (k c s'))) (fst (k c s'))) ->
  uploadProgress apiCreateFolder base st b0 true s ->
  In (under, parentId) (pathToFolderId Gateway s) ->
  find (fun e => String.eqb (fst e) (childPath under segment))
       (pathToFolderId Gateway s) = None ->
  let m :=
    bind Gateway (callCreateFolder Gateway apiCreateFolder segment parentId)
      (fun created =>
         bind Gateway (updateBrowser Gateway (appendFolder created))
           (fun _ =>
              bind Gateway
                (memoSet Gateway (childPath under segment)
                   (DriveFolder.id created))
                (fun _ => k created))) in
  uploadProgress apiCreateFolder base st b0 (isSome (snd (m s))) (fst (m s)).
Proof.
  intros Hk H Hunder Hfind m. subst m.
  destruct (find_key_none _ _ Hfind) as [Hnin Hex].
  destruct H as (records & Nf & cs & rest & H1 & H2 & H3 & H4 & H5 & H6 & H7
                 & H8 & H9).
  simpl in H9. subst rest. rewrite app_nil_r in H6.
  match goal with
  | |- uploadProgress _ _ _ _ (isSome (snd ?t)) _ =>
      destruct t as [s' r] eqn:E
  end.
  unfold bind at 1 in E. unfold callCreateFolder in E.
  destruct (apiCreateFolder (gateway Gateway s) segment (Some parentId))
    as [g1 [c |]] eqn:Ec.
  - unfold bind at 1 in E. unfold updateBrowser at 1 in E.
    unfold bind at 1 in E. unfold memoSet at 1 in E. simpl in E.
    rewrite Hex in E.
    match type of E with
    | k c ?s1 = _ =>
        assert (Hs1 : uploadProgress apiCreateFolder base st b0 true s1)
    end.
    { exists (records ++
              [mkCreation Gateway (childPath under segment) under segment
                 parentId c (gateway Gateway s) g1]),
        Nf, (cs ++ [CreateFolder segment (Some parentId)]), [].
      simpl. nine_parts.
      + rewrite H1. simpl. unfold withFolders, grownFrom. simpl.
        now rewrite map_app, <- app_assoc.
      + exact H2.
      + rewrite H3, map_app. reflexivity.
      + rewrite map_app. simpl. apply NoDup_snoc; assumption.
      + apply Forall_app. split.
        * eapply Forall_impl; [| exact H5].
          intros r0 (R1 & R2 & R3). repeat split; try assumption.
          apply in_or_app. now left.
        * constructor; [| constructor].
          repeat split; simpl; [| exact Ec].
          apply in_or_app. now left.
      + now rewrite H6, app_nil_r.
      + rewrite filter_isCreate_create, H7, map_app. reflexivity.
      + rewrite uploads_create. exact H8.
      + reflexivity. }
    assert (Hin : In (childPath under segment, DriveFolder.id c)
                     (pathToFolderId Gateway
                        (mkUpload Gateway g1
                           (appendFolder c (browser Gateway s))
                           (pathToFolderId Gateway s ++
                            [(childPath under segment, DriveFolder.id c)])
                           (calls Gateway s ++
                            [CreateFolder segment (Some parentId)])))).
    { simpl. apply in_or_app. right. now left. }
    specialize (Hk c _ Hs1 Hin). rewrite E in Hk. exact Hk.
  - injection E as <- <-. simpl.
    exists records, Nf, cs, [CreateFolder segment (Some parentId)].
    simpl. nine_parts; try assumption.
    + now rewrite H6.
    + eexists. reflexivity.
Qed.

Lemma keeps_ensureSegments {Gateway : Type}
  (apiCreateFolder :
     Gateway -> string -> option Z -> Gateway * option DriveFolder.t)
  (base : Z) (st : DriveState) (b0 : Browser) (segments : list string) :
  forall (currentPath : string) (parentId : Z) (s : UploadState Gateway),
    uploadProgress apiCreateFolder base st b0 true s ->
    In (currentPath, parentId) (pathToFolderId Gateway s) ->
    uploadProgress apiCreateFolder base st b0
      (isSome (snd (ensureSegments Gateway apiCreateFolder segments
                      currentPath parentId s)))
      (fst (ensureSegments Gateway apiCreateFolder segments
              currentPath parentId s)).
Proof.
  induction segments as [| segment rest IH]; intros currentPath parentId s H Hin.
  - exact H.
  - rewrite ensureSegments_cons.
    destruct (find _ (pathToFolderId Gateway s)) as [e |] eqn:Ef.
    + apply IH; [exact H |].
      apply find_some in Ef. destruct Ef as [He Hk].
      apply String.eqb_eq in Hk. destruct e as [key v]. simpl in *.
      now subst key.
    + apply (keeps_create apiCreateFolder base st b0 segment currentPath
               parentId
               (fun created =>
                  ensureSegments Gateway apiCreateFolder rest
                    (childPath currentPath segment)
                    (DriveFolder.id created)));
        [| exact H | exact Hin | exact Ef].
      intros c s' Hs' Hin'. now apply IH.
Qed.

Lemma keeps_ensureFolderPath {Gateway : Type}
  (apiCreateFolder :
     Gateway -> string -> option Z -> Gateway * option DriveFolder.t)
  (base : Z) (st : DriveState) (b0 : Browser) (path : string) :
  keepsProgress apiCreateFolder base st b0
    (ensureFolderPath Gateway apiCreateFolder base path).
Proof.
  intros s H. rewrite ensureFolderPath_eq.
  destruct (find _ (pathToFolderId Gateway s)) as [e |]; simpl.
  - exact H.
  - apply keeps_ensureSegments; [exact H |].
    destruct H as (records & Nf & cs & rest & _ & _ & H3 & _).
    rewrite H3. now left.
Qed.

Lemma keeps_uploadOne {Gateway : Type}
  (apiCreateFolder :
     Gateway -> string -> option Z -> Gateway * option DriveFolder.t)
  (apiUploadFile :
     Gateway -> InputFile.t -> option Z -> Gateway * option DriveFile.t)
  (base : Z) (st : DriveState) (b0 : Browser) (file : InputFile.t) :
  keepsProgress apiCreateFolder base st b0
    (uploadOne Gateway apiCreateFolder apiUploadFile base file).
Proof.
  unfold uploadOne.
  apply keeps_bind; [apply keeps_ensureFolderPath |].
  intros parentId. apply keeps_upload.
Qed.

Lemma keeps_uploadAll {Gateway : Type}
  (apiCreateFolder :
     Gateway -> string -> option Z -> Gateway * option DriveFolder.t)
  (apiUploadFile :
     Gateway -> InputFile.t -> option Z -> Gateway * option DriveFile.t)
  (base : Z) (st : DriveState) (b0 : Browser) (fileList : list InputFile.t) :
  keepsProgress apiCreateFolder base st b0
    (uploadAll Gateway apiCreateFolder apiUploadFile base fileList).
Proof.
  induction fileList as [| file rest IH]; simpl.
  - apply keeps_ret.
  - apply keeps_bind; [apply keeps_uploadOne |].
    intros _. exact IH.
Qed.

Lemma uploadProgress_start {Gateway : Type}
  (apiCreateFolder :
     Gateway -> string -> option Z -> Gateway * option DriveFolder.t)
  (st : DriveState) (b : Browser) (g : Gateway) (base : Z) :
  state b = Some st ->
  uploadProgress apiCreateFolder base st (setBusy true b) true
    (mkUpload Gateway g (setBusy true b) [(EmptyString, base)] []).
Proof.
  intros H. exists [], [], [], []. simpl. nine_parts; try reflexivity.
  - rewrite H. now rewrite grownFrom_nil.
  - apply sameHooks_refl.
  - constructor; [simpl; tauto | constructor].
  - constructor.
Qed.

(** the run from the start of the handler *)
Lemma uploadAll_progress {Gateway : Type}
  (apiCreateFolder :
     Gateway -> string -> option Z -> Gateway * option DriveFolder.t)
  (apiUploadFile :
     Gateway -> InputFile.t -> option Z -> Gateway * option DriveFile.t)
  (fileList : list InputFile.t) (g : Gateway) (b : Browser) (st : DriveState)
  (base : Z) :
  state b = Some st ->
  let run :=
    uploadAll Gateway apiCreateFolder apiUploadFile base fileList
      (mkUpload Gateway g (setBusy true b) [(EmptyString, base)] []) in
  uploadProgress apiCreateFolder base st (setBusy true b)
    (isSome (snd run)) (fst run).
Proof.
  intros Hst run. subst run.
  apply (keeps_uploadAll apiCreateFolder apiUploadFile base st
           (setBusy true b) fileList).
  now apply uploadProgress_start.
Qed.

(** the counts of a run *)
Lemma uploadProgress_counts {Gateway : Type}
  (apiCreateFolder :
     Gateway -> string -> option Z -> Gateway * option DriveFolder.t)
  (base : Z) (st : DriveState) (b0 : Browser) (ok : bool)
  (s : UploadState Gateway) :
  uploadProgress apiCreateFolder base st b0 ok s ->
  exists newFolders newFiles,
    state (browser Gateway s) = Some (grownFrom st newFolders newFiles) /\
    sameHooks (browser Gateway s) b0 /\
    (List.length newFolders <= creations (calls Gateway s))%nat /\
    (List.length newFiles <= uploads (calls Gateway s))%nat /\
    (creations (calls Gateway s) + uploads (calls Gateway s) =
     List.length newFolders + List.length newFiles +
     (if ok then 0 else 1))%nat.
Proof.
  intros (records & Nf & cs & rest & H1 & H2 & H3 & H4 & H5 & H6 & H7 & H8 & H9).
  exists (map createdFolder records), Nf.
  split; [exact H1 |]. split; [exact H2 |].
  rewrite H6, creations_app, uploads_app, length_map.
  assert (Hc : creations cs = List.length records).
  { unfold creations. now rewrite H7, length_map. }
  rewrite Hc, H8.
  destruct ok.
  - subst rest. unfold creations, uploads. simpl. repeat split; lia.
  - destruct H9 as (rejected & ->).
    destruct rejected; unfold creations, uploads; simpl; repeat split; lia.
Qed.

(** the creations of a run, read without the map of paths *)
Lemma uploadProgress_once {Gateway : Type}
  (apiCreateFolder :
     Gateway -> string -> option Z -> Gateway * option DriveFolder.t)
  (base : Z) (st : DriveState) (b0 : Browser) (ok : bool)
  (s : UploadState Gateway) (b' : Browser) :
  uploadProgress apiCreateFolder base st b0 ok s ->
  state b' = state (browser Gateway s) ->
  createsEachPathOnce apiCreateFolder base st b' (calls Gateway s).
Proof.
  intros (records & Nf & cs & rest & H1 & H2 & H3 & H4 & H5 & H6 & H7 & H8 & H9)
         Hb.
  exists records, Nf, cs, rest.
  split; [exact H6 |].
  split; [destruct ok; [now left | now right] |].
  split; [exact H7 |].
  rewrite H3 in H4, H5. simpl in H4.
  rewrite map_map in H4. simpl in H4.
  split; [now inversion H4 |].
  split; [| now rewrite Hb].
  eapply Forall_impl; [| exact H5].
  intros r (R1 & R2 & R3). repeat split; try assumption.
  destruct R2 as [R2 | R2].
  - left. injection R2 as <- <-. now split.
  - right. apply in_map_iff in R2. destruct R2 as (above & Ea & Ha).
    injection Ea as E1 E2. exists above. now repeat split.
Qed.


(** The scenario of C8, in one call of the handler. *)
Lemma folder_upload_scenario
  (Gateway : Type)
  (apiCreateFolder : Gateway -> string -> option Z -> Gateway * option DriveFolder.t)
  (apiUploadFile : Gateway -> InputFile.t -> option Z -> Gateway * option DriveFile.t)
  (g0 g1 g2 g3 g4 : Gateway) (b : Browser) (st : DriveState)
  (readme todo : InputFile.t) (project notes : DriveFolder.t)
  (r1 r2 : DriveFile.t) :
  state b = Some st ->
  InputFile.webkitRelativePath readme = "project/notes/readme.txt"%string ->
  InputFile.webkitRelativePath todo = "project/todo.txt"%string ->
  apiCreateFolder g0 "project"%string (Some (uploadBase b st)) = (g1, Some project) ->
  apiCreateFolder g1 "notes"%string (Some (DriveFolder.id project)) = (g2, Some notes) ->
  apiUploadFile g2 (renamed "readme.txt" readme) (Some (DriveFolder.id notes))
    = (g3, Some r1) ->
  apiUploadFile g3 (renamed "todo.txt" todo) (Some (DriveFolder.id project))
    = (g4, Some r2) ->
  (exists b1,
     handleFolderInputChange Gateway apiCreateFolder apiUploadFile [readme] g0 b =
       (g3, b1,
        [CreateFolder "project" (Some (uploadBase b st));
         CreateFolder "notes" (Some (DriveFolder.id project));
         UploadFile (renamed "readme.txt" readme) (Some (DriveFolder.id notes))]) /\
     state b1 = Some (mkState (rootFolderId st) (folders st ++ [project; notes])
                              (files st ++ [r1]))) /\
  (exists b2,
     handleFolderInputChange Gateway apiCreateFolder apiUploadFile [readme; todo] g0 b =
       (g4, b2,
        [CreateFolder "project" (Some (uploadBase b st));
         CreateFolder "notes" (Some (DriveFolder.id project));
         UploadFile (renamed "readme.txt" readme) (Some (DriveFolder.id notes));
         UploadFile (renamed "todo.txt" todo) (Some (DriveFolder.id project))]) /\
     state b2 = Some (mkState (rootFolderId st) (folders st ++ [project; notes])
                              (files st ++ [r1; r2]))).
Proof.
  intros Hst Hreadme Htodo C1 C2 U1 U2.
  remember (uploadBase b st) as base eqn:Ebase.
  unfold handleFolderInputChange. rewrite Hst, <- Ebase.
  destruct st as [root fo fi].
  split.
  - unfold uploadAll, uploadOne, bind, ensureFolderPath, memoGet, callUploadFile,
      updateBrowser, ret, renamed in *.
    rewrite Hreadme. simpl.
    unfold bind, memoGet, callCreateFolder, updateBrowser, memoSet, ret. simpl.
    rewrite C1. simpl. rewrite C2. simpl. rewrite U1. simpl.
    eexists. split; [reflexivity |].
    unfold appendFile, appendFolder, setState, withFolders, withFiles. simpl.
    rewrite Hst. simpl. now rewrite <- !app_assoc.
  - unfold uploadAll, uploadOne, bind, ensureFolderPath, memoGet, callUploadFile,
      updateBrowser, ret, renamed in *.
    rewrite Hreadme, Htodo. simpl.
    unfold bind, memoGet, callCreateFolder, updateBrowser, memoSet, ret. simpl.
    rewrite C1. simpl. rewrite C2. simpl. rewrite U1. simpl. rewrite U2. simpl.
    eexists. split; [reflexivity |].
    unfold appendFile, appendFolder, setState, withFolders, withFiles. simpl.
    rewrite Hst. simpl. now rewrite <- !app_assoc.
Qed.

(** One call of the handler, whatever the files and the server: no path
    is created twice. *)
Lemma folder_upload_once
  (Gateway : Type)
  (apiCreateFolder : Gateway -> string -> option Z -> Gateway * option DriveFolder.t)
  (apiUploadFile : Gateway -> InputFile.t -> option Z -> Gateway * option DriveFile.t)
  (fileList : list InputFile.t) (g g' : Gateway) (b b' : Browser)
  (st : DriveState) (requests : list ApiCall) :
  state b = Some st ->
  handleFolderInputChange Gateway apiCreateFolder apiUploadFile fileList g b =
    (g', b', requests) ->
  createsEachPathOnce apiCreateFolder (uploadBase b st) st b' requests.
Proof.
  intros Hst H. unfold handleFolderInputChange in H. rewrite Hst in H.
  destruct fileList as [| f0 rest].
  - injection H as <- <- <-. exists [], [], [], []. simpl.
    split; [reflexivity |]. split; [now left |]. split; [reflexivity |].
    split; [constructor |]. split; [constructor |].
    rewrite Hst. now rewrite grownFrom_nil.
  - set (fileList := f0 :: rest) in *.
    pose proof (uploadAll_progress apiCreateFolder apiUploadFile fileList
                  g b st (uploadBase b st) Hst) as Hp.
    cbv zeta in Hp.
    destruct (uploadAll Gateway apiCreateFolder apiUploadFile (uploadBase b st)
                fileList _) as [s1 [u |]];
      simpl in Hp; injection H as <- <- <-;
      eapply uploadProgress_once; try exact Hp; reflexivity.
Qed.

(** C8.  Within one call of [handleFolderInputChange], whatever the
    server, as long as it answers: a file of relative path
    ["project/notes/readme.txt"] sends two folder creations, [project]
    under the base folder and [notes] under the [project] just created,
    then the file under [notes]; with a second file of relative path
    ["project/todo.txt"] after it in the same call, the only further
    request is the upload of that file under the same [project].  The
    folders of the state are never consulted, so this holds whether or
    not folders of these names exist.  And in any call, for any files and
    any server, the folder creations that were answered are for pairwise
    distinct paths. *)
Theorem folder_upload_creates_prefixes_once
  (Gateway : Type)
  (apiCreateFolder : Gateway -> string -> option Z -> Gateway * option DriveFolder.t)
  (apiUploadFile : Gateway -> InputFile.t -> option Z -> Gateway * option DriveFile.t)
  (g0 g1 g2 g3 g4 : Gateway) (b : Browser) (st : DriveState)
  (readme todo : InputFile.t) (project notes : DriveFolder.t)
  (r1 r2 : DriveFile.t) :
  state b = Some st ->
  InputFile.webkitRelativePath readme = "project/notes/readme.txt"%string ->
  InputFile.webkitRelativePath todo = "project/todo.txt"%string ->
  apiCreateFolder g0 "project"%string (Some (uploadBase b st)) = (g1, Some project) ->
  apiCreateFolder g1 "notes"%string (Some (DriveFolder.id project)) = (g2, Some notes) ->
  apiUploadFile g2 (renamed "readme.txt" readme) (Some (DriveFolder.id notes))
    = (g3, Some r1) ->
  apiUploadFile g3 (renamed "todo.txt" todo) (Some (DriveFolder.id project))
    = (g4, Some r2) ->
  (exists b1,
     handleFolderInputChange Gateway apiCreateFolder apiUploadFile [readme] g0 b =
       (g3, b1,
        [CreateFolder "project" (Some (uploadBase b st));
         CreateFolder "notes" (Some (DriveFolder.id project));
         UploadFile (renamed "readme.txt" readme) (Some (DriveFolder.id notes))]) /\
     state b1 = Some (mkState (rootFolderId st) (folders st ++ [project; notes])
                              (files st ++ [r1]))) /\
  (exists b2,
     handleFolderInputChange Gateway apiCreateFolder apiUploadFile [readme; todo] g0 b =
       (g4, b2,
        [CreateFolder "project" (Some (uploadBase b st));
         CreateFolder "notes" (Some (DriveFolder.id project));
         UploadFile (renamed "readme.txt" readme) (Some (DriveFolder.id notes));
         UploadFile (renamed "todo.txt" todo) (Some (DriveFolder.id project))]) /\
     state b2 = Some (mkState (rootFolderId st) (folders st ++ [project; notes])
                              (files st ++ [r1; r2]))) /\
  (forall fileList g g' b' requests,
     handleFolderInputChange Gateway apiCreateFolder apiUploadFile fileList g b =
       (g', b', requests) ->
     createsEachPathOnce apiCreateFolder (uploadBase b st) st b' requests).
Proof.
  intros Hst Hreadme Htodo C1 C2 U1 U2.
  destruct (folder_upload_scenario Gateway apiCreateFolder apiUploadFile
              g0 g1 g2 g3 g4 b st readme todo project notes r1 r2
              Hst Hreadme Htodo C1 C2 U1 U2) as [H1 H2].
  split; [exact H1 |]. split; [exact H2 |].
  intros fileList g g' b' requests H.
  exact (folder_upload_once Gateway apiCreateFolder apiUploadFile
           fileList g g' b b' st requests Hst H).
Qed.


Lemma folder_upload_creates_prefixes_once_witness :
  (exists b1,
     handleFolderInputChange Z counterCreateFolder counterUploadFile
       [readmeEntry] 100 (browse sampleState []) =
       (103, b1,
        [CreateFolder "project" (Some 1);
         CreateFolder "notes" (Some 100);
         UploadFile (renamed "readme.txt" readmeEntry) (Some 101)]) /\
     state b1 =
       Some (mkState 1
               (folders sampleState ++
                [DriveFolder.mk 100 "project" (Some 1) false None;
                 DriveFolder.mk 101 "notes" (Some 100) false None])
               (files sampleState ++
                [DriveFile.mk 102 "readme.txt" "text/plain" 1 (Some 101) 5
                   false false false None "0"]))) /\
  (exists b2,
     handleFolderInputChange Z counterCreateFolder counterUploadFile
       [readmeEntry; todoEntry] 100 (browse sampleState []) =
       (104, b2,
        [CreateFolder "project" (Some 1);
         CreateFolder "notes" (Some 100);
         UploadFile (renamed "readme.txt" readmeEntry) (Some 101);
         UploadFile (renamed "todo.txt" todoEntry) (Some 100)]) /\
     state b2 =
       Some (mkState 1
               (folders sampleState ++
                [DriveFolder.mk 100 "project" (Some 1) false None;
                 DriveFolder.mk 101 "notes" (Some 100) false None])
               (files sampleState ++
                [DriveFile.mk 102 "readme.txt" "text/plain" 1 (Some 101) 5
                   false false false None "0";
                 DriveFile.mk 103 "todo.txt" "text/plain" 1 (Some 100) 5
                   false false false None "0"]))).
Proof.
  destruct (folder_upload_creates_prefixes_once Z counterCreateFolder counterUploadFile
           100 101 102 103 104 (browse sampleState []) sampleState
           readmeEntry todoEntry
           (DriveFolder.mk 100 "project" (Some 1) false None)
           (DriveFolder.mk 101 "notes" (Some 100) false None)
           (DriveFile.mk 102 "readme.txt" "text/plain" 1 (Some 101) 5
              false false false None "0")
           (DriveFile.mk 103 "todo.txt" "text/plain" 1 (Some 100) 5
              false false false None "0")
              eq_refl eq_refl eq_refl eq_refl eq_refl eq_refl eq_refl)
    as (H1 & H2 & _).
  exact (conj H1 H2).
Defined.

(** C8 as the spec states it fails for two uploads one after the other.
    The map from paths to folder ids is made anew by each call of the
    handler and the folders of the state are never looked up: the second
    call, for ["project/todo.txt"], asks the server for [project] again
    although the first call has just created it. *)
Lemma later_upload_creates_project_again :
  ~ laterUploadReuses counterCreateFolder counterUploadFile 100
      (browse sampleState []) readmeEntry todoEntry.
Proof.
  intros H.
  destruct (handleFolderInputChange Z counterCreateFolder counterUploadFile
              [readmeEntry] 100 (browse sampleState []))
    as [[g1 b1] calls1] eqn:E1.
  destruct (handleFolderInputChange Z counterCreateFolder counterUploadFile
              [todoEntry] g1 b1) as [[g2 b2] calls2] eqn:E2.
  destruct (H g1 b1 calls1 g2 b2 calls2 E1 E2) as [_ C].
  vm_compute in E1. injection E1 as <- <- <-.
  vm_compute in E2. injection E2 as <- <- <-.
  vm_compute in C. discriminate C.
Qed.

(** The map from paths to folder ids lives for one run of the handler: a
    later run for ["project/todo.txt"] asks the server for [project]
    again. *)
Lemma later_run_creates_prefix_again :
  let '(g, b1, _) :=
    handleFolderInputChange Z counterCreateFolder counterUploadFile
      [readmeEntry] 100 (browse sampleState []) in
  snd (handleFolderInputChange Z counterCreateFolder counterUploadFile
         [todoEntry] g b1) =
  [CreateFolder "project" (Some 1);
   UploadFile (renamed "todo.txt" todoEntry) (Some 103)].
Proof. vm_compute. reflexivity. Qed.

(** * The rest of the component *)

(** ** Breadcrumb *)

Lemma parentOf_some (fs : list DriveFolder.t) (c p : DriveFolder.t) :
  parentOf fs c = Some p ->
  In p fs /\ DriveFolder.parentId c = Some (DriveFolder.id p) /\
  DriveFolder.trashed p = false.
Proof.
  intros H. apply find_some in H. destruct H as [Hin Hc].
  apply andb_true_iff in Hc. destruct Hc as [Hid Ht].
  apply is_id_Some in Hid. apply negb_true_iff in Ht. auto.
Qed.

Lemma breadcrumbLoop_path (fs : list DriveFolder.t) :
  forall fuel cur acc path,
    pathFromTop fs cur acc ->
    breadcrumbLoop fuel fs cur acc = Some path ->
    pathFromTop fs None path /\ exists pre, path = pre ++ acc.
Proof.
  induction fuel as [| k IH]; intros [f |] acc path Hacc E; simpl in E;
    try discriminate.
  - injection E as <-. split; [exact Hacc | now exists []].
  - destruct (IH (parentOf fs f) (f :: acc) path) as (Hp & pre & Epre);
      [split; [reflexivity | exact Hacc] | exact E |].
    split; [exact Hp |]. exists (pre ++ [f]). now rewrite <- app_assoc.
  - injection E as <-. split; [exact Hacc | now exists []].
Qed.

Lemma pathFromTop_live (fs : list DriveFolder.t) :
  forall pre top f,
    pathFromTop fs top (pre ++ [f]) ->
    Forall (fun g => In g fs /\ DriveFolder.trashed g = false) pre.
Proof.
  induction pre as [| g pre IH]; intros top f H; [constructor |].
  simpl in H. destruct H as [_ H]. constructor.
  - destruct pre as [| h pre']; simpl in H; destruct H as [Hpar _];
      apply parentOf_some in Hpar; tauto.
  - eapply IH. exact H.
Qed.

(** X1.  When the breadcrumb loop ends, its result ends with the current
    folder; the first folder has no live parent in the collection, each
    folder is the first live folder whose id is the [parentId] of the
    next, and every folder before the current one is in the collection and
    not trashed. *)
Theorem breadcrumb_is_parent_chain (fuel : nat) (b : Browser)
  (f : DriveFolder.t) (path : list DriveFolder.t) :
  currentFolder b = Some f ->
  breadcrumb fuel b = Some path ->
  exists pre,
    path = pre ++ [f] /\
    pathFromTop (foldersOf b) None path /\
    Forall (fun g => In g (foldersOf b) /\ DriveFolder.trashed g = false) pre.
Proof.
  intros Hc E. unfold breadcrumb in E. rewrite Hc in E.
  unfold currentFolder in Hc. destruct (section b); try discriminate.
  destruct (breadcrumbLoop_path (foldersOf b) fuel (Some f) [] path I E)
    as (Hp & pre & Epre).
  destruct fuel as [| k]; [discriminate |]. simpl in E.
  destruct (breadcrumbLoop_path (foldersOf b) k (parentOf (foldersOf b) f) [f] path)
    as (_ & pre' & Epre'); [split; [reflexivity | exact I] | exact E |].
  exists pre'. split; [exact Epre' |]. split; [exact Hp |].
  eapply pathFromTop_live. rewrite <- Epre'. exact Hp.
Qed.

Lemma climbs_trans (fs : list DriveFolder.t) (a b c : DriveFolder.t) :
  climbs fs a b -> climbs fs b c -> climbs fs a c.
Proof.
  intros H. induction H as [a b E | a b d E _ IH]; intros Hc.
  - eapply climbs_step; eassumption.
  - eapply climbs_step; [exact E | now apply IH].
Qed.

Lemma breadcrumbLoop_ends (fs : list DriveFolder.t) :
  (forall g, ~ climbs fs g g) ->
  forall fuel f seen acc,
    NoDup seen -> incl (f :: seen) fs ->
    (forall g, In g seen -> climbs fs g f) ->
    (List.length fs < fuel + List.length seen)%nat ->
    exists path, breadcrumbLoop fuel fs (Some f) acc = Some path.
Proof.
  intros Hacyc. induction fuel as [| k IH]; intros f seen acc Hnd Hin Hseen Hlen.
  - exfalso.
    assert (L := NoDup_incl_length Hnd (fun x Hx => Hin x (or_intror Hx))).
    simpl in Hlen. lia.
  - simpl. destruct (parentOf fs f) as [p |] eqn:Ep; [| destruct k; simpl; eauto].
    assert (Hf : ~ In f seen).
    { intros C. apply (Hacyc f). now apply Hseen. }
    apply (IH p (f :: seen) (f :: acc)).
    + now constructor.
    + intros x [<- | Hx]; [| now apply Hin].
      apply parentOf_some in Ep. tauto.
    + intros g [<- | Hg]; [now apply climbs_parent |].
      eapply climbs_trans; [now apply Hseen | now apply climbs_parent].
    + simpl. lia.
Qed.

(** X2.  If no folder is its own ancestor along live parents, the
    breadcrumb loop ends within one step more than there are folders. *)
Theorem breadcrumb_ends_on_a_tree (b : Browser) :
  (forall g, ~ climbs (foldersOf b) g g) ->
  exists path, breadcrumb (S (List.length (foldersOf b))) b = Some path.
Proof.
  intros Hacyc. unfold breadcrumb.
  destruct (section b); eauto.
  destruct (currentFolder b) as [f |] eqn:Ec; eauto.
  apply (breadcrumbLoop_ends (foldersOf b) Hacyc _ f [] []).
  - constructor.
  - intros x [<- | []]. unfold currentFolder in Ec.
    destruct (section b); try discriminate. now apply find_some in Ec.
  - intros g [].
  - simpl. lia.
Qed.

Lemma climbs_self_next (fs : list DriveFolder.t) (g : DriveFolder.t) :
  climbs fs g g -> exists p, parentOf fs g = Some p /\ climbs fs p p.
Proof.
  intros H. inversion H as [a b E | a b c E Hc]; subst.
  - exists g. auto.
  - exists b. split; [exact E |].
    eapply climbs_trans; [exact Hc | now apply climbs_parent].
Qed.

(** X3.  If the current folder is its own ancestor along live parents (a
    live folder whose [parentId] is its own id is the shortest case), the
    breadcrumb loop never ends. *)
Theorem breadcrumb_loops_on_a_cycle (b : Browser) (f : DriveFolder.t) :
  currentFolder b = Some f ->
  climbs (foldersOf b) f f ->
  forall fuel, breadcrumb fuel b = None.
Proof.
  intros Hc Hcyc fuel. unfold breadcrumb. rewrite Hc.
  unfold currentFolder in Hc. destruct (section b); try discriminate.
  clear Hc. generalize (@nil DriveFolder.t) as acc. revert f Hcyc.
  induction fuel as [| k IH]; intros f Hcyc acc; [reflexivity |].
  simpl. destruct (climbs_self_next _ _ Hcyc) as (p & Ep & Hp).
  rewrite Ep. now apply IH.
Qed.

Lemma breadcrumb_is_parent_chain_witness :
  exists pre,
    [folderRoot; folderDocs; folderNotes] = pre ++ [folderNotes] /\
    pathFromTop (foldersOf (setCurrentFolderId (Some 3) (browse sampleState []))) None
      [folderRoot; folderDocs; folderNotes] /\
    Forall (fun g => In g (foldersOf (setCurrentFolderId (Some 3) (browse sampleState []))) /\
                     DriveFolder.trashed g = false) pre.
Proof.
  apply (breadcrumb_is_parent_chain 4 (setCurrentFolderId (Some 3) (browse sampleState []))
           folderNotes [folderRoot; folderDocs; folderNotes]); reflexivity.
Defined.

Lemma climbs_target (fs : list DriveFolder.t) (a b : DriveFolder.t) :
  climbs fs a b -> In b fs.
Proof.
  intros H. induction H as [a b E | a b c E _ IH]; [| exact IH].
  apply parentOf_some in E. tauto.
Qed.

Ltac climb_up H H' :=
  let E := fresh "E" in
  inversion H as [? ? E | ? ? ? E H']; subst; vm_compute in E;
  try discriminate E;
  try (injection E as <-).

Lemma breadcrumb_ends_on_a_tree_witness :
  exists path,
    breadcrumb (S (List.length (foldersOf (browse sampleState [])))) (browse sampleState [])
    = Some path.
Proof.
  apply (breadcrumb_ends_on_a_tree (browse sampleState [])).
  intros g H. assert (Hg := climbs_target _ _ _ H). simpl in Hg.
  destruct Hg as [<- | [<- | [<- | []]]].
  - climb_up H H1.
  - climb_up H H1. climb_up H1 H2.
  - climb_up H H1. climb_up H1 H2. climb_up H2 H3.
Defined.

Lemma breadcrumb_loops_on_a_cycle_witness :
  breadcrumb 1000 (browse selfParentState []) = None.
Proof.
  apply (breadcrumb_loops_on_a_cycle (browse selfParentState [])
           (DriveFolder.mk 1 "My Drive" (Some 1) false None)).
  - reflexivity.
  - apply climbs_parent. reflexivity.
Defined.

(** ** What the view shows *)

Lemma sectionFiles_spec (b : Browser) (f : DriveFile.t) :
  In f (sectionFiles b) ->
  In f (filesOf b) /\
  (DriveFile.trashed f = true <-> section b = Trash) /\
  (section b = MyDrive -> same_ref (DriveFile.parentId f) (currentFolderId b) = true) /\
  (section b = Starred -> DriveFile.starred f = true) /\
  (section b = Shared -> DriveFile.isShared f = true).
Proof.
  unfold sectionFiles. destruct (section b); intros H; apply filter_In in H;
    destruct H as [Hin Hc]; try (apply andb_true_iff in Hc; destruct Hc as [H1 H2]);
    rewrite ?negb_true_iff in *; (split; [exact Hin |]);
    repeat split; intros; try discriminate; try congruence.
Qed.

(** X4.  Every item of the view is an item of the state.  A trashed folder
    or file is shown in the trash section only, and that section shows
    nothing else; it shows every trashed folder, wherever it lies.  No
    folder is shown under Starred or Shared, and under My Drive every item
    shown has the current folder as [parentId]. *)
Theorem view_respects_trash (getTime : string -> option Z) (b : Browser) :
  (forall g, In g (visibleFolders b) ->
     In g (foldersOf b) /\
     (DriveFolder.trashed g = true <-> section b = Trash) /\
     (section b = MyDrive ->
      same_ref (DriveFolder.parentId g) (currentFolderId b) = true)) /\
  (forall f, In f (visibleFiles getTime b) ->
     In f (filesOf b) /\
     (DriveFile.trashed f = true <-> section b = Trash) /\
     (section b = MyDrive ->
      same_ref (DriveFile.parentId f) (currentFolderId b) = true)) /\
  (section b = Trash ->
   forall g, In g (foldersOf b) -> DriveFolder.trashed g = true ->
             In g (visibleFolders b)) /\
  (section b = Starred \/ section b = Shared -> visibleFolders b = []).
Proof.
  repeat apply conj.
  - unfold visibleFolders. intros g H. destruct (section b) eqn:Es;
      try contradiction; apply filter_In in H; destruct H as [Hin Hc].
    + apply andb_true_iff in Hc. destruct Hc as [H1 H2].
      apply negb_true_iff in H1.
      repeat split; intros; try discriminate; try congruence.
    + repeat split; intros; try discriminate; try congruence.
  - intros f H. unfold visibleFiles in H.
    apply (Permutation_in _ (sortWith_perm _ _)) in H.
    assert (Hs : In f (sectionFiles b)).
    { unfold searchFiles in H.
      destruct (negb (is_empty (trim (search b)))); [| exact H].
      now apply filter_In in H. }
    destruct (sectionFiles_spec b f Hs) as (H1 & H2 & H3 & _). auto.
  - intros Es g Hg Ht. unfold visibleFolders. rewrite Es.
    apply filter_In. auto.
  - intros [Es | Es]; unfold visibleFolders; now rewrite Es.
Qed.

(** ** Search *)

Lemma toLowerCase_empty (s s' : string) :
  toLowerCase s = toLowerCase s' -> is_empty s = is_empty s'.
Proof. destruct s, s'; simpl; intros H; congruence. Qed.

Lemma trimStart_spaces (s : string) :
  Forall (fun c => is_space c = true) (list_ascii_of_string s) ->
  trimStart s = EmptyString.
Proof.
  induction s as [| c s IH]; simpl; intros H; [reflexivity |].
  inversion H as [| ? ? Hc Hs]; subst. rewrite Hc. now apply IH.
Qed.

(** X5.  Only the lower-cased, trimmed search text matters to the files
    shown; a search text of white space shows the files of the section
    unfiltered; under any other text the files shown are exactly the files
    of the section whose lower-cased name contains the lower-cased,
    trimmed text, sorted; and the search never filters the folders. *)
Theorem search_filters_files_without_case (getTime : string -> option Z)
  (b : Browser) (q q' : string) :
  (toLowerCase (trim q) = toLowerCase (trim q') ->
   visibleFiles getTime (setSearch q b) = visibleFiles getTime (setSearch q' b)) /\
  (Forall (fun c => is_space c = true) (list_ascii_of_string q) ->
   visibleFiles getTime (setSearch q b) =
   sortWith (compareFiles getTime (sortBy b) (sortDir b)) (sectionFiles b)) /\
  (trim q <> EmptyString ->
   visibleFiles getTime (setSearch q b) =
   sortWith (compareFiles getTime (sortBy b) (sortDir b))
     (filter (fun f => str_includes (toLowerCase (DriveFile.name f))
                                    (toLowerCase (trim q)))
             (sectionFiles b)) /\
   forall f, In f (visibleFiles getTime (setSearch q b)) <->
     In f (sectionFiles b) /\
     str_includes (toLowerCase (DriveFile.name f)) (toLowerCase (trim q)) = true) /\
  visibleFolders (setSearch q b) = visibleFolders b.
Proof.
  repeat apply conj.
  - intros E. unfold visibleFiles, searchFiles. simpl.
    rewrite (toLowerCase_empty _ _ E), E. reflexivity.
  - intros Hs. unfold visibleFiles, searchFiles, trim. simpl.
    rewrite (trimStart_spaces q Hs). reflexivity.
  - intros Hne.
    assert (E : visibleFiles getTime (setSearch q b) =
                sortWith (compareFiles getTime (sortBy b) (sortDir b))
                  (filter (fun f => str_includes (toLowerCase (DriveFile.name f))
                                                 (toLowerCase (trim q)))
                          (sectionFiles b))).
    { unfold visibleFiles, searchFiles. simpl.
      destruct (trim q) eqn:Et; [congruence |]. reflexivity. }
    split; [exact E |]. intros f. rewrite E. split.
    + intros H. apply (Permutation_in _ (sortWith_perm _ _)) in H.
      apply filter_In in H. exact H.
    + intros H. apply (Permutation_in _ (Permutation_sym (sortWith_perm _ _))).
      apply filter_In. exact H.
  - reflexivity.
Qed.

Lemma search_filters_files_without_case_witness :
  In (trashFile fileA)
     (visibleFiles simpleTime
        (setSearch " A.T " (setSection Trash (browse trashedDocsState [])))) /\
  ~ In (trashFile fileB)
       (visibleFiles simpleTime
          (setSearch " A.T " (setSection Trash (browse trashedDocsState [])))).
Proof.
  destruct (search_filters_files_without_case simpleTime
              (setSection Trash (browse trashedDocsState [])) " A.T " " A.T ")
    as (_ & _ & H & _).
  destruct (H ltac:(vm_compute; discriminate)) as [_ Hiff].
  split.
  - apply Hiff. split; [simpl; tauto | reflexivity].
  - intros C. apply Hiff in C. destruct C as [_ C]. vm_compute in C.
    discriminate C.
Defined.

(** ** Selection *)

Lemma includes_app (l : list Z) (y x : Z) :
  includes (l ++ [y]) x = includes l x || (x =? y).
Proof. unfold includes. rewrite existsb_app. simpl. now rewrite orb_false_r. Qed.

Lemma includes_remove (l : list Z) (y x : Z) :
  includes (filter (fun z => negb (z =? y)) l) x = includes l x && negb (x =? y).
Proof.
  unfold includes. induction l as [| a l IH]; simpl; [reflexivity |].
  destruct (a =? y) eqn:Ea; simpl; rewrite IH.
  - apply Z.eqb_eq in Ea. subst a.
    destruct (x =? y) eqn:Ex; simpl; [now rewrite !andb_false_r | reflexivity].
  - destruct (x =? a) eqn:Exa; simpl; [| reflexivity].
    apply Z.eqb_eq in Exa. subst a. now rewrite Ea.
Qed.

(** X6.  Toggling an id flips whether it is selected and leaves every other
    id as it was; a selection without repetition stays so; toggling twice
    gives back the same set of ids. *)
Theorem toggleSelect_flips_one_id (id : Z) (b : Browser) :
  (forall x, isSelected (toggleSelect id b) x =
             if x =? id then negb (isSelected b id) else isSelected b x) /\
  (NoDup (selectedIds b) -> NoDup (selectedIds (toggleSelect id b))) /\
  (forall x, isSelected (toggleSelect id (toggleSelect id b)) x = isSelected b x).
Proof.
  assert (H1 : forall c x, isSelected (toggleSelect id c) x =
                           if x =? id then negb (isSelected c id) else isSelected c x).
  { intros c x. unfold isSelected, toggleSelect. simpl.
    destruct (includes (selectedIds c) id) eqn:Ei.
    - rewrite includes_remove. destruct (x =? id) eqn:Ex; simpl.
      + now rewrite andb_false_r.
      + now rewrite andb_true_r.
    - rewrite includes_app. destruct (x =? id) eqn:Ex; simpl.
      + now rewrite orb_true_r.
      + now rewrite orb_false_r. }
  repeat apply conj.
  - apply H1.
  - intros Hnd. unfold toggleSelect. simpl.
    destruct (includes (selectedIds b) id) eqn:Ei.
    + now apply NoDup_filter.
    + apply (has_false (selectedIds b) id) in Ei.
      apply NoDup_app; [exact Hnd | repeat constructor; intros [] |].
      intros x Hx [<- | []]. now apply Ei.
  - intros x. rewrite H1. destruct (x =? id) eqn:Ex.
    + rewrite H1, Z.eqb_refl, negb_involutive. apply Z.eqb_eq in Ex. now subst.
    + rewrite H1, Ex. reflexivity.
Qed.

(** X7.  Pressing a sort field makes it the sort key.  Pressed on the
    current key it flips the direction and nothing else, so two presses
    change nothing; pressed on the other key it starts ascending.  No hook
    but the two sort settings changes. *)
Theorem toggleSort_cycles (field : SortBy) (b : Browser) :
  sortBy (toggleSort field b) = field /\
  (sortBy b = field ->
   sortDir (toggleSort field b) =
     match sortDir b with Asc => Desc | Desc => Asc end) /\
  (sortBy b = field -> toggleSort field (toggleSort field b) = b) /\
  (sortBy b <> field -> sortDir (toggleSort field b) = Asc) /\
  state (toggleSort field b) = state b /\
  section (toggleSort field b) = section b /\
  currentFolderId (toggleSort field b) = currentFolderId b /\
  search (toggleSort field b) = search b /\
  selectedIds (toggleSort field b) = selectedIds b /\
  newMenuOpen (toggleSort field b) = newMenuOpen b /\
  busy (toggleSort field b) = busy b.
Proof.
  destruct b as [s sec cur by_ dir q sel menu bz]. unfold toggleSort. simpl.
  destruct by_, field, dir; simpl; repeat split; intros; congruence.
Qed.

(** ** More on move to trash and restore *)

Lemma trashFolder_place (f : DriveFolder.t) : folderSamePlace f (trashFolder f).
Proof. repeat split. Qed.

Lemma trashFile_place (f : DriveFile.t) : fileSamePlace f (trashFile f).
Proof. repeat split. Qed.

(** X8.  Move to trash never removes, reorders, renames, moves or restores
    anything: folder by folder and file by file, the new state has the same
    id, name and [parentId] (for a file also type, owner, size, star,
    share and date), and what was trashed is still trashed.  Afterwards
    every folder and file whose id was selected is trashed. *)
Theorem moveToTrash_keeps_places (b : Browser) (st : DriveState) :
  state b = Some st ->
  exists b' st',
    handleMoveToTrashSelected true b = Some b' /\
    state b' = Some st' /\
    Forall2 (fun f f' =>
               folderSamePlace f f' /\
               (DriveFolder.trashed f = true -> DriveFolder.trashed f' = true) /\
               (In (DriveFolder.id f) (selectedIds b) -> DriveFolder.trashed f' = true))
            (folders st) (folders st') /\
    Forall2 (fun f f' =>
               fileSamePlace f f' /\
               (DriveFile.trashed f = true -> DriveFile.trashed f' = true) /\
               (In (DriveFile.id f) (selectedIds b) -> DriveFile.trashed f' = true))
            (files st) (files st').
Proof.
  intros Hst.
  destruct (moveToTrash_run b st Hst) as (A & B & b' & E & Hrun & Hs & _).
  destruct (trashSets_spec st (selectedIds b)) as (A' & B' & E' & HA & HB).
  rewrite E in E'. injection E' as <- <-.
  exists b', (applyTrash (A, B) st).
  split; [exact Hrun |]. split; [exact Hs |]. simpl. split.
  - apply Forall2_map_self. intros f Hf.
    destruct (has A (DriveFolder.id f)) eqn:Eh.
    + split; [apply trashFolder_place |]. split; reflexivity.
    + split; [repeat split |]. split; [auto |].
      intros Hsel. destruct (DriveFolder.trashed f) eqn:Et; [reflexivity |].
      exfalso. apply has_false in Eh. apply Eh, HA.
      apply cascade_selected; [exact Hf | | exact Hsel].
      unfold liveFolder. now rewrite Et.
  - apply Forall2_map_self. intros f Hf.
    destruct (has B (DriveFile.id f)) eqn:Eh.
    + split; [apply trashFile_place |]. split; reflexivity.
    + split; [repeat split |]. split; [auto |].
      intros Hsel. destruct (DriveFile.trashed f) eqn:Et; [reflexivity |].
      exfalso. apply has_false in Eh. apply Eh, HB.
      exists f. repeat split; auto. unfold liveFile. now rewrite Et.
Qed.

Lemma moveToTrash_keeps_places_witness :
  exists b' st',
    handleMoveToTrashSelected true (browse sampleState [2; 11]) = Some b' /\
    state b' = Some st' /\
    Forall2 (fun f f' =>
               folderSamePlace f f' /\
               (DriveFolder.trashed f = true -> DriveFolder.trashed f' = true) /\
               (In (DriveFolder.id f) [2; 11] -> DriveFolder.trashed f' = true))
            (folders sampleState) (folders st') /\
    Forall2 (fun f f' =>
               fileSamePlace f f' /\
               (DriveFile.trashed f = true -> DriveFile.trashed f' = true) /\
               (In (DriveFile.id f) [2; 11] -> DriveFile.trashed f' = true))
            (files sampleState) (files st').
Proof.
  apply (moveToTrash_keeps_places (browse sampleState [2; 11]) sampleState).
  reflexivity.
Defined.

Lemma restoreFolder_from (root : Z) (f : DriveFolder.t) :
  folderRestoredFrom root f (restoreFolder root f).
Proof.
  unfold folderRestoredFrom, restoreFolder, restoreTarget, nullish. simpl.
  repeat split.
  now destruct (DriveFolder.originalParentId f), (DriveFolder.parentId f).
Qed.

Lemma restoreFile_from (root : Z) (f : DriveFile.t) :
  fileRestoredFrom root f (restoreFile root f).
Proof.
  unfold fileRestoredFrom, restoreFile, restoreTarget, nullish. simpl.
  repeat split.
  now destruct (DriveFile.originalParentId f), (DriveFile.parentId f).
Qed.

(** X9.  With the ids of each collection unique, restore patches every
    selected folder or file that is trashed, and recursively every trashed
    folder or file whose parent was patched: it is no longer trashed, its
    [parentId] becomes its [originalParentId], or stays when that is null,
    or becomes the root folder when both are null, and its
    [originalParentId] is cleared.  Every other item is left as it was,
    and the section becomes My Drive. *)
Theorem restore_marks_closure (b : Browser) (st : DriveState) :
  state b = Some st ->
  selectedIds b <> [] ->
  NoDup (map DriveFolder.id (folders st)) ->
  NoDup (map DriveFile.id (files st)) ->
  exists b' st',
    handleRestoreSelected b = Some b' /\
    state b' = Some st' /\
    section b' = MyDrive /\
    currentFolderId b' = currentFolderId b /\
    Forall2 (fun f f' =>
               (inRestoreClosure st (selectedIds b) f ->
                folderRestoredFrom (rootFolderId st) f f') /\
               (~ inRestoreClosure st (selectedIds b) f -> f' = f))
            (folders st) (folders st') /\
    Forall2 (fun f f' =>
               (inRestoreClosureFile st (selectedIds b) f ->
                fileRestoredFrom (rootFolderId st) f f') /\
               (~ inRestoreClosureFile st (selectedIds b) f -> f' = f))
            (files st) (files st').
Proof.
  intros Hst Hsel NDf NDfi.
  destruct (restoreSets_spec st (selectedIds b)) as (A & B & E & HA & HB).
  exists (setSection MyDrive (setSelectedIds []
            (setState (Some (applyRestore (rootFolderId st) (A, B) st)) b))),
    (applyRestore (rootFolderId st) (A, B) st).
  split.
  { unfold handleRestoreSelected. rewrite Hst, E.
    destruct (selectedIds b); [congruence | reflexivity]. }
  split; [reflexivity |]. split; [reflexivity |]. split; [reflexivity |].
  simpl. split.
  - apply Forall2_map_self. intros f Hf. split.
    + intros [_ Hc]. apply HA, has_In in Hc. rewrite Hc. apply restoreFolder_from.
    + intros Hn. destruct (has A (DriveFolder.id f)) eqn:Eh; [| reflexivity].
      exfalso. apply Hn. apply has_In, HA in Eh. split; [| exact Eh].
      destruct (cascade_folder _ _ _ _ Eh) as (g & Hg & Eg & Ht).
      assert (g = f) by (eapply NoDup_key_inj; eassumption). now subst g.
  - apply Forall2_map_self. intros f Hf. split.
    + intros [_ Hc]. apply HB, has_In in Hc. rewrite Hc. apply restoreFile_from.
    + intros Hn. destruct (has B (DriveFile.id f)) eqn:Eh; [| reflexivity].
      exfalso. apply Hn. apply has_In, HB in Eh. split; [| exact Eh].
      destruct Eh as (g & Hg & Eg & Ht & _).
      assert (g = f) by (eapply NoDup_key_inj; eassumption). now subst g.
Qed.

Lemma restore_marks_closure_witness :
  exists b' st',
    handleRestoreSelected (browse trashedDocsState [3]) = Some b' /\
    state b' = Some st' /\
    section b' = MyDrive /\
    currentFolderId b' = currentFolderId (browse trashedDocsState [3]) /\
    Forall2 (fun f f' =>
               (inRestoreClosure trashedDocsState [3] f ->
                folderRestoredFrom 1 f f') /\
               (~ inRestoreClosure trashedDocsState [3] f -> f' = f))
            (folders trashedDocsState) (folders st') /\
    Forall2 (fun f f' =>
               (inRestoreClosureFile trashedDocsState [3] f ->
                fileRestoredFrom 1 f f') /\
               (~ inRestoreClosureFile trashedDocsState [3] f -> f' = f))
            (files trashedDocsState) (files st').
Proof.
  apply (restore_marks_closure (browse trashedDocsState [3]) trashedDocsState).
  - reflexivity.
  - discriminate.
  - nodup_ids.
  - nodup_ids.
Defined.

Lemma map_same {A : Type} (g : A -> A) (l : list A) :
  (forall x, In x l -> g x = x) -> map g l = l.
Proof.
  induction l as [| a l IH]; intros H; simpl; [reflexivity |].
  rewrite (H a (or_introl eq_refl)), IH; [reflexivity |].
  intros x Hx. apply H. now right.
Qed.

Lemma applyTrash_none (A B : IdSet) (st : DriveState) :
  (forall f, In f (folders st) -> ~ In (DriveFolder.id f) A) ->
  (forall f, In f (files st) -> ~ In (DriveFile.id f) B) ->
  applyTrash (A, B) st = st.
Proof.
  intros HA HB. destruct st as [r fo fi]. unfold applyTrash. simpl in *.
  f_equal; apply map_same; intros f Hf.
  - specialize (HA f Hf). apply has_false in HA. now rewrite HA.
  - specialize (HB f Hf). apply has_false in HB. now rewrite HB.
Qed.

Lemma applyRestore_none (root : Z) (A B : IdSet) (st : DriveState) :
  (forall f, In f (folders st) -> ~ In (DriveFolder.id f) A) ->
  (forall f, In f (files st) -> ~ In (DriveFile.id f) B) ->
  applyRestore root (A, B) st = st.
Proof.
  intros HA HB. destruct st as [r fo fi]. unfold applyRestore. simpl in *.
  f_equal; apply map_same; intros f Hf.
  - specialize (HA f Hf). apply has_false in HA. now rewrite HA.
  - specialize (HB f Hf). apply has_false in HB. now rewrite HB.
Qed.

(** after move to trash, the same selection reaches nothing any more *)
Lemma trashCascade_spent (st : DriveState) (selected : list Z) (A B : IdSet) :
  (forall x, In x A <-> trashCascade st selected x) ->
  (forall y, In y B <-> trashCascadeFile st selected y) ->
  (forall x, ~ trashCascade (applyTrash (A, B) st) selected x) /\
  (forall y, ~ trashCascadeFile (applyTrash (A, B) st) selected y).
Proof.
  intros HA HB.
  assert (H1 : forall x, ~ trashCascade (applyTrash (A, B) st) selected x).
  { intros x H. induction H as [f1 Hf1 He Hs | f1 p Hf1 He Hp Hc IH]; [| exact IH].
    simpl in Hf1. apply in_map_iff in Hf1. destruct Hf1 as (f & <- & Hf).
    destruct (has A (DriveFolder.id f)) eqn:Eh; [discriminate He |].
    apply has_false in Eh. apply Eh, HA. now apply cascade_selected. }
  split; [exact H1 |].
  intros y (f1 & Hf1 & <- & He & Hor).
  simpl in Hf1. apply in_map_iff in Hf1. destruct Hf1 as (f & <- & Hf).
  destruct (has B (DriveFile.id f)) eqn:Eh; [discriminate He |].
  destruct Hor as [Hs | (p & _ & Hc)]; [| exact (H1 p Hc)].
  apply has_false in Eh. apply Eh, HB. exists f. auto.
Qed.

Lemma restoreCascade_spent (st : DriveState) (selected : list Z) (A B : IdSet) :
  (forall x, In x A <-> restoreCascade st selected x) ->
  (forall y, In y B <-> restoreCascadeFile st selected y) ->
  (forall x, ~ restoreCascade (applyRestore (rootFolderId st) (A, B) st) selected x) /\
  (forall y, ~ restoreCascadeFile (applyRestore (rootFolderId st) (A, B) st) selected y).
Proof.
  intros HA HB.
  assert (H1 : forall x,
            ~ restoreCascade (applyRestore (rootFolderId st) (A, B) st) selected x).
  { intros x H. induction H as [f1 Hf1 He Hs | f1 p Hf1 He Hp Hc IH]; [| exact IH].
    simpl in Hf1. apply in_map_iff in Hf1. destruct Hf1 as (f & <- & Hf).
    destruct (has A (DriveFolder.id f)) eqn:Eh; [discriminate He |].
    apply has_false in Eh. apply Eh, HA. now apply cascade_selected. }
  split; [exact H1 |].
  intros y (f1 & Hf1 & <- & He & Hor).
  simpl in Hf1. apply in_map_iff in Hf1. destruct Hf1 as (f & <- & Hf).
  destruct (has B (DriveFile.id f)) eqn:Eh; [discriminate He |].
  destruct Hor as [Hs | (p & _ & Hc)]; [| exact (H1 p Hc)].
  apply has_false in Eh. apply Eh, HB. exists f. auto.
Qed.

(** X10.  Moving the same selection to trash a second time changes nothing
    in the state; so does restoring the same selection a second time. *)
Theorem trash_and_restore_are_idempotent (b : Browser) (st : DriveState)
  (selected : list Z) :
  state b = Some st ->
  (exists b1 b2,
     handleMoveToTrashSelected true (setSelectedIds selected b) = Some b1 /\
     handleMoveToTrashSelected true (setSelectedIds selected b1) = Some b2 /\
     state b2 = state b1) /\
  (exists b1 b2,
     handleRestoreSelected (setSelectedIds selected b) = Some b1 /\
     handleRestoreSelected (setSelectedIds selected b1) = Some b2 /\
     state b2 = state b1).
Proof.
  intros Hst. split.
  - destruct (moveToTrash_run (setSelectedIds selected b) st Hst)
      as (A & B & b1 & E & Hrun1 & Hs1 & _).
    destruct (trashSets_spec st selected) as (A' & B' & E' & HA & HB).
    simpl in E. rewrite E in E'. injection E' as <- <-.
    destruct (moveToTrash_run (setSelectedIds selected b1) (applyTrash (A, B) st) Hs1)
      as (A2 & B2 & b2 & E2 & Hrun2 & Hs2 & _).
    destruct (trashSets_spec (applyTrash (A, B) st) selected)
      as (A2' & B2' & E2' & HA2 & HB2).
    change (selectedIds (setSelectedIds selected b1)) with selected in E2.
    rewrite E2 in E2'. injection E2' as <- <-.
    destruct (trashCascade_spent st selected A B HA HB) as [N1 N2].
    exists b1, b2. split; [exact Hrun1 |]. split; [exact Hrun2 |].
    rewrite Hs2, Hs1. f_equal. apply applyTrash_none.
    + intros f _ C. apply (N1 _ (proj1 (HA2 _) C)).
    + intros f _ C. apply (N2 _ (proj1 (HB2 _) C)).
  - destruct (restore_run (setSelectedIds selected b) st Hst)
      as (A & B & b1 & E & Hrun1 & Hs1 & _).
    destruct (restoreSets_spec st selected) as (A' & B' & E' & HA & HB).
    simpl in E. rewrite E in E'. injection E' as <- <-.
    destruct (restore_run (setSelectedIds selected b1)
                (applyRestore (rootFolderId st) (A, B) st) Hs1)
      as (A2 & B2 & b2 & E2 & Hrun2 & Hs2 & _).
    destruct (restoreSets_spec (applyRestore (rootFolderId st) (A, B) st) selected)
      as (A2' & B2' & E2' & HA2 & HB2).
    change (selectedIds (setSelectedIds selected b1)) with selected in E2.
    rewrite E2 in E2'. injection E2' as <- <-.
    destruct (restoreCascade_spent st selected A B HA HB) as [N1 N2].
    exists b1, b2. split; [exact Hrun1 |]. split; [exact Hrun2 |].
    rewrite Hs2, Hs1. f_equal. apply applyRestore_none.
    + intros f _ C. apply (N1 _ (proj1 (HA2 _) C)).
    + intros f _ C. apply (N2 _ (proj1 (HB2 _) C)).
Qed.

Lemma trash_and_restore_are_idempotent_witness :
  (exists b1 b2,
     handleMoveToTrashSelected true (setSelectedIds [2] (browse sampleState [])) = Some b1 /\
     handleMoveToTrashSelected true (setSelectedIds [2] b1) = Some b2 /\
     state b2 = state b1) /\
  (exists b1 b2,
     handleRestoreSelected (setSelectedIds [2] (browse sampleState [])) = Some b1 /\
     handleRestoreSelected (setSelectedIds [2] b1) = Some b2 /\
     state b2 = state b1).
Proof.
  apply (trash_and_restore_are_idempotent (browse sampleState []) sampleState [2]).
  reflexivity.
Defined.

(** ** Where the operations leave the user *)

(** X11.  A confirmed move to trash of a selection that is not empty sends
    the user to the root folder of My Drive exactly when the current folder
    id is not null, not zero, and among the folders the operation trashes;
    otherwise folder and section stay.  Permanent delete never changes
    folder or section. *)
Theorem moveToTrash_leaves_a_trashed_folder (b : Browser) (st : DriveState) :
  state b = Some st ->
  selectedIds b <> [] ->
  (exists b',
     handleMoveToTrashSelected true b = Some b' /\
     ((exists c, currentFolderId b = Some c /\ c <> 0 /\
                 trashCascade st (selectedIds b) c) ->
      currentFolderId b' = Some (rootFolderId st) /\ section b' = MyDrive) /\
     (~ (exists c, currentFolderId b = Some c /\ c <> 0 /\
                   trashCascade st (selectedIds b) c) ->
      currentFolderId b' = currentFolderId b /\ section b' = section b)) /\
  (exists b3,
     handlePermanentDeleteSelected true b = Some b3 /\
     currentFolderId b3 = currentFolderId b /\ section b3 = section b).
Proof.
  intros Hst Hsel. split.
  - destruct (trashSets_spec st (selectedIds b)) as (A & B & E & HA & _).
    unfold handleMoveToTrashSelected. rewrite Hst, E.
    destruct (selectedIds b) as [| s0 sel] eqn:Es; [congruence |].
    simpl. eexists. split; [reflexivity |].
    destruct (currentFolderId b) as [c |] eqn:Ec; simpl.
    + destruct (c =? 0) eqn:E0; simpl.
      * apply Z.eqb_eq in E0. split.
        -- intros (c' & [= <-] & Hn & _). congruence.
        -- intros _. now rewrite Ec.
      * apply Z.eqb_neq in E0. destruct (has A c) eqn:Eh; simpl.
        -- split; [auto |]. intros N. exfalso. apply N. exists c.
           repeat split; auto. now apply HA, has_In.
        -- split.
           ++ intros (c' & [= <-] & _ & Hc). apply HA, has_In in Hc. congruence.
           ++ intros _. now rewrite Ec.
    + split.
      * intros (c & C & _). discriminate C.
      * intros _. now rewrite Ec.
  - destruct (permanentDelete_run b st Hst) as (A & B & b3 & E & Hrun & _).
    exists b3. split; [exact Hrun |].
    unfold handlePermanentDeleteSelected in Hrun. rewrite Hst, E in Hrun.
    destruct (List.length (selectedIds b) =? 0)%nat; simpl in Hrun;
      injection Hrun as <-; split; reflexivity.
Qed.

Lemma moveToTrash_leaves_a_trashed_folder_witness :
  (exists b',
     handleMoveToTrashSelected true (setCurrentFolderId (Some 3) (browse sampleState [2]))
     = Some b' /\
     ((exists c, Some 3 = Some c /\ c <> 0 /\ trashCascade sampleState [2] c) ->
      currentFolderId b' = Some 1 /\ section b' = MyDrive) /\
     (~ (exists c, Some 3 = Some c /\ c <> 0 /\ trashCascade sampleState [2] c) ->
      currentFolderId b' = Some 3 /\ section b' = MyDrive)) /\
  (exists b3,
     handlePermanentDeleteSelected true
       (setCurrentFolderId (Some 3) (browse sampleState [2])) = Some b3 /\
     currentFolderId b3 = Some 3 /\ section b3 = MyDrive).
Proof.
  apply (moveToTrash_leaves_a_trashed_folder
           (setCurrentFolderId (Some 3) (browse sampleState [2])) sampleState).
  - reflexivity.
  - discriminate.
Defined.

(** ** More on empty trash and permanent delete *)

Lemma existsb_filter_negb {A : Type} (p : A -> bool) (l : list A) :
  existsb p (filter (fun x => negb (p x)) l) = false.
Proof.
  induction l as [| a l IH]; simpl; [reflexivity |].
  destruct (p a) eqn:E; simpl; [exact IH | now rewrite E].
Qed.

Lemma existsb_none {A : Type} (p : A -> bool) (l : list A) (x : A) :
  existsb p l = false -> In x l -> p x = false.
Proof.
  intros H Hx. destruct (p x) eqn:E; [| reflexivity].
  assert (C : existsb p l = true) by (apply existsb_exists; eauto). congruence.
Qed.

(** X12.  After a confirmed empty trash nothing is trashed, and the folders
    and files left are exactly those that were not trashed, in their
    order; a second empty trash changes nothing; a declined dialog changes
    nothing; folder and section stay. *)
Theorem emptyTrash_leaves_no_trash (b : Browser) :
  hasTrash (handleEmptyTrash true b) = false /\
  foldersOf (handleEmptyTrash true b) =
    filter (fun f => negb (DriveFolder.trashed f)) (foldersOf b) /\
  filesOf (handleEmptyTrash true b) =
    filter (fun f => negb (DriveFile.trashed f)) (filesOf b) /\
  handleEmptyTrash true (handleEmptyTrash true b) = handleEmptyTrash true b /\
  handleEmptyTrash false b = b /\
  currentFolderId (handleEmptyTrash true b) = currentFolderId b /\
  section (handleEmptyTrash true b) = section b.
Proof.
  assert (H1 : hasTrash (handleEmptyTrash true b) = false).
  { unfold handleEmptyTrash. destruct (state b) as [st |] eqn:Hst.
    - destruct (hasTrash b) eqn:Ht; simpl; [| exact Ht].
      unfold hasTrash, foldersOf, filesOf. simpl.
      now rewrite !existsb_filter_negb.
    - unfold hasTrash, foldersOf, filesOf. now rewrite Hst. }
  split; [exact H1 |]. repeat apply conj.
  - unfold handleEmptyTrash, foldersOf. destruct (state b) as [st |] eqn:Hst.
    + destruct (hasTrash b) eqn:Ht; simpl; [reflexivity |].
      rewrite Hst. unfold hasTrash, foldersOf in Ht. rewrite Hst in Ht.
      apply orb_false_iff in Ht. now rewrite (filter_all _ _ (proj1 Ht)).
    + now rewrite Hst.
  - unfold handleEmptyTrash, filesOf. destruct (state b) as [st |] eqn:Hst.
    + destruct (hasTrash b) eqn:Ht; simpl; [reflexivity |].
      rewrite Hst. unfold hasTrash, filesOf in Ht. rewrite Hst in Ht.
      apply orb_false_iff in Ht. now rewrite (filter_all _ _ (proj2 Ht)).
    + now rewrite Hst.
  - unfold handleEmptyTrash at 1. rewrite H1.
    now destruct (state (handleEmptyTrash true b)).
  - unfold handleEmptyTrash. destruct (state b); [| reflexivity].
    now destruct (hasTrash b).
  - unfold handleEmptyTrash. destruct (state b); [| reflexivity].
    now destruct (hasTrash b).
  - unfold handleEmptyTrash. destruct (state b); [| reflexivity].
    now destruct (hasTrash b).
Qed.

Lemma filter_every {A : Type} (p : A -> bool) (l : list A) :
  (forall x, In x l -> p x = true) -> filter p l = l.
Proof.
  induction l as [| a l IH]; intros H; simpl; [reflexivity |].
  rewrite (H a (or_introl eq_refl)), IH; [reflexivity |].
  intros x Hx. apply H. now right.
Qed.

(** X13.  Permanent delete removes nothing outside its cascade.  The
    folders left are the folders of the state, unchanged and in their
    order, without those whose id is in the set of the operation, and that
    set holds exactly the ids of the selected folders and of the folders
    below them; the files left are the files of the state, unchanged and
    in their order, without those that are selected or in a removed
    folder.  When no folder and no file has a selected id, the state is
    left as it was. *)
Theorem permanentDelete_removes_only_the_cascade (b : Browser) (st : DriveState) :
  state b = Some st ->
  exists b' st' foldersToDelete filesToDelete,
    handlePermanentDeleteSelected true b = Some b' /\
    state b' = Some st' /\
    rootFolderId st' = rootFolderId st /\
    (forall x, In x foldersToDelete <-> deleteCascade st (selectedIds b) x) /\
    (forall y, In y filesToDelete <-> deleteCascadeFile st (selectedIds b) y) /\
    folders st' =
      filter (fun g => negb (has foldersToDelete (DriveFolder.id g))) (folders st) /\
    files st' =
      filter (fun f => negb (has filesToDelete (DriveFile.id f))) (files st) /\
    (forall g, In g (folders st') <->
       In g (folders st) /\ ~ deleteCascade st (selectedIds b) (DriveFolder.id g)) /\
    (forall f, In f (files st') <->
       In f (files st) /\ ~ deleteCascadeFile st (selectedIds b) (DriveFile.id f)) /\
    ((forall g, In g (folders st) -> ~ In (DriveFolder.id g) (selectedIds b)) ->
     (forall f, In f (files st) -> ~ In (DriveFile.id f) (selectedIds b)) ->
     st' = st).
Proof.
  intros Hst.
  destruct (permanentDelete_run b st Hst) as (A & B & b' & E & Hrun & Hs & _).
  destruct (deleteSets_spec st (selectedIds b)) as (A' & B' & E' & HA & HB).
  rewrite E in E'. injection E' as <- <-.
  exists b', (applyDelete (A, B) st), A, B.
  split; [exact Hrun |]. split; [exact Hs |]. split; [reflexivity |].
  split; [exact HA |]. split; [exact HB |].
  split; [reflexivity |]. split; [reflexivity |].
  simpl. repeat apply conj.
  - intros g. rewrite filter_In, negb_true_iff, has_false, HA. reflexivity.
  - intros f. rewrite filter_In, negb_true_iff, has_false, HB. reflexivity.
  - intros Nf Nfi.
    assert (N1 : forall x, ~ deleteCascade st (selectedIds b) x).
    { intros x H. induction H as [f Hf _ Hsel | f p _ _ _ _ IH]; [| exact IH].
      exact (Nf f Hf Hsel). }
    destruct st as [r fo fi]. unfold applyDelete. simpl in *. f_equal.
    + apply filter_every. intros g Hg. apply negb_true_iff, has_false.
      intros C. exact (N1 _ (proj1 (HA _) C)).
    + apply filter_every. intros f Hf. apply negb_true_iff, has_false.
      intros C. apply HB in C. destruct C as (f' & Hf' & _ & _ & [Hsel | (p & _ & Hc)]).
      * exact (Nfi f' Hf' Hsel).
      * exact (N1 p Hc).
Qed.

Lemma permanentDelete_removes_only_the_cascade_witness :
  exists b' st' foldersToDelete filesToDelete,
    handlePermanentDeleteSelected true (browse trashedDocsState [3; 10]) = Some b' /\
    state b' = Some st' /\
    rootFolderId st' = rootFolderId trashedDocsState /\
    (forall x, In x foldersToDelete <-> deleteCascade trashedDocsState [3; 10] x) /\
    (forall y, In y filesToDelete <->
               deleteCascadeFile trashedDocsState [3; 10] y) /\
    folders st' =
      filter (fun g => negb (has foldersToDelete (DriveFolder.id g)))
             (folders trashedDocsState) /\
    files st' =
      filter (fun f => negb (has filesToDelete (DriveFile.id f)))
             (files trashedDocsState) /\
    (forall g, In g (folders st') <->
       In g (folders trashedDocsState) /\
       ~ deleteCascade trashedDocsState [3; 10] (DriveFolder.id g)) /\
    (forall f, In f (files st') <->
       In f (files trashedDocsState) /\
       ~ deleteCascadeFile trashedDocsState [3; 10] (DriveFile.id f)) /\
    ((forall g, In g (folders trashedDocsState) -> ~ In (DriveFolder.id g) [3; 10]) ->
     (forall f, In f (files trashedDocsState) -> ~ In (DriveFile.id f) [3; 10]) ->
     st' = trashedDocsState).
Proof.
  apply (permanentDelete_removes_only_the_cascade
           (browse trashedDocsState [3; 10]) trashedDocsState).
  reflexivity.
Defined.

(** ** Trash then restore, on a live subtree *)

(** X14.  Ids being unique in each collection, let [F] be the id of a
    folder with a [parentId], shared by no file, such that every folder of
    the subtree of [F] and every file in it is not trashed and carries no
    [originalParentId].  Then moving [F] to trash and restoring [F] at once
    gives back the very state one started from. *)
Theorem trash_then_restore_is_identity (b : Browser) (st : DriveState) (F : Z) :
  state b = Some st ->
  NoDup (map DriveFolder.id (folders st)) ->
  NoDup (map DriveFile.id (files st)) ->
  (forall f, In f (folders st) -> subtree st F (DriveFolder.id f) ->
             DriveFolder.trashed f = false /\ DriveFolder.originalParentId f = None) ->
  (forall f p, In f (files st) -> DriveFile.parentId f = Some p -> subtree st F p ->
               DriveFile.trashed f = false /\ DriveFile.originalParentId f = None) ->
  (forall f, In f (folders st) -> DriveFolder.id f = F ->
             DriveFolder.parentId f <> None) ->
  (forall f, In f (files st) -> DriveFile.id f <> F) ->
  exists b1 b2,
    handleMoveToTrashSelected true (setSelectedIds [F] b) = Some b1 /\
    handleRestoreSelected (setSelectedIds [F] b1) = Some b2 /\
    state b2 = Some st.
Proof.
  intros Hst NDf NDfi Lfo Lfi PF NoAlias.
  destruct (moveToTrash_run (setSelectedIds [F] b) st Hst)
    as (A & B & b1 & E & Hrun1 & Hs1 & _).
  destruct (trashSets_spec st [F]) as (A' & B' & E' & HA & HB).
  simpl in E. rewrite E in E'. injection E' as <- <-.
  destruct (restore_run (setSelectedIds [F] b1) (applyTrash (A, B) st) Hs1)
    as (A2 & B2 & b2 & E2 & Hrun2 & Hs2 & _).
  destruct (restoreSets_spec (applyTrash (A, B) st) [F]) as (A2' & B2' & E2' & HA2 & HB2).
  change (selectedIds (setSelectedIds [F] b1)) with [F] in E2.
  rewrite E2 in E2'. injection E2' as <- <-.
  exists b1, b2. split; [exact Hrun1 |]. split; [exact Hrun2 |].
  rewrite Hs2. f_equal. destruct st as [root fo fi].
  unfold applyRestore, applyTrash. simpl in *. rewrite !map_map. f_equal.
  - apply map_same. intros f Hf.
    assert (Hid : DriveFolder.id (if has A (DriveFolder.id f) then trashFolder f else f)
                  = DriveFolder.id f) by (now destruct (has A (DriveFolder.id f))).
    rewrite Hid. destruct (has A2 (DriveFolder.id f)) eqn:Eh2.
    + assert (HR := proj1 (HA2 _) (proj1 (has_In _ _) Eh2)).
      assert (Hsub := restoreCascade_subtree (mkState root fo fi) F A B _ HR).
      destruct (Lfo f Hf Hsub) as [Tf Of].
      assert (Hp : exists q, DriveFolder.parentId f = Some q).
      { destruct Hsub as [Eq | Hd].
        - specialize (PF f Hf Eq). destruct (DriveFolder.parentId f); [eauto | congruence].
        - destruct (descends_parent _ F _ Hd) as (g & q & Hg & Eg & Pg).
          assert (g = f) by (eapply NoDup_key_inj; eassumption). subst g. eauto. }
      destruct Hp as (q & Hp).
      destruct (has A (DriveFolder.id f)) eqn:Eh1.
      * destruct f as [i n p t o]. simpl in *. subst. reflexivity.
      * exfalso. destruct (cascade_folder _ _ _ _ HR) as (f1 & Hf1 & Ef1 & Tf1).
        simpl in Hf1. apply in_map_iff in Hf1. destruct Hf1 as (g & <- & Hg).
        assert (Eg : DriveFolder.id g = DriveFolder.id f)
          by (now destruct (has A (DriveFolder.id g))).
        assert (g = f) by (eapply NoDup_key_inj; eassumption). subst g.
        rewrite Eh1 in Tf1. congruence.
    + destruct (has A (DriveFolder.id f)) eqn:Eh1; [| reflexivity].
      exfalso. apply has_false in Eh2. apply Eh2, HA2.
      apply (trashCascade_restoreCascade (mkState root fo fi) F A B HA).
      now apply HA, has_In.
  - apply map_same. intros f Hf.
    assert (Hid : DriveFile.id (if has B (DriveFile.id f) then trashFile f else f)
                  = DriveFile.id f) by (now destruct (has B (DriveFile.id f))).
    rewrite Hid. destruct (has B2 (DriveFile.id f)) eqn:Eh2.
    + assert (HR := proj1 (HB2 _) (proj1 (has_In _ _) Eh2)).
      destruct (restoreCascadeFile_origin (mkState root fo fi) F A B _ HR)
        as (g & Hg & Eg & Hor).
      assert (g = f) by (eapply NoDup_key_inj; eassumption). subst g.
      destruct Hor as [Eq | (p & Pp & Hsub)]; [now apply NoAlias in Eq |].
      destruct (Lfi f p Hf Pp Hsub) as [Tf Of].
      destruct (has B (DriveFile.id f)) eqn:Eh1.
      * destruct f. simpl in *. subst. reflexivity.
      * exfalso. destruct HR as (f1 & Hf1 & Ef1 & Tf1 & _).
        simpl in Hf1. apply in_map_iff in Hf1. destruct Hf1 as (g & <- & Hg').
        assert (Eg' : DriveFile.id g = DriveFile.id f)
          by (now destruct (has B (DriveFile.id g))).
        assert (g = f) by (eapply NoDup_key_inj; eassumption). subst g.
        rewrite Eh1 in Tf1. congruence.
    + destruct (has B (DriveFile.id f)) eqn:Eh1; [| reflexivity].
      exfalso. apply has_false in Eh2. apply Eh2, HB2.
      apply (trashCascadeFile_restoreCascadeFile (mkState root fo fi) F A B HA HB).
      now apply HB, has_In.
Qed.

Lemma trash_then_restore_is_identity_witness :
  exists b1 b2,
    handleMoveToTrashSelected true (setSelectedIds [2] (browse sampleState [])) = Some b1 /\
    handleRestoreSelected (setSelectedIds [2] b1) = Some b2 /\
    state b2 = Some sampleState.
Proof.
  apply (trash_then_restore_is_identity (browse sampleState []) sampleState 2).
  - reflexivity.
  - nodup_ids.
  - nodup_ids.
  - intros f [<- | [<- | [<- | []]]] _; split; reflexivity.
  - intros f p [<- | [<- | []]] _ _; split; reflexivity.
  - intros f [<- | [<- | [<- | []]]] E; simpl in *; discriminate.
  - intros f [<- | [<- | []]]; simpl; discriminate.
Defined.

(** ** Star and share, twice *)

Lemma find_map_same_test {A : Type} (p : A -> bool) (g : A -> A) (l : list A) :
  (forall x, p (g x) = p x) ->
  find p (map g l) = option_map g (find p l).
Proof.
  intros H. induction l as [| a l IH]; simpl; [reflexivity |].
  rewrite H. destruct (p a); [reflexivity | exact IH].
Qed.

Lemma withStarred_same (f : DriveFile.t) : withStarred (DriveFile.starred f) f = f.
Proof. now destruct f. Qed.

Lemma withIsShared_same (f : DriveFile.t) : withIsShared (DriveFile.isShared f) f = f.
Proof. now destruct f. Qed.

(** X15.  With file ids unique, starring a file twice gives back the state
    one started from, and so does sharing it twice; a toggle on an id that
    no file has changes nothing. *)
Theorem toggles_undo_themselves (fileId : Z) (b : Browser) (st : DriveState) :
  state b = Some st ->
  NoDup (map DriveFile.id (files st)) ->
  state (handleStarToggle fileId (handleStarToggle fileId b)) = Some st /\
  state (handleShareToggle fileId (handleShareToggle fileId b)) = Some st /\
  ((forall f, In f (files st) -> DriveFile.id f <> fileId) ->
   handleStarToggle fileId b = b /\ handleShareToggle fileId b = b).
Proof.
  intros Hst ND. repeat apply conj.
  - unfold handleStarToggle at 2. unfold filesOf. rewrite Hst.
    destruct (find (fun f => DriveFile.id f =? fileId) (files st)) as [f0 |] eqn:Ef.
    + unfold handleStarToggle, filesOf. simpl.
      rewrite (find_map_same_test (fun f => DriveFile.id f =? fileId))
        by (intros x; destruct (DriveFile.id x =? fileId) eqn:Ex; simpl;
            rewrite ?Ex; reflexivity).
      rewrite Ef. simpl. rewrite map_map.
      assert (E0 := find_some _ _ Ef). destruct E0 as [Hin0 E0]. rewrite E0. simpl.
      rewrite negb_involutive. f_equal. destruct st as [r fo fi]. simpl in *.
      unfold withFiles. simpl. f_equal. apply map_same. intros f Hf.
      destruct (DriveFile.id f =? fileId) eqn:Ei; simpl; rewrite Ei; [| reflexivity].
      apply Z.eqb_eq in Ei, E0.
      assert (f = f0) by (apply (NoDup_key_inj DriveFile.id fi); congruence). subst f.
      now destruct f0.
    + unfold handleStarToggle, filesOf. rewrite Hst, Ef. exact Hst.
  - unfold handleShareToggle at 2. unfold filesOf. rewrite Hst.
    destruct (find (fun f => DriveFile.id f =? fileId) (files st)) as [f0 |] eqn:Ef.
    + unfold handleShareToggle, filesOf. simpl.
      rewrite (find_map_same_test (fun f => DriveFile.id f =? fileId))
        by (intros x; destruct (DriveFile.id x =? fileId) eqn:Ex; simpl;
            rewrite ?Ex; reflexivity).
      rewrite Ef. simpl. rewrite map_map.
      assert (E0 := find_some _ _ Ef). destruct E0 as [Hin0 E0]. rewrite E0. simpl.
      rewrite negb_involutive. f_equal. destruct st as [r fo fi]. simpl in *.
      unfold withFiles. simpl. f_equal. apply map_same. intros f Hf.
      destruct (DriveFile.id f =? fileId) eqn:Ei; simpl; rewrite Ei; [| reflexivity].
      apply Z.eqb_eq in Ei, E0.
      assert (f = f0) by (apply (NoDup_key_inj DriveFile.id fi); congruence). subst f.
      now destruct f0.
    + unfold handleShareToggle, filesOf. rewrite Hst, Ef. exact Hst.
  - intros Hn.
    assert (Ef : find (fun f => DriveFile.id f =? fileId) (files st) = None).
    { destruct (find _ (files st)) as [f0 |] eqn:Ef; [| reflexivity].
      apply find_some in Ef. destruct Ef as [Hin E0]. apply Z.eqb_eq in E0.
      now apply Hn in Hin. }
    unfold handleStarToggle, handleShareToggle, filesOf. rewrite Hst, Ef.
    split; reflexivity.
Qed.

Lemma toggles_undo_themselves_witness :
  state (handleStarToggle 11 (handleStarToggle 11 (browse sampleState []))) =
    Some sampleState /\
  state (handleShareToggle 11 (handleShareToggle 11 (browse sampleState []))) =
    Some sampleState /\
  ((forall f, In f (files sampleState) -> DriveFile.id f <> 11) ->
   handleStarToggle 11 (browse sampleState []) = browse sampleState [] /\
   handleShareToggle 11 (browse sampleState []) = browse sampleState []).
Proof.
  destruct (toggles_undo_themselves 11 (browse sampleState []) sampleState eq_refl)
    as (H1 & H2 & H3).
  - nodup_ids.
  - exact (conj H1 (conj H2 (fun H => H3 H))).
Defined.

(** ** Requests to the server *)

Lemma trimStart_blank (s : string) :
  trimStart s = EmptyString ->
  Forall (fun c => is_space c = true) (list_ascii_of_string s).
Proof.
  induction s as [| c s IH]; simpl; intros H; [constructor |].
  destruct (is_space c) eqn:Ec; [| discriminate].
  constructor; [exact Ec | now apply IH].
Qed.

Lemma trimStart_head (s : string) (c : ascii) (r : string) :
  trimStart s = String c r -> is_space c = false.
Proof.
  induction s as [| d s IH]; simpl; intros H; [discriminate |].
  destruct (is_space d) eqn:Ed; [now apply IH |].
  injection H as -> _. exact Ed.
Qed.

Lemma trim_blank (s : string) :
  trim s = EmptyString <->
  Forall (fun c => is_space c = true) (list_ascii_of_string s).
Proof.
  unfold trim. split.
  - intros H. apply trimStart_blank.
    destruct (trimStart s) as [| c r] eqn:E; [reflexivity |].
    apply trimStart_head in E. simpl in H. rewrite E in H. discriminate.
  - intros H. now rewrite (trimStart_spaces s H).
Qed.

Lemma appendFile_state (c : DriveFile.t) (b : Browser) (st : DriveState) :
  state b = Some st ->
  state (appendFile c b) = Some (withFiles (files st ++ [c]) st).
Proof. intros H. unfold appendFile. simpl. now rewrite H. Qed.

Lemma appendFiles_state (created : list DriveFile.t) :
  forall (b : Browser) (st : DriveState),
    state b = Some st ->
    state (appendFiles created b) = Some (withFiles (files st ++ created) st).
Proof.
  unfold appendFiles.
  induction created as [| c created IH]; simpl; intros b st H.
  - rewrite app_nil_r. rewrite H. now destruct st.
  - rewrite (IH _ _ (appendFile_state c b st H)). simpl.
    unfold withFiles. simpl. now rewrite <- app_assoc.
Qed.

Section Requests.

Variable Gateway : Type.
Variable apiCreateFolder :
  Gateway -> string -> option Z -> Gateway * option DriveFolder.t.
Variable apiUploadFile :
  Gateway -> InputFile.t -> option Z -> Gateway * option DriveFile.t.

(** The loop of [handleFilesInputChange] sends the files in order to the
    one folder and stops at the first rejection; what it appends are the
    answers of the server. *)
Lemma uploadEach_run (parentId : Z) (fileList : list InputFile.t) :
  forall (s s' : UploadState Gateway) (r : option unit),
    uploadEach Gateway apiUploadFile parentId fileList s = (s', r) ->
    exists (created : list DriveFile.t) (mid : Gateway),
      served apiUploadFile parentId (gateway Gateway s)
        (firstn (List.length created) fileList) mid created /\
      browser Gateway s' = appendFiles created (browser Gateway s) /\
      ((r = Some tt /\ List.length created = List.length fileList /\
        gateway Gateway s' = mid /\
        calls Gateway s' =
          calls Gateway s ++ map (fun f => UploadFile f (Some parentId)) fileList) \/
       (r = None /\
        exists rejected,
          nth_error fileList (List.length created) = Some rejected /\
          apiUploadFile mid rejected (Some parentId) = (gateway Gateway s', None) /\
          calls Gateway s' =
            calls Gateway s ++
            map (fun f => UploadFile f (Some parentId))
                (firstn (S (List.length created)) fileList))).
Proof.
  induction fileList as [| file rest IH]; intros s s' r H.
  - simpl in H. unfold ret in H. injection H as <- <-.
    exists [], (gateway Gateway s). simpl. rewrite app_nil_r.
    split; [constructor |]. split; [reflexivity |].
    left. repeat apply conj; reflexivity.
  - simpl in H. unfold bind at 1 in H. unfold callUploadFile in H.
    destruct (apiUploadFile (gateway Gateway s) file (Some parentId))
      as [g1 [c |]] eqn:Ec.
    + unfold bind at 1 in H. unfold updateBrowser in H. simpl in H.
      apply IH in H. destruct H as (created & mid & Hs & Hb & Hr).
      simpl in Hs, Hb, Hr.
      exists (c :: created), mid. simpl.
      split; [econstructor; eassumption |]. split; [exact Hb |].
      destruct Hr as [(-> & Hl & Hg & Hc) | (-> & rejected & Hn & Ha & Hc)].
      * left. rewrite Hc, <- app_assoc. simpl.
        repeat apply conj; [reflexivity | lia | exact Hg | reflexivity].
      * right. split; [reflexivity |]. exists rejected.
        rewrite Hc, <- app_assoc. simpl.
        repeat apply conj; [exact Hn | exact Ha | reflexivity].
    + injection H as <- <-. exists [], (gateway Gateway s). simpl.
      split; [constructor |]. split; [reflexivity |].
      right. split; [reflexivity |]. exists file.
      repeat apply conj; [reflexivity | exact Ec | reflexivity].
Qed.

End Requests.

(** X16.  [handleCreateFolder] asks the server for nothing and leaves the
    hooks alone when no drive is loaded, when the dialog is cancelled or
    when the name has only white space.  Otherwise it sends exactly one
    request, for the trimmed name under the folder being browsed, and the
    folder answered is appended and the menu closed; when the request is
    rejected the hooks stay as they were. *)
Theorem createFolder_sends_the_trimmed_name
  (Gateway : Type)
  (apiCreateFolder : Gateway -> string -> option Z -> Gateway * option DriveFolder.t)
  (prompt : option string) (g : Gateway) (b : Browser) :
  (state b = None \/ prompt = None \/
   (exists name, prompt = Some name /\
      Forall (fun c => is_space c = true) (list_ascii_of_string name)) ->
   handleCreateFolder Gateway apiCreateFolder prompt g b = (g, b, [])) /\
  (forall st name,
     state b = Some st -> prompt = Some name ->
     ~ Forall (fun c => is_space c = true) (list_ascii_of_string name) ->
     let request := CreateFolder (trim name) (Some (uploadBase b st)) in
     let answer := apiCreateFolder g (trim name) (Some (uploadBase b st)) in
     handleCreateFolder Gateway apiCreateFolder prompt g b =
       (fst answer,
        match snd answer with
        | Some created => setNewMenuOpen false (appendFolder created b)
        | None => b
        end,
        [request])).
Proof.
  split.
  - intros [H | [H | (name & H & Hb)]]; unfold handleCreateFolder.
    + now rewrite H.
    + rewrite H. now destruct (state b).
    + rewrite H. destruct (state b); [| reflexivity].
      destruct (is_empty name); [reflexivity |].
      apply trim_blank in Hb. now rewrite Hb.
  - intros st name Hst Hp Hb request answer. subst request answer.
    unfold handleCreateFolder. rewrite Hst, Hp.
    assert (Ht : is_empty (trim name) = false).
    { destruct (trim name) eqn:E; [| reflexivity].
      exfalso. apply Hb. now apply trim_blank. }
    assert (Hn : is_empty name = false).
    { destruct name; [| reflexivity]. discriminate Ht. }
    rewrite Hn, Ht. unfold bind, callCreateFolder, updateBrowser. simpl.
    destruct (apiCreateFolder g (trim name) (Some (uploadBase b st)))
      as [g1 [c |]]; reflexivity.
Qed.

Lemma createFolder_sends_the_trimmed_name_witness :
  handleCreateFolder Z counterCreateFolder (Some "   "%string) 100
    (browse sampleState []) = (100, browse sampleState [], []) /\
  handleCreateFolder Z counterCreateFolder (Some "  Trips "%string) 100
    (browse sampleState []) =
    (101,
     setNewMenuOpen false
       (appendFolder (DriveFolder.mk 100 "Trips" (Some 1) false None)
          (browse sampleState [])),
     [CreateFolder "Trips" (Some 1)]).
Proof.
  destruct (createFolder_sends_the_trimmed_name Z counterCreateFolder
              (Some "   "%string) 100 (browse sampleState [])) as [H1 _].
  destruct (createFolder_sends_the_trimmed_name Z counterCreateFolder
              (Some "  Trips "%string) 100 (browse sampleState [])) as [_ H2].
  split.
  - apply H1. right. right. exists "   "%string.
    split; [reflexivity | repeat constructor].
  - apply (H2 sampleState "  Trips "%string); [reflexivity | reflexivity |].
    intros H. inversion H as [| ? ? _ H']. inversion H' as [| ? ? _ H''].
    inversion H'' as [| ? ? Hc _]. discriminate Hc.
Defined.

(** X17.  [handleFilesInputChange] sends the chosen files in their order,
    all to the folder being browsed, and stops at the first one the
    server rejects, which is the last request it sent.  The files appended
    to the local files are the answers of the server to the files before
    that one, in the same order, and nothing else of the drive changes;
    [busy] ends false either way, and the menu is closed only when every
    file went through. *)
Theorem files_upload_stops_at_first_failure
  (Gateway : Type)
  (apiUploadFile : Gateway -> InputFile.t -> option Z -> Gateway * option DriveFile.t)
  (fileList : list InputFile.t) (g : Gateway) (b : Browser) (st : DriveState) :
  state b = Some st -> fileList <> [] ->
  let parentId := uploadBase b st in
  exists (g' : Gateway) (b' : Browser) (sent : list InputFile.t)
         (created : list DriveFile.t) (mid : Gateway),
    handleFilesInputChange Gateway apiUploadFile fileList g b =
      (g', b', map (fun f => UploadFile f (Some parentId)) sent) /\
    served apiUploadFile parentId g
      (firstn (List.length created) fileList) mid created /\
    state b' = Some (withFiles (files st ++ created) st) /\
    busy b' = false /\
    section b' = section b /\ currentFolderId b' = currentFolderId b /\
    selectedIds b' = selectedIds b /\
    ((sent = fileList /\ List.length created = List.length fileList /\
      mid = g' /\ newMenuOpen b' = false) \/
     (exists rejected,
        nth_error fileList (List.length created) = Some rejected /\
        apiUploadFile mid rejected (Some parentId) = (g', None) /\
        sent = firstn (S (List.length created)) fileList /\
        newMenuOpen b' = newMenuOpen b)).
Proof.
  intros Hst Hne parentId. subst parentId.
  unfold handleFilesInputChange. rewrite Hst.
  destruct fileList as [| f0 rest]; [congruence |].
  set (fileList := f0 :: rest). unfold bind.
  destruct (uploadEach Gateway apiUploadFile (uploadBase b st) fileList
              (mkUpload Gateway g (setBusy true b) [] [])) as [s1 r] eqn:E.
  destruct (uploadEach_run Gateway apiUploadFile _ _ _ _ _ E)
    as (created & mid & Hserved & Hb & Hr).
  simpl in Hserved, Hb, Hr.
  pose proof (appendFiles_state created (setBusy true b) st Hst) as Hs.
  pose proof (sameHooks_appendFiles created (setBusy true b))
    as (K1 & K2 & K3 & K4 & K5 & K6 & K7 & K8).
  rewrite <- Hb in Hs, K1, K2, K6, K7.
  destruct Hr as [(-> & Hl & Hg & Hc) | (-> & rejected & Hn & Ha & Hc)].
  - exists (gateway Gateway s1),
      (setBusy false (setNewMenuOpen false (browser Gateway s1))),
      fileList, created, mid.
    unfold updateBrowser. simpl. rewrite Hc.
    repeat apply conj; try reflexivity; try assumption.
    left. repeat apply conj; [reflexivity | exact Hl | now symmetry | reflexivity].
  - exists (gateway Gateway s1), (setBusy false (browser Gateway s1)),
      (firstn (S (List.length created)) fileList), created, mid.
    simpl. rewrite Hc.
    repeat apply conj; try reflexivity; try assumption.
    right. exists rejected.
    repeat apply conj; [exact Hn | exact Ha | reflexivity | exact K7].
Qed.

Lemma files_upload_stops_at_first_failure_witness :
  exists (b' : Browser) (created : list DriveFile.t) (mid : Z),
    handleFilesInputChange Z quotaUploadFile [readmeEntry; todoEntry] 1
      (browse sampleState []) =
      (0, b', [UploadFile readmeEntry (Some 1); UploadFile todoEntry (Some 1)]) /\
    served quotaUploadFile 1 1
      (firstn (List.length created) [readmeEntry; todoEntry]) mid created /\
    state b' = Some (withFiles (files sampleState ++ created) sampleState) /\
    quotaUploadFile mid todoEntry (Some 1) = (0, None) /\
    busy b' = false /\ newMenuOpen b' = false.
Proof.
  destruct (files_upload_stops_at_first_failure Z quotaUploadFile
              [readmeEntry; todoEntry] 1 (browse sampleState []) sampleState
              eq_refl ltac:(discriminate))
    as (g' & b' & sent & created & mid & H1 & H2 & H3 & H4 & _ & _ & _ & Hend).
  pose proof H1 as Hrun. vm_compute in Hrun. injection Hrun as Hg _ Hsent.
  exists b', created, mid.
  split.
  { rewrite H1.
    apply f_equal2; [apply f_equal2; [symmetry; exact Hg | reflexivity] |].
    symmetry. exact Hsent. }
  rewrite <- Hg in *.
  split; [exact H2 |]. split; [exact H3 |].
  destruct Hend as [(_ & Hl & _ & _) | (rejected & Hn & Ha & _ & Hm)].
  - exfalso.
    destruct created as [| c1 [| c2 [| c3 created]]]; try discriminate Hl.
    simpl in H2.
    inversion H2 as [| ? ? ? ? ? ? ? Ha1 Hs1]; subst.
    inversion Hs1 as [| ? ? ? ? ? ? ? Ha2 _]; subst.
    vm_compute in Ha1. injection Ha1 as <- _.
    vm_compute in Ha2. discriminate Ha2.
  - destruct created as [| c1 [| c2 created]].
    + exfalso. simpl in H2. inversion H2; subst.
      simpl in Hn. injection Hn as <-. vm_compute in Ha. discriminate Ha.
    + simpl in Hn. injection Hn as <-.
      repeat apply conj; [exact Ha | exact H4 | exact Hm].
    + exfalso. simpl in Hn. destruct created; discriminate Hn.
Defined.

(** X18.  In one run of the folder upload, whatever the server answers
    and whatever the relative paths are, [pathToFolderId] holds the base
    folder under the empty path and then one entry for each folder
    creation that the server answered: the path of a creation is its
    segment under a path whose entry holds the parent id that was sent,
    its value is the id of the folder that came back, and the paths are
    pairwise distinct, so no path is created twice.  The creation
    requests that were answered are the requests of these creations, in
    order, and the folders appended to the local state are their answers.
    A run that ends well has no other request; a run that is stopped has
    exactly one more, its last, with nothing appended for it. *)
Theorem folder_upload_maps_each_path_once
  (Gateway : Type)
  (apiCreateFolder : Gateway -> string -> option Z -> Gateway * option DriveFolder.t)
  (apiUploadFile : Gateway -> InputFile.t -> option Z -> Gateway * option DriveFile.t)
  (fileList : list InputFile.t) (g : Gateway) (b : Browser) (st : DriveState) :
  state b = Some st ->
  let base := uploadBase b st in
  let run :=
    uploadAll Gateway apiCreateFolder apiUploadFile base fileList
      (mkUpload Gateway g (setBusy true b) [(EmptyString, base)] []) in
  let memo := pathToFolderId Gateway (fst run) in
  exists (records : list (Creation Gateway)) (newFiles : list DriveFile.t)
         (answered rest : list ApiCall),
    memo = (EmptyString, base) :: map createdEntry records /\
    NoDup (map fst memo) /\
    NoDup (map createdPath records) /\
    Forall (answeredCreation apiCreateFolder memo) records /\
    calls Gateway (fst run) = answered ++ rest /\
    filter isCreate answered = map createdRequest records /\
    uploads answered = List.length newFiles /\
    (if isSome (snd run) then rest = [] else exists rejected, rest = [rejected]) /\
    state (browser Gateway (fst run)) =
      Some (grownFrom st (map createdFolder records) newFiles).
Proof.
  intros Hst base run memo. subst memo.
  destruct (uploadAll_progress apiCreateFolder apiUploadFile fileList g b st
              base Hst)
    as (records & Nf & cs & rest & H1 & H2 & H3 & H4 & H5 & H6 & H7 & H8 & H9).
  fold run in H1, H2, H3, H4, H5, H6, H7, H8, H9.
  exists records, Nf, cs, rest.
  repeat apply conj; try assumption.
  rewrite H3 in H4. simpl in H4. rewrite map_map in H4. simpl in H4.
  now inversion H4.
Qed.

Lemma folder_upload_maps_each_path_once_witness :
  let run :=
    uploadAll Z counterCreateFolder counterUploadFile 1 [readmeEntry; todoEntry]
      (mkUpload Z 100 (setBusy true (browse sampleState []))
         [(EmptyString, 1)] []) in
  exists (records : list (Creation Z)),
    pathToFolderId Z (fst run) = (EmptyString, 1) :: map createdEntry records /\
    NoDup (map createdPath records) /\
    filter isCreate (calls Z (fst run)) = map createdRequest records.
Proof.
  intros run.
  destruct (folder_upload_maps_each_path_once Z counterCreateFolder
              counterUploadFile [readmeEntry; todoEntry] 100
              (browse sampleState []) sampleState eq_refl)
    as (records & Nf & cs & rest & H1 & _ & H3 & _ & H5 & H6 & _ & H8 & _).
  exists records. split; [exact H1 |]. split; [exact H3 |].
  change (calls Z (fst run) = cs ++ rest) in H5.
  change (rest = []) in H8.
  rewrite H5, H8, app_nil_r. exact H6.
Defined.

(** X19.  Whatever the server answers, [handleFolderInputChange] only
    appends to the local folders and files, one for each request that was
    answered; it leaves the section, the current folder, the selection,
    the sort and the search alone and ends with [busy] false.  The menu
    is closed when every request was answered; when one was rejected the
    menu stays and that request is the only one without a local item. *)
Theorem folder_upload_only_appends
  (Gateway : Type)
  (apiCreateFolder : Gateway -> string -> option Z -> Gateway * option DriveFolder.t)
  (apiUploadFile : Gateway -> InputFile.t -> option Z -> Gateway * option DriveFile.t)
  (fileList : list InputFile.t) (g g' : Gateway) (b b' : Browser)
  (st : DriveState) (requests : list ApiCall) :
  state b = Some st -> fileList <> [] ->
  handleFolderInputChange Gateway apiCreateFolder apiUploadFile fileList g b =
    (g', b', requests) ->
  exists newFolders newFiles,
    state b' = Some (grownFrom st newFolders newFiles) /\
    busy b' = false /\
    section b' = section b /\ currentFolderId b' = currentFolderId b /\
    selectedIds b' = selectedIds b /\ sortBy b' = sortBy b /\
    sortDir b' = sortDir b /\ search b' = search b /\
    ((newMenuOpen b' = false /\
      creations requests = List.length newFolders /\
      uploads requests = List.length newFiles) \/
     (newMenuOpen b' = newMenuOpen b /\
      (List.length newFolders <= creations requests)%nat /\
      (List.length newFiles <= uploads requests)%nat /\
      List.length requests =
        S (List.length newFolders + List.length newFiles))).
Proof.
  intros Hst Hne H. unfold handleFolderInputChange in H. rewrite Hst in H.
  destruct fileList as [| f0 rest]; [congruence |].
  set (fileList := f0 :: rest) in *.
  pose proof (uploadProgress_counts _ _ _ _ _ _
                (uploadAll_progress apiCreateFolder apiUploadFile fileList
                   g b st (uploadBase b st) Hst)) as Hp.
  cbv zeta in Hp.
  destruct (uploadAll Gateway apiCreateFolder apiUploadFile (uploadBase b st)
              fileList _) as [s1 [u |]];
    simpl in Hp; injection H as <- <- <-;
    destruct Hp as (NF & Nf & H1 & (K1 & K2 & K3 & K4 & K5 & K6 & K7 & K8)
                    & H5 & H6 & H7);
    exists NF, Nf; simpl in *.
  - repeat apply conj; try assumption; try reflexivity.
    left. repeat apply conj; [reflexivity | lia | lia].
  - repeat apply conj; try assumption; try reflexivity.
    right. rewrite calls_split.
    repeat apply conj; [assumption | assumption | assumption | lia].
Qed.

Lemma folder_upload_only_appends_witness :
  exists newFolders newFiles,
    state (snd (fst (handleFolderInputChange Z counterCreateFolder
                       counterUploadFile [readmeEntry; todoEntry] 100
                       (browse sampleState []))))
      = Some (grownFrom sampleState newFolders newFiles).
Proof.
  destruct (folder_upload_only_appends Z counterCreateFolder counterUploadFile
              [readmeEntry; todoEntry] 100 104
              (browse sampleState [])
              (snd (fst (handleFolderInputChange Z counterCreateFolder
                           counterUploadFile [readmeEntry; todoEntry] 100
                           (browse sampleState []))))
              sampleState
              [CreateFolder "project" (Some 1);
               CreateFolder "notes" (Some 100);
               UploadFile (renamed "readme.txt" readmeEntry) (Some 101);
               UploadFile (renamed "todo.txt" todoEntry) (Some 100)]
              eq_refl ltac:(discriminate) eq_refl)
    as (NF & Nf & H & _).
  exists NF, Nf. exact H.
Defined.

(** ** Select all, then act *)

Lemma visibleFolders_In (b : Browser) (f : DriveFolder.t) :
  In f (visibleFolders b) <-> In f (foldersOf b) /\ shownFolder b f = true.
Proof.
  unfold visibleFolders, shownFolder.
  destruct (section b); rewrite ?filter_In; simpl; try tauto;
    split; try tauto; intros [_ H]; discriminate H.
Qed.

Lemma searchFiles_In (b : Browser) (items : list DriveFile.t) (f : DriveFile.t) :
  In f (searchFiles b items) <-> In f items /\ matchesSearch b f = true.
Proof.
  unfold searchFiles, matchesSearch.
  destruct (negb (is_empty (trim (search b)))).
  - now rewrite filter_In.
  - tauto.
Qed.

Lemma sectionFiles_In (b : Browser) (f : DriveFile.t) :
  In f (sectionFiles b) <-> In f (filesOf b) /\ inSection b f = true.
Proof.
  unfold sectionFiles, inSection.
  destruct (section b); now rewrite filter_In.
Qed.

Lemma visibleFiles_In (getTime : string -> option Z) (b : Browser)
  (f : DriveFile.t) :
  In f (visibleFiles getTime b) <-> In f (filesOf b) /\ shownFile b f = true.
Proof.
  unfold visibleFiles, shownFile.
  rewrite andb_true_iff, <- and_assoc, <- sectionFiles_In, <- searchFiles_In.
  split; apply Permutation_in;
    [| apply Permutation_sym]; apply sortWith_perm.
Qed.

Lemma view_empty (getTime : string -> option Z) (b : Browser) :
  (forall f, In f (foldersOf b) -> shownFolder b f = false) ->
  (forall f, In f (filesOf b) -> shownFile b f = false) ->
  visibleFolders b = [] /\ visibleFiles getTime b = [].
Proof.
  intros HF Hf. split.
  - destruct (visibleFolders b) as [| f l] eqn:E; [reflexivity |].
    assert (H : In f (visibleFolders b)) by (rewrite E; now left).
    apply visibleFolders_In in H. destruct H as [H1 H2].
    rewrite (HF f H1) in H2. discriminate.
  - destruct (visibleFiles getTime b) as [| f l] eqn:E; [reflexivity |].
    assert (H : In f (visibleFiles getTime b)) by (rewrite E; now left).
    apply visibleFiles_In in H. destruct H as [H1 H2].
    rewrite (Hf f H1) in H2. discriminate.
Qed.

Lemma shownFolder_ext (b b' : Browser) (f : DriveFolder.t) :
  section b' = section b -> currentFolderId b' = currentFolderId b ->
  shownFolder b' f = shownFolder b f.
Proof. unfold shownFolder. now intros -> ->. Qed.

Lemma shownFile_ext (b b' : Browser) (f : DriveFile.t) :
  section b' = section b -> currentFolderId b' = currentFolderId b ->
  search b' = search b ->
  shownFile b' f = shownFile b f.
Proof. unfold shownFile, inSection, matchesSearch. now intros -> -> ->. Qed.

Lemma shownFolder_trashed (b : Browser) (f : DriveFolder.t) :
  shownFolder b f = true -> (DriveFolder.trashed f = true <-> section b = Trash).
Proof.
  unfold shownFolder.
  destruct (section b), (DriveFolder.trashed f); simpl; intros H;
    split; intros K; congruence.
Qed.

Lemma shownFile_trashed (b : Browser) (f : DriveFile.t) :
  shownFile b f = true -> (DriveFile.trashed f = true <-> section b = Trash).
Proof.
  unfold shownFile, inSection. rewrite andb_true_iff. intros [H _]. revert H.
  destruct (section b), (DriveFile.trashed f); simpl;
    rewrite ?andb_false_r; intros H; split; intros K; congruence.
Qed.

(** an item shown was selected by [selectAll] *)
Lemma selectAll_folder (getTime : string -> option Z) (b : Browser)
  (f : DriveFolder.t) :
  In f (foldersOf b) -> shownFolder b f = true ->
  In (DriveFolder.id f) (selectedIds (selectAll getTime b)).
Proof.
  intros H1 H2. simpl. apply in_or_app. left. apply in_map.
  apply visibleFolders_In. now split.
Qed.

Lemma selectAll_file (getTime : string -> option Z) (b : Browser)
  (f : DriveFile.t) :
  In f (filesOf b) -> shownFile b f = true ->
  In (DriveFile.id f) (selectedIds (selectAll getTime b)).
Proof.
  intros H1 H2. simpl. apply in_or_app. right. apply in_map.
  apply (visibleFiles_In getTime). now split.
Qed.

(** nothing to select: nothing is shown *)
Lemma selectAll_nothing (getTime : string -> option Z) (b : Browser) :
  selectedIds (selectAll getTime b) = [] ->
  visibleFolders b = [] /\ visibleFiles getTime b = [].
Proof.
  simpl. intros H. apply app_eq_nil in H. destruct H as [H1 H2].
  apply map_eq_nil in H1. apply map_eq_nil in H2. now split.
Qed.

Lemma moveToTrash_selected (b : Browser) (st : DriveState) (A B : IdSet) :
  state b = Some st -> selectedIds b <> [] ->
  trashSets st (selectedIds b) = Some (A, B) ->
  exists b',
    handleMoveToTrashSelected true b = Some b' /\
    state b' = Some (applyTrash (A, B) st) /\ search b' = search b.
Proof.
  intros Hst Hne E. unfold handleMoveToTrashSelected. rewrite Hst, E.
  destruct (selectedIds b) as [| s0 sel]; [congruence |]. simpl.
  eexists. split; [reflexivity |].
  destruct (_ && _); split; reflexivity.
Qed.

Lemma permanentDelete_selected (b : Browser) (st : DriveState) (A B : IdSet) :
  state b = Some st -> selectedIds b <> [] ->
  deleteSets st (selectedIds b) = Some (A, B) ->
  exists b',
    handlePermanentDeleteSelected true b = Some b' /\
    state b' = Some (applyDelete (A, B) st) /\ search b' = search b /\
    section b' = section b /\ currentFolderId b' = currentFolderId b.
Proof.
  intros Hst Hne E. unfold handlePermanentDeleteSelected. rewrite Hst, E.
  destruct (selectedIds b) as [| s0 sel]; [congruence |]. simpl.
  eexists. repeat split; reflexivity.
Qed.

Lemma restore_selected (b : Browser) (st : DriveState) (A B : IdSet) :
  state b = Some st -> selectedIds b <> [] ->
  restoreSets st (selectedIds b) = Some (A, B) ->
  exists b',
    handleRestoreSelected b = Some b' /\
    state b' = Some (applyRestore (rootFolderId st) (A, B) st) /\
    search b' = search b /\ currentFolderId b' = currentFolderId b.
Proof.
  intros Hst Hne E. unfold handleRestoreSelected. rewrite Hst, E.
  destruct (selectedIds b) as [| s0 sel]; [congruence |]. simpl.
  eexists. repeat split; reflexivity.
Qed.

(** X20.  Select all, then act on the selection, and the view is empty:
    outside the trash a confirmed move to trash leaves nothing to show in
    the same section and folder; in the trash a confirmed permanent delete
    leaves nothing to show, and after a restore the trash shows nothing
    for the same search when it is opened again. *)
Theorem select_all_then_act_empties_the_view
  (getTime : string -> option Z) (b : Browser) (st : DriveState) :
  state b = Some st ->
  (section b <> Trash ->
   exists b',
     handleMoveToTrashSelected true (selectAll getTime b) = Some b' /\
     (section b' = section b -> currentFolderId b' = currentFolderId b ->
      visibleFolders b' = [] /\ visibleFiles getTime b' = [])) /\
  (section b = Trash ->
   (exists b',
      handlePermanentDeleteSelected true (selectAll getTime b) = Some b' /\
      visibleFolders b' = [] /\ visibleFiles getTime b' = []) /\
   (exists b',
      handleRestoreSelected (selectAll getTime b) = Some b' /\
      visibleFolders (openSection Trash b') = [] /\
      visibleFiles getTime (openSection Trash b') = [])).
Proof.
  intros Hst.
  set (b1 := selectAll getTime b).
  assert (Hst1 : state b1 = Some st) by exact Hst.
  assert (HselF : forall f, In f (folders st) -> shownFolder b f = true ->
                            In (DriveFolder.id f) (selectedIds b1)).
  { intros f Hf Hs. apply selectAll_folder; [| exact Hs].
    unfold foldersOf. now rewrite Hst. }
  assert (Hself : forall f, In f (files st) -> shownFile b f = true ->
                            In (DriveFile.id f) (selectedIds b1)).
  { intros f Hf Hs. apply selectAll_file; [| exact Hs].
    unfold filesOf. now rewrite Hst. }
  destruct (selectedIds b1) as [| s0 sel] eqn:Es.
  { (* nothing is shown: every handler returns at once *)
    pose proof (selectAll_nothing getTime b Es) as Hv.
    split; [intros _ | intros Hsec; split].
    - exists b1. split; [| intros _ _; exact Hv].
      unfold handleMoveToTrashSelected. now rewrite Hst1, Es.
    - exists b1. split; [| exact Hv].
      unfold handlePermanentDeleteSelected. now rewrite Hst1, Es.
    - exists b1. split.
      + unfold handleRestoreSelected. now rewrite Hst1, Es.
      + apply view_empty; intros f Hf.
        * rewrite (shownFolder_ext b) by (simpl; congruence).
          destruct (shownFolder b f) eqn:Ef; [| reflexivity].
          assert (K : In f (visibleFolders b)) by (apply visibleFolders_In; now split).
          rewrite (proj1 Hv) in K. destruct K.
        * rewrite (shownFile_ext b) by (simpl; congruence).
          destruct (shownFile b f) eqn:Ef; [| reflexivity].
          assert (K : In f (visibleFiles getTime b))
            by (apply visibleFiles_In; now split).
          rewrite (proj2 Hv) in K. destruct K. }
  assert (Hne : selectedIds b1 <> []) by (rewrite Es; discriminate).
  rewrite <- Es in HselF, Hself. clear Es s0 sel.
  split; [intros Hsec | intros Hsec; split].
  - destruct (trashSets_spec st (selectedIds b1)) as (A & B & E & HA & HB).
    destruct (moveToTrash_selected b1 st A B Hst1 Hne E)
      as (b' & Hrun & Hst' & Hq).
    exists b'. split; [exact Hrun |]. intros S1 S2.
    apply view_empty; intros f' Hf';
      [rewrite (shownFolder_ext b) by assumption
      | rewrite (shownFile_ext b) by assumption];
      [unfold foldersOf in Hf' | unfold filesOf in Hf'];
      rewrite Hst' in Hf'; simpl in Hf';
      apply in_map_iff in Hf'; destruct Hf' as (f & <- & Hf).
    + destruct (has A (DriveFolder.id f)) eqn:Eh.
      * destruct (shownFolder b (trashFolder f)) eqn:Ef; [| reflexivity].
        apply shownFolder_trashed in Ef. exfalso. apply Hsec, Ef. reflexivity.
      * destruct (shownFolder b f) eqn:Ef; [| reflexivity]. exfalso.
        assert (Hl : liveFolder f = true).
        { unfold liveFolder. pose proof (shownFolder_trashed b f Ef) as K.
          destruct (DriveFolder.trashed f); [| reflexivity]. tauto. }
        assert (Hc : trashCascade st (selectedIds b1) (DriveFolder.id f))
          by (apply cascade_selected; auto).
        apply HA, has_In in Hc. congruence.
    + destruct (has B (DriveFile.id f)) eqn:Eh.
      * destruct (shownFile b (trashFile f)) eqn:Ef; [| reflexivity].
        apply shownFile_trashed in Ef. exfalso. apply Hsec, Ef. reflexivity.
      * destruct (shownFile b f) eqn:Ef; [| reflexivity]. exfalso.
        assert (Hl : liveFile f = true).
        { unfold liveFile. pose proof (shownFile_trashed b f Ef) as K.
          destruct (DriveFile.trashed f); [| reflexivity]. tauto. }
        assert (Hc : trashCascadeFile st (selectedIds b1) (DriveFile.id f)).
        { exists f. repeat split; auto. }
        apply HB, has_In in Hc. congruence.
  - destruct (deleteSets_spec st (selectedIds b1)) as (A & B & E & HA & HB).
    destruct (permanentDelete_selected b1 st A B Hst1 Hne E)
      as (b' & Hrun & Hst' & Hq & S1 & S2).
    exists b'. split; [exact Hrun |].
    apply view_empty; intros f Hf;
      [rewrite (shownFolder_ext b) by assumption
      | rewrite (shownFile_ext b) by assumption];
      [unfold foldersOf in Hf | unfold filesOf in Hf];
      rewrite Hst' in Hf; simpl in Hf;
      apply filter_In in Hf; destruct Hf as [Hf Hn];
      apply negb_true_iff in Hn.
    + destruct (shownFolder b f) eqn:Ef; [| reflexivity]. exfalso.
      assert (Hc : deleteCascade st (selectedIds b1) (DriveFolder.id f))
        by (apply cascade_selected; auto).
      apply HA, has_In in Hc. congruence.
    + destruct (shownFile b f) eqn:Ef; [| reflexivity]. exfalso.
      assert (Hc : deleteCascadeFile st (selectedIds b1) (DriveFile.id f)).
      { exists f. repeat split; auto. }
      apply HB, has_In in Hc. congruence.
  - destruct (restoreSets_spec st (selectedIds b1)) as (A & B & E & HA & HB).
    destruct (restore_selected b1 st A B Hst1 Hne E)
      as (b' & Hrun & Hst' & Hq & S2).
    change (currentFolderId b1) with (currentFolderId b) in S2.
    change (search b1) with (search b) in Hq.
    exists b'. split; [exact Hrun |].
    apply view_empty; intros f' Hf';
      [rewrite (shownFolder_ext b) by (simpl; congruence)
      | rewrite (shownFile_ext b) by (simpl; congruence)];
      [unfold foldersOf in Hf' | unfold filesOf in Hf'];
      simpl in Hf'; rewrite Hst' in Hf'; simpl in Hf';
      apply in_map_iff in Hf'; destruct Hf' as (f & <- & Hf).
    + destruct (has A (DriveFolder.id f)) eqn:Eh.
      * destruct (shownFolder b (restoreFolder (rootFolderId st) f)) eqn:Ef;
          [| reflexivity].
        apply shownFolder_trashed in Ef. apply Ef in Hsec. discriminate Hsec.
      * destruct (shownFolder b f) eqn:Ef; [| reflexivity]. exfalso.
        assert (Hl : DriveFolder.trashed f = true)
          by (apply (shownFolder_trashed b f Ef), Hsec).
        assert (Hc : restoreCascade st (selectedIds b1) (DriveFolder.id f))
          by (apply cascade_selected; auto).
        apply HA, has_In in Hc. congruence.
    + destruct (has B (DriveFile.id f)) eqn:Eh.
      * destruct (shownFile b (restoreFile (rootFolderId st) f)) eqn:Ef;
          [| reflexivity].
        apply shownFile_trashed in Ef. apply Ef in Hsec. discriminate Hsec.
      * destruct (shownFile b f) eqn:Ef; [| reflexivity]. exfalso.
        assert (Hl : DriveFile.trashed f = true)
          by (apply (shownFile_trashed b f Ef), Hsec).
        assert (Hc : restoreCascadeFile st (selectedIds b1) (DriveFile.id f)).
        { exists f. repeat split; auto. }
        apply HB, has_In in Hc. congruence.
Qed.

Lemma select_all_then_act_empties_the_view_witness :
  exists b',
    handleMoveToTrashSelected true (selectAll simpleTime (browse sampleState []))
      = Some b' /\
    visibleFolders b' = [] /\ visibleFiles simpleTime b' = [].
Proof.
  destruct (select_all_then_act_empties_the_view simpleTime
              (browse sampleState []) sampleState eq_refl) as [H _].
  destruct (H ltac:(discriminate)) as (b' & Hrun & Hv).
  exists b'. split; [exact Hrun |].
  apply Hv; vm_compute in Hrun; injection Hrun as <-; reflexivity.
Defined.

(** ** Moving along the breadcrumb *)

Lemma find_first_key {A : Type} (p : A -> bool) (key : A -> Z) (l : list A)
  (x : A) :
  NoDup (map key l) -> In x l -> p x = true ->
  (forall y, p y = true -> key y = key x) ->
  find p l = Some x.
Proof.
  intros Hnd Hx Hp Hk. induction l as [| a l IH]; [destruct Hx |].
  simpl in Hnd. inversion Hnd as [| ? ? Ha Hnd']; subst. simpl.
  destruct Hx as [-> | Hx]; [now rewrite Hp |].
  destruct (p a) eqn:Ea; [| now apply IH].
  exfalso. apply Ha. rewrite (Hk a Ea). now apply in_map.
Qed.

Lemma find_by_id (fs : list DriveFolder.t) (g : DriveFolder.t) :
  NoDup (map DriveFolder.id fs) -> In g fs ->
  find (fun f => is_id (Some (DriveFolder.id g)) (DriveFolder.id f)) fs = Some g.
Proof.
  intros Hnd Hg. apply (find_first_key _ DriveFolder.id); auto.
  - simpl. apply Z.eqb_refl.
  - intros y Hy. simpl in Hy. apply Z.eqb_eq in Hy. now symmetry.
Qed.

Lemma parentOf_by_id (fs : list DriveFolder.t) (f p : DriveFolder.t) :
  NoDup (map DriveFolder.id fs) -> In p fs -> DriveFolder.trashed p = false ->
  DriveFolder.parentId f = Some (DriveFolder.id p) ->
  parentOf fs f = Some p.
Proof.
  intros Hnd Hp Ht Hpar. unfold parentOf. rewrite Hpar.
  apply (find_first_key _ DriveFolder.id); auto.
  - simpl. now rewrite Z.eqb_refl, Ht.
  - intros y Hy. apply andb_true_iff in Hy. destruct Hy as [Hy _].
    simpl in Hy. apply Z.eqb_eq in Hy. now symmetry.
Qed.

Lemma breadcrumbLoop_acc (fs : list DriveFolder.t) :
  forall fuel folder acc,
    breadcrumbLoop fuel fs folder acc =
    option_map (fun path => path ++ acc) (breadcrumbLoop fuel fs folder []).
Proof.
  induction fuel as [| k IH]; intros [f |] acc; simpl; try reflexivity.
  rewrite (IH _ (f :: acc)), (IH _ [f]).
  destruct (breadcrumbLoop k fs (parentOf fs f) []) as [path |]; simpl;
    [| reflexivity].
  now rewrite <- app_assoc.
Qed.

Lemma breadcrumbLoop_length (fs : list DriveFolder.t) :
  forall fuel folder acc path,
    breadcrumbLoop fuel fs folder acc = Some path ->
    (List.length path <= fuel + List.length acc)%nat.
Proof.
  induction fuel as [| k IH]; intros [f |] acc path E; simpl in E;
    try discriminate; try (injection E as <-; lia).
  apply IH in E. simpl in E. lia.
Qed.

Lemma pathFromTop_prefix (fs : list DriveFolder.t) :
  forall pre top post,
    pathFromTop fs top (pre ++ post) -> pathFromTop fs top pre.
Proof.
  induction pre as [| f pre IH]; intros top post H; simpl; [exact I |].
  simpl in H. destruct H as [H1 H2]. split; [exact H1 |]. eapply IH, H2.
Qed.

Lemma pathFromTop_next (fs : list DriveFolder.t) :
  forall pre top g h post,
    pathFromTop fs top (pre ++ g :: h :: post) -> parentOf fs h = Some g.
Proof.
  induction pre as [| f pre IH]; intros top g h post H; simpl in H.
  - tauto.
  - destruct H as [_ H]. eapply IH, H.
Qed.

Lemma breadcrumbLoop_complete (fs : list DriveFolder.t) :
  forall pre g fuel acc,
    pathFromTop fs None (pre ++ [g]) ->
    (List.length pre < fuel)%nat ->
    breadcrumbLoop fuel fs (Some g) acc = Some (pre ++ g :: acc).
Proof.
  induction pre as [| h pre IH] using rev_ind; intros g fuel acc H Hlen;
    (destruct fuel as [| k]; [simpl in Hlen; lia |]).
  - simpl in H. destruct H as [H _]. simpl. rewrite H.
    destruct k; reflexivity.
  - rewrite <- app_assoc in H. simpl in H.
    pose proof (pathFromTop_next fs pre None h g [] H) as Hpar.
    assert (Hpre : pathFromTop fs None (pre ++ [h])).
    { apply (pathFromTop_prefix fs (pre ++ [h]) None [g]).
      now rewrite <- app_assoc. }
    simpl. rewrite Hpar.
    rewrite (IH h k (g :: acc) Hpre).
    + now rewrite <- app_assoc.
    + rewrite length_app in Hlen. simpl in Hlen. lia.
Qed.

(** X21.  With unique folder ids and a current folder that is not
    trashed, opening a folder shown in the view puts it at the end of the
    breadcrumb and leaves the rest of the breadcrumb as it was. *)
Theorem open_folder_extends_breadcrumb (fuel : nat) (b : Browser)
  (st : DriveState) (cur f : DriveFolder.t) :
  state b = Some st ->
  NoDup (map DriveFolder.id (folders st)) ->
  currentFolder b = Some cur -> DriveFolder.trashed cur = false ->
  In f (visibleFolders b) ->
  breadcrumb (S fuel) (handleOpenFolder (DriveFolder.id f) b) =
  option_map (fun path => path ++ [f]) (breadcrumb fuel b).
Proof.
  intros Hst Hnd Hcur Hlive Hf.
  assert (Hfs : foldersOf b = folders st) by (unfold foldersOf; now rewrite Hst).
  assert (Hsec : section b = MyDrive).
  { unfold currentFolder in Hcur. destruct (section b); congruence. }
  apply visibleFolders_In in Hf. destruct Hf as [Hin Hshown].
  unfold shownFolder in Hshown. rewrite Hsec in Hshown.
  apply andb_true_iff in Hshown. destruct Hshown as [_ Hpar].
  pose proof Hcur as Hc. unfold currentFolder in Hc. rewrite Hsec in Hc.
  apply find_some in Hc. destruct Hc as [Hcin Hcid].
  apply is_id_Some in Hcid. rewrite Hcid in Hpar.
  assert (Hp : DriveFolder.parentId f = Some (DriveFolder.id cur)).
  { destruct (DriveFolder.parentId f) as [q |]; simpl in Hpar; [| discriminate].
    apply Z.eqb_eq in Hpar. now subst. }
  assert (Hc' : currentFolder (handleOpenFolder (DriveFolder.id f) b) = Some f).
  { unfold currentFolder. simpl.
    change (foldersOf (handleOpenFolder (DriveFolder.id f) b)) with (foldersOf b).
    apply find_by_id; rewrite Hfs in *; assumption. }
  unfold breadcrumb. rewrite Hc', Hcur, Hsec.
  change (section (handleOpenFolder (DriveFolder.id f) b)) with MyDrive.
  change (foldersOf (handleOpenFolder (DriveFolder.id f) b)) with (foldersOf b).
  cbv iota. simpl breadcrumbLoop at 1.
  rewrite (parentOf_by_id (foldersOf b) f cur); try assumption;
    [| now rewrite Hfs].
  apply breadcrumbLoop_acc.
Qed.

Lemma open_folder_extends_breadcrumb_witness :
  breadcrumb 3 (handleOpenFolder 3
                  (setCurrentFolderId (Some 2) (browse sampleState []))) =
  option_map (fun path => path ++ [folderNotes])
    (breadcrumb 2 (setCurrentFolderId (Some 2) (browse sampleState []))).
Proof.
  apply (open_folder_extends_breadcrumb 2
           (setCurrentFolderId (Some 2) (browse sampleState []))
           sampleState folderDocs folderNotes).
  - reflexivity.
  - nodup_ids.
  - reflexivity.
  - reflexivity.
  - simpl. tauto.
Defined.

(** X22.  With unique folder ids, opening a folder of the breadcrumb cuts
    the breadcrumb after that folder: the folders before it stay, those
    after it go. *)
Theorem breadcrumb_click_cuts_the_trail (fuel : nat) (b : Browser)
  (st : DriveState) (pre post : list DriveFolder.t) (g : DriveFolder.t) :
  state b = Some st ->
  NoDup (map DriveFolder.id (folders st)) ->
  breadcrumb fuel b = Some (pre ++ g :: post) ->
  breadcrumb fuel (handleOpenFolder (DriveFolder.id g) b) = Some (pre ++ [g]).
Proof.
  intros Hst Hnd E.
  assert (Hfs : foldersOf b = folders st) by (unfold foldersOf; now rewrite Hst).
  unfold breadcrumb in E.
  destruct (section b) eqn:Hsec;
    try (injection E as E; destruct pre; discriminate E).
  destruct (currentFolder b) as [cur |] eqn:Hcur;
    [| injection E as E; destruct pre; discriminate E].
  destruct (breadcrumbLoop_path (foldersOf b) fuel (Some cur) [] _ I E)
    as (Hpath & _).
  pose proof (breadcrumbLoop_length _ _ _ _ _ E) as Hlen.
  rewrite length_app in Hlen. simpl in Hlen.
  assert (Hg : In g (foldersOf b)).
  { destruct post as [| h post].
    - destruct fuel as [| k]; [discriminate E |]. simpl in E.
      destruct (breadcrumbLoop_path (foldersOf b) k _ [cur] _
                  (conj eq_refl I) E) as (_ & pre' & Epre).
      apply app_inj_tail in Epre. destruct Epre as [_ ->].
      unfold currentFolder in Hcur. rewrite Hsec in Hcur.
      apply find_some in Hcur. tauto.
    - apply pathFromTop_next in Hpath. apply parentOf_some in Hpath. tauto. }
  assert (Hc' : currentFolder (handleOpenFolder (DriveFolder.id g) b) = Some g).
  { unfold currentFolder. simpl.
    change (foldersOf (handleOpenFolder (DriveFolder.id g) b)) with (foldersOf b).
    apply find_by_id; rewrite Hfs in *; assumption. }
  unfold breadcrumb. rewrite Hc'.
  change (section (handleOpenFolder (DriveFolder.id g) b)) with MyDrive.
  change (foldersOf (handleOpenFolder (DriveFolder.id g) b)) with (foldersOf b).
  cbv iota. apply breadcrumbLoop_complete; [| lia].
  apply (pathFromTop_prefix _ (pre ++ [g]) None post).
  now rewrite <- app_assoc.
Qed.

Lemma breadcrumb_click_cuts_the_trail_witness :
  breadcrumb 4 (handleOpenFolder 2
                  (setCurrentFolderId (Some 3) (browse sampleState []))) =
  Some [folderRoot; folderDocs].
Proof.
  apply (breadcrumb_click_cuts_the_trail 4
           (setCurrentFolderId (Some 3) (browse sampleState []))
           sampleState [folderRoot] [folderNotes] folderDocs).
  - reflexivity.
  - nodup_ids.
  - reflexivity.
Defined.

(** ** The requests of the trash *)

Lemma add_NoDup (s : IdSet) (x : Z) : NoDup s -> NoDup (add s x).
Proof.
  unfold add. intros H. destruct (has s x) eqn:E; [exact H |].
  apply NoDup_snoc; [exact H |]. now apply has_false.
Qed.

Lemma fold_add_NoDup {A : Type} (p : A -> bool) (key : A -> Z) (l : list A) :
  forall B : IdSet,
    NoDup B ->
    NoDup (fold_left (fun acc x => if p x then add acc (key x) else acc) l B).
Proof.
  induction l as [| a l IH]; simpl; intros B H; [exact H |].
  apply IH. destruct (p a); [now apply add_NoDup | exact H].
Qed.

Lemma forEachM_keeps {A S : Type} (P : S -> Prop) (f : A -> S -> option S)
  (xs : list A) :
  (forall x s s', f x s = Some s' -> P s -> P s') ->
  forall s s', forEachM f xs s = Some s' -> P s -> P s'.
Proof.
  intros Hf. induction xs as [| x xs IH]; simpl; intros s s' E Hs.
  - now injection E as <-.
  - destruct (f x s) as [s1 |] eqn:E1; [| discriminate].
    eapply IH; [exact E |]. eapply Hf; eassumption.
Qed.

Lemma collectChildren_distinct (want : bool) (st : DriveState) :
  forall fuel folderId sets sets',
    collectChildren want st fuel folderId sets = Some sets' ->
    distinctSets sets -> distinctSets sets'.
Proof.
  induction fuel as [| k IH]; intros folderId sets sets' E Hs;
    [discriminate |].
  simpl in E.
  destruct (forEachM _ (folders st) sets) as [[fi fl] |] eqn:E1;
    [| discriminate].
  injection E as <-.
  assert (H1 : distinctSets (fi, fl)).
  { eapply forEachM_keeps; [| exact E1 | exact Hs].
    intros f [a c] s' Hv [Ha Hc]. unfold visitChild in Hv.
    destruct (folderChildOf want folderId f);
      [| injection Hv as <-; now split].
    destruct (has a (DriveFolder.id f)); [injection Hv as <-; now split |].
    eapply IH; [exact Hv |]. split; [now apply add_NoDup | exact Hc]. }
  destruct H1 as [Ha Hc]. split; [exact Ha |].
  unfold collectFiles. now apply fold_add_NoDup.
Qed.

Lemma markFolderAndChildren_distinct (st : DriveState) :
  forall fuel folderId sets sets',
    markFolderAndChildren st fuel folderId sets = Some sets' ->
    distinctSets sets -> distinctSets sets'.
Proof.
  induction fuel as [| k IH]; intros folderId [a c] sets' E Hs;
    [discriminate |].
  simpl in E. destruct (has a folderId); [now injection E as <- |].
  destruct (forEachM _ (folders st) _) as [[fi fl] |] eqn:E1; [| discriminate].
  injection E as <-. destruct Hs as [Ha Hc].
  assert (H1 : distinctSets (fi, fl)).
  { eapply forEachM_keeps; [| exact E1 | split; [now apply add_NoDup | exact Hc]].
    intros f s s' Hv Hp. unfold markChild in Hv.
    destruct (is_id (DriveFolder.parentId f) folderId);
      [| now injection Hv as <-].
    eapply IH; eassumption. }
  destruct H1 as [Ha' Hc']. split; [exact Ha' |].
  unfold markFiles. now apply fold_add_NoDup.
Qed.

Lemma trashSets_distinct (st : DriveState) (selected : list Z) (sets : IdSet * IdSet) :
  trashSets st selected = Some sets -> distinctSets sets.
Proof.
  unfold trashSets. intros H.
  eapply forEachM_keeps; [| exact H |].
  - intros x s s'. apply collectChildren_distinct.
  - split; apply fold_add_NoDup; constructor.
Qed.

Lemma restoreSets_distinct (st : DriveState) (selected : list Z)
  (sets : IdSet * IdSet) :
  restoreSets st selected = Some sets -> distinctSets sets.
Proof.
  unfold restoreSets. intros H.
  destruct (forEachM (restoreRoot st selected) (folders st) ([], []))
    as [[fi fl] |] eqn:E; [| discriminate].
  injection H as <-.
  assert (H1 : distinctSets (fi, fl)).
  { eapply forEachM_keeps; [| exact E | split; constructor].
    intros f [a c] s' Hv [Ha Hc]. unfold restoreRoot in Hv.
    destruct (_ && _); [| injection Hv as <-; now split].
    eapply collectChildren_distinct; [exact Hv |].
    split; [now apply add_NoDup | exact Hc]. }
  destruct H1 as [Ha Hc]. split; [exact Ha |]. now apply fold_add_NoDup.
Qed.

Lemma deleteSets_distinct (st : DriveState) (selected : list Z)
  (sets : IdSet * IdSet) :
  deleteSets st selected = Some sets -> distinctSets sets.
Proof.
  unfold deleteSets. intros H.
  destruct (forEachM (deleteRoot st selected) (folders st) ([], []))
    as [[fi fl] |] eqn:E; [| discriminate].
  injection H as <-.
  assert (H1 : distinctSets (fi, fl)).
  { eapply forEachM_keeps; [| exact E | split; constructor].
    intros f s s' Hv Hp. unfold deleteRoot in Hv.
    destruct (includes selected (DriveFolder.id f));
      [| now injection Hv as <-].
    eapply markFolderAndChildren_distinct; eassumption. }
  destruct H1 as [Ha Hc]. split; [exact Ha |]. now apply fold_add_NoDup.
Qed.

Lemma NoDup_flat_map {A R : Type} (F : A -> list R) (key : R -> A) (l : list A) :
  (forall x r, In r (F x) -> key r = x) ->
  (forall x, NoDup (F x)) ->
  NoDup l -> NoDup (flat_map F l).
Proof.
  intros Hk HF. induction l as [| a l IH]; simpl; intros Hl; [constructor |].
  inversion Hl as [| ? ? Ha Hl']; subst.
  apply NoDup_app; [apply HF | now apply IH |].
  intros r Hr C. apply in_flat_map in C. destruct C as (x & Hx & Hrx).
  apply Hk in Hr. apply Hk in Hrx. congruence.
Qed.

Lemma updateRequests_NoDup (st : DriveState)
  (folderPatch : DriveFolder.t -> Patch) (filePatch : DriveFile.t -> Patch)
  (sets : IdSet * IdSet) :
  distinctSets sets ->
  NoDup (updateRequests st folderPatch filePatch sets).
Proof.
  destruct sets as [A B]. intros [HA HB]. unfold updateRequests.
  apply NoDup_app.
  - apply (NoDup_flat_map _ requestId); [| | exact HA].
    + intros x r Hr. destruct (find _ (folders st)); [| destruct Hr].
      destruct Hr as [<- | []]. reflexivity.
    + intros x. destruct (find _ (folders st)); repeat constructor. intros [].
  - apply (NoDup_flat_map _ requestId); [| | exact HB].
    + intros x r Hr. destruct (find _ (files st)); [| destruct Hr].
      destruct Hr as [<- | []]. reflexivity.
    + intros x. destruct (find _ (files st)); repeat constructor. intros [].
  - intros r H1 H2. apply in_flat_map in H1, H2.
    destruct H1 as (x & _ & H1), H2 as (y & _ & H2).
    destruct (find _ (folders st)); [| destruct H1].
    destruct (find _ (files st)); [| destruct H2].
    destruct H1 as [<- | []]. destruct H2 as [H2 | []]. discriminate H2.
Qed.

Lemma updateRequests_folder (st : DriveState)
  (folderPatch : DriveFolder.t -> Patch) (filePatch : DriveFile.t -> Patch)
  (A B : IdSet) (id : Z) (patch : Patch) :
  NoDup (map DriveFolder.id (folders st)) ->
  In (UpdateFolder id patch) (updateRequests st folderPatch filePatch (A, B)) <->
  exists f, In f (folders st) /\ DriveFolder.id f = id /\ In id A /\
            patch = folderPatch f.
Proof.
  intros Hnd. unfold updateRequests. rewrite in_app_iff, !in_flat_map. split.
  - intros [(x & Hx & Hr) | (x & Hx & Hr)].
    + destruct (find _ (folders st)) as [f |] eqn:Ef; [| destruct Hr].
      destruct Hr as [[= <- <-] | []].
      apply find_some in Ef. destruct Ef as [Hf Hid]. apply Z.eqb_eq in Hid.
      exists f. auto.
    + destruct (find _ (files st)); [| destruct Hr].
      destruct Hr as [Hr | []]. discriminate Hr.
  - intros (f & Hf & <- & HA & ->). left. exists (DriveFolder.id f).
    split; [exact HA |].
    rewrite (find_first_key _ DriveFolder.id (folders st) f Hnd Hf).
    + now left.
    + apply Z.eqb_refl.
    + intros y Hy. now apply Z.eqb_eq in Hy.
Qed.

Lemma updateRequests_file (st : DriveState)
  (folderPatch : DriveFolder.t -> Patch) (filePatch : DriveFile.t -> Patch)
  (A B : IdSet) (id : Z) (patch : Patch) :
  NoDup (map DriveFile.id (files st)) ->
  In (UpdateFile id patch) (updateRequests st folderPatch filePatch (A, B)) <->
  exists f, In f (files st) /\ DriveFile.id f = id /\ In id B /\
            patch = filePatch f.
Proof.
  intros Hnd. unfold updateRequests. rewrite in_app_iff, !in_flat_map. split.
  - intros [(x & Hx & Hr) | (x & Hx & Hr)].
    + destruct (find _ (folders st)); [| destruct Hr].
      destruct Hr as [Hr | []]. discriminate Hr.
    + destruct (find _ (files st)) as [f |] eqn:Ef; [| destruct Hr].
      destruct Hr as [[= <- <-] | []].
      apply find_some in Ef. destruct Ef as [Hf Hid]. apply Z.eqb_eq in Hid.
      exists f. auto.
  - intros (f & Hf & <- & HB & ->). right. exists (DriveFile.id f).
    split; [exact HB |].
    rewrite (find_first_key _ DriveFile.id (files st) f Hnd Hf).
    + now left.
    + apply Z.eqb_refl.
    + intros y Hy. now apply Z.eqb_eq in Hy.
Qed.

(** the two lists of a state updated item by item are in sync with the
    requests of the same sets *)
Lemma updates_in_sync (st : DriveState) (withParent : bool)
  (folderPatch : DriveFolder.t -> Patch) (filePatch : DriveFile.t -> Patch)
  (onFolder : DriveFolder.t -> DriveFolder.t)
  (onFile : DriveFile.t -> DriveFile.t) (A B : IdSet) :
  NoDup (map DriveFolder.id (folders st)) ->
  NoDup (map DriveFile.id (files st)) ->
  (forall f, folderPatch f = folderPatchOf withParent (onFolder f)) ->
  (forall f, filePatch f = filePatchOf withParent (onFile f)) ->
  let sent := updateRequests st folderPatch filePatch (A, B) in
  Forall2 (folderInSync withParent sent) (folders st)
    (map (fun f => if has A (DriveFolder.id f) then onFolder f else f)
         (folders st)) /\
  Forall2 (fileInSync withParent sent) (files st)
    (map (fun f => if has B (DriveFile.id f) then onFile f else f)
         (files st)).
Proof.
  intros HF Hf HpF Hpf sent. split; apply Forall2_map_self; intros f Hin; split.
  - intros patch Hr. apply (updateRequests_folder _ _ _ _ _ _ _ HF) in Hr.
    destruct Hr as (g & Hg & Hid & HA & ->).
    assert (g = f) by (eapply NoDup_key_inj; eassumption). subst g.
    apply has_In in HA. rewrite HA. apply HpF.
  - intros Hne. destruct (has A (DriveFolder.id f)) eqn:Eh; [| congruence].
    apply (updateRequests_folder _ _ _ _ _ _ _ HF). exists f.
    repeat split; [exact Hin | now apply has_In | now rewrite HpF].
  - intros patch Hr. apply (updateRequests_file _ _ _ _ _ _ _ Hf) in Hr.
    destruct Hr as (g & Hg & Hid & HB & ->).
    assert (g = f) by (eapply NoDup_key_inj; eassumption). subst g.
    apply has_In in HB. rewrite HB. apply Hpf.
  - intros Hne. destruct (has B (DriveFile.id f)) eqn:Eh; [| congruence].
    apply (updateRequests_file _ _ _ _ _ _ _ Hf). exists f.
    repeat split; [exact Hin | now apply has_In | now rewrite Hpf].
Qed.

(** X23.  With unique ids, what move to trash and restore send is what
    they show.  Each sends every request once; a request about a folder
    or a file carries the values the item has in the local state after the
    operation ([trashed] and [originalParentId], and for a restore also
    [parentId]), and every item the operation changed has its request. *)
Theorem trash_and_restore_send_what_they_show (b : Browser) (st : DriveState) :
  state b = Some st -> selectedIds b <> [] ->
  NoDup (map DriveFolder.id (folders st)) ->
  NoDup (map DriveFile.id (files st)) ->
  (exists b' st' sent,
     handleMoveToTrashSelected true b = Some b' /\ state b' = Some st' /\
     moveToTrashSent true b = Some sent /\ NoDup sent /\
     Forall2 (folderInSync false sent) (folders st) (folders st') /\
     Forall2 (fileInSync false sent) (files st) (files st')) /\
  (exists b' st' sent,
     handleRestoreSelected b = Some b' /\ state b' = Some st' /\
     restoreSent b = Some sent /\ NoDup sent /\
     Forall2 (folderInSync true sent) (folders st) (folders st') /\
     Forall2 (fileInSync true sent) (files st) (files st')).
Proof.
  intros Hst Hne HF Hf.
  assert (Hlen : (List.length (selectedIds b) =? 0)%nat = false).
  { destruct (selectedIds b); [congruence | reflexivity]. }
  split.
  - destruct (moveToTrash_run b st Hst) as (A & B & b' & E & Hrun & Hst' & _).
    exists b', (applyTrash (A, B) st),
      (updateRequests st trashFolderPatch trashFilePatch (A, B)).
    split; [exact Hrun |]. split; [exact Hst' |].
    split; [unfold moveToTrashSent; now rewrite Hst, Hlen, E |].
    split; [apply updateRequests_NoDup, (trashSets_distinct _ _ _ E) |].
    apply (updates_in_sync st false trashFolderPatch trashFilePatch
             trashFolder trashFile A B HF Hf); reflexivity.
  - destruct (restore_run b st Hst) as (A & B & b' & E & Hrun & Hst' & _).
    exists b', (applyRestore (rootFolderId st) (A, B) st),
      (updateRequests st (restoreFolderPatch (rootFolderId st))
         (restoreFilePatch (rootFolderId st)) (A, B)).
    split; [exact Hrun |]. split; [exact Hst' |].
    split; [unfold restoreSent; now rewrite Hst, Hlen, E |].
    split; [apply updateRequests_NoDup, (restoreSets_distinct _ _ _ E) |].
    apply (updates_in_sync st true (restoreFolderPatch (rootFolderId st))
             (restoreFilePatch (rootFolderId st))
             (restoreFolder (rootFolderId st)) (restoreFile (rootFolderId st))
             A B HF Hf); reflexivity.
Qed.

Lemma trash_and_restore_send_what_they_show_witness :
  exists sent,
    moveToTrashSent true (browse sampleState [2]) = Some sent /\ NoDup sent.
Proof.
  destruct (trash_and_restore_send_what_they_show (browse sampleState [2])
              sampleState eq_refl ltac:(discriminate)
              ltac:(nodup_ids) ltac:(nodup_ids))
    as [(b' & st' & sent & _ & _ & Hs & Hn & _) _].
  exists sent. split; [exact Hs | exact Hn].
Defined.

(** X24.  Permanent delete asks the server to delete the files first and
    the folders after them, each id once, and the ids are those of the
    items that leave the local state: nothing that stays is deleted on the
    server and nothing that goes is forgotten.  Empty trash sends the same
    kind of list for the trashed items. *)
Theorem delete_requests_match_what_disappears (b : Browser) (st : DriveState) :
  state b = Some st ->
  (selectedIds b <> [] ->
   exists b' st' fileIds folderIds,
     handlePermanentDeleteSelected true b = Some b' /\ state b' = Some st' /\
     permanentDeleteSent true b =
       Some (map DeleteFile fileIds ++ map DeleteFolder folderIds) /\
     NoDup fileIds /\ NoDup folderIds /\
     (forall id, In id folderIds <->
                 exists f, In f (folders st) /\ DriveFolder.id f = id /\
                           ~ In f (folders st')) /\
     (forall id, In id fileIds <->
                 exists f, In f (files st) /\ DriveFile.id f = id /\
                           ~ In f (files st'))) /\
  (hasTrash b = true ->
   exists st' fileIds folderIds,
     state (handleEmptyTrash true b) = Some st' /\
     emptyTrashSent true b =
       map DeleteFile fileIds ++ map DeleteFolder folderIds /\
     (forall id, In id folderIds <->
                 exists f, In f (folders st) /\ DriveFolder.id f = id /\
                           ~ In f (folders st')) /\
     (forall id, In id fileIds <->
                 exists f, In f (files st) /\ DriveFile.id f = id /\
                           ~ In f (files st'))).
Proof.
  intros Hst. split.
  - intros Hne.
    assert (Hlen : (List.length (selectedIds b) =? 0)%nat = false).
    { destruct (selectedIds b); [congruence | reflexivity]. }
    destruct (permanentDelete_run b st Hst) as (A & B & b' & E & Hrun & Hst' & _).
    destruct (deleteSets_spec st (selectedIds b)) as (A' & B' & E' & HA & HB).
    rewrite E in E'. injection E' as <- <-.
    destruct (deleteSets_distinct _ _ _ E) as [HnA HnB].
    exists b', (applyDelete (A, B) st), B, A.
    split; [exact Hrun |]. split; [exact Hst' |].
    split; [unfold permanentDeleteSent; now rewrite Hst, Hlen, E |].
    split; [exact HnB |]. split; [exact HnA |]. simpl. split; intros id; split.
    + intros Hin. destruct (cascade_folder _ _ _ _ (proj1 (HA id) Hin))
        as (f & Hf & Hid & _).
      exists f. repeat split; auto. rewrite filter_In. intros [_ C].
      apply negb_true_iff, has_false in C. congruence.
    + intros (f & Hf & <- & Hgone).
      destruct (has A (DriveFolder.id f)) eqn:Eh; [now apply has_In |].
      exfalso. apply Hgone. apply filter_In. now rewrite Eh.
    + intros Hin. destruct (proj1 (HB id) Hin) as (f & Hf & Hid & _).
      exists f. repeat split; auto. rewrite filter_In. intros [_ C].
      apply negb_true_iff, has_false in C. congruence.
    + intros (f & Hf & <- & Hgone).
      destruct (has B (DriveFile.id f)) eqn:Eh; [now apply has_In |].
      exfalso. apply Hgone. apply filter_In. now rewrite Eh.
  - intros Ht. unfold handleEmptyTrash, emptyTrashSent. rewrite Hst, Ht. simpl.
    eexists. eexists. eexists.
    split; [reflexivity |]. split; [reflexivity |]. simpl.
    split; intros id; rewrite in_map_iff; split.
    + intros (f & Hid & Hf). apply filter_In in Hf. destruct Hf as [Hf Htr].
      exists f. repeat split; auto. rewrite filter_In. intros [_ C].
      rewrite Htr in C. discriminate C.
    + intros (f & Hf & Hid & Hgone). exists f. split; [exact Hid |].
      apply filter_In. split; [exact Hf |].
      destruct (DriveFolder.trashed f) eqn:Etr; [reflexivity |].
      exfalso. apply Hgone. apply filter_In. now rewrite Etr.
    + intros (f & Hid & Hf). apply filter_In in Hf. destruct Hf as [Hf Htr].
      exists f. repeat split; auto. rewrite filter_In. intros [_ C].
      rewrite Htr in C. discriminate C.
    + intros (f & Hf & Hid & Hgone). exists f. split; [exact Hid |].
      apply filter_In. split; [exact Hf |].
      destruct (DriveFile.trashed f) eqn:Etr; [reflexivity |].
      exfalso. apply Hgone. apply filter_In. now rewrite Etr.
Qed.

Lemma delete_requests_match_what_disappears_witness :
  exists b' fileIds folderIds,
    handlePermanentDeleteSelected true (browse sampleState [2]) = Some b' /\
    permanentDeleteSent true (browse sampleState [2]) =
      Some (map DeleteFile fileIds ++ map DeleteFolder folderIds) /\
    NoDup fileIds /\ NoDup folderIds.
Proof.
  destruct (delete_requests_match_what_disappears (browse sampleState [2])
              sampleState eq_refl) as [H _].
  destruct (H ltac:(discriminate))
    as (b' & st' & fileIds & folderIds & H1 & _ & H3 & H4 & H5 & _).
  exists b', fileIds, folderIds. repeat split; assumption.
Defined.

(** ** Signing in *)

(** X25.  [onSubmit] calls [onLoggedIn] only after [apiLogin] and [apiMe],
    and in the register mode [apiRegister] before them, have all answered;
    it passes the token that [apiLogin] answered and the email of the
    form, and leaves no error.  Otherwise one request was rejected: it is
    the last one sent, every request before it was answered, the message
    of its rejection is the error of the page, and [onLoggedIn] is not
    called.  Either way [loading] ends false, the form keeps its fields,
    and the login mode never registers. *)
Theorem submit_logs_in_after_every_answer
  (Server : Type)
  (apiRegister : Server -> string -> string -> Server * (string + unit))
  (apiLogin : Server -> string -> string -> Server * (string + string))
  (apiMe : Server -> string -> Server * (string + unit))
  (s s' : Server) (page page' : AuthPage.t) (calls : list AuthCall)
  (logged : option (string * string)) :
  onSubmit Server apiRegister apiLogin apiMe s page = (s', page', calls, logged) ->
  let email := AuthPage.email page in
  let password := AuthPage.password page in
  let first :=
    match AuthPage.mode page with
    | RegisterMode => [Register email password]
    | LoginMode => []
    end in
  (* the server [s1] on which [apiLogin] is called *)
  let registered (s1 : Server) :=
    match AuthPage.mode page with
    | RegisterMode => apiRegister s email password = (s1, inr tt)
    | LoginMode => s1 = s
    end in
  AuthPage.loading page' = false /\
  AuthPage.mode page' = AuthPage.mode page /\
  AuthPage.email page' = email /\ AuthPage.password page' = password /\
  (AuthPage.mode page = LoginMode -> forall e p, ~ In (Register e p) calls) /\
  match logged with
  | Some (token, e) =>
      e = email /\ AuthPage.error page' = None /\
      calls = first ++ [Login email password; Me token] /\
      exists s1 s2, registered s1 /\
                    apiLogin s1 email password = (s2, inr token) /\
                    apiMe s2 token = (s', inr tt)
  | None =>
      exists message, AuthPage.error page' = Some message /\
        ((AuthPage.mode page = RegisterMode /\
          apiRegister s email password = (s', inl message) /\
          calls = [Register email password]) \/
         (exists s1, registered s1 /\
                     apiLogin s1 email password = (s', inl message) /\
                     calls = first ++ [Login email password]) \/
         (exists s1 s2 token,
            registered s1 /\
            apiLogin s1 email password = (s2, inr token) /\
            apiMe s2 token = (s', inl message) /\
            calls = first ++ [Login email password; Me token]))
  end.
Proof.
  intros H email password first registered.
  subst email password first registered.
  unfold onSubmit, submitLogin, submitFailed in H. simpl in H.
  destruct (AuthPage.mode page) eqn:Em;
    [| destruct (apiRegister s (AuthPage.email page) (AuthPage.password page))
         as [s0 [msg0 | []]] eqn:Er];
    try (destruct (apiLogin _ (AuthPage.email page) (AuthPage.password page))
           as [s1 [msg1 | token]] eqn:El;
         [| destruct (apiMe s1 token) as [s2 [msg2 | []]] eqn:Ee]);
    injection H as <- <- <- <-; simpl;
    repeat apply conj; try reflexivity; try discriminate; try exact Em;
    try (intros _ e p C; simpl in C; intuition discriminate);
    try (eexists; eexists; repeat apply conj; (eassumption || reflexivity));
    eexists; (split; [reflexivity |]);
    first [ left; repeat apply conj; (eassumption || reflexivity)
          | right; left; eexists; repeat apply conj;
            (eassumption || reflexivity)
          | right; right; eexists; eexists; eexists; repeat apply conj;
            (eassumption || reflexivity) ].
Qed.

Lemma submit_logs_in_after_every_answer_witness :
  let page := AuthPage.mk RegisterMode "ann@example.org" "secret" false None in
  exists page',
    onSubmit unit soleRegister soleLogin soleMe tt page =
      (tt, page', [Register "ann@example.org" "secret"], None) /\
    AuthPage.loading page' = false /\
    exists message,
      AuthPage.error page' = Some message /\
      soleRegister tt "ann@example.org" "secret" = (tt, inl message).
Proof.
  intros page.
  exists (setLoading false (setError (Some "Email already registered"%string)
                              (setLoading true (setError None page)))).
  destruct (submit_logs_in_after_every_answer unit soleRegister soleLogin soleMe
              tt tt page
              (setLoading false (setError (Some "Email already registered"%string)
                                   (setLoading true (setError None page))))
              [Register "ann@example.org" "secret"] None eq_refl)
    as (H1 & _ & _ & _ & _ & message & Hm & Hcase).
  split; [reflexivity |]. split; [exact H1 |].
  exists message. split; [exact Hm |].
  destruct Hcase as [(_ & Hr & _) | [(s1 & _ & _ & C) | (s1 & s2 & t & _ & _ & _ & C)]];
    [exact Hr | discriminate C | discriminate C].
Defined.
